(** * Confinode: the configuration search/load engine

    A shallow embedding of the class [Confinode] and of the options of
    [Confinode/ConfinodeOptions.ts], with the properties of the search
    cascade, the file-description matching, the file loading and the two
    caches.

    The engine is written once as a generator which yields [Request]s; the
    generator is embedded as a computation over the instance state (the two
    caches), which emits the log messages and the requests in the order the
    code produces them, and which can return, throw, or (in the model only)
    run out of recursion fuel. *)

From Stdlib Require Import String Ascii List Bool Arith Lia.
From stdpp Require Import base option list strings gmap.
Import ListNotations.
Local Open Scope string_scope.

(** ** Node's [path] module, POSIX flavour

    [resolve], [dirname], [join] and [basename] are imported by the engine
    from Node's standard library.  They are modelled on strings, following
    [lib/path.js] ([posix]): a path is split into its segments where Node
    scans characters, which gives the same results. *)

Module Path.

Definition isSlash (c : ascii) : bool := Ascii.eqb c "/".

Definition notSlash (c : ascii) : bool := negb (isSlash c).

Fixpoint dropWhile {A} (p : A -> bool) (l : list A) : list A :=
  match l with
  | [] => []
  | x :: r => if p x then dropWhile p r else l
  end.

Fixpoint takeWhile {A} (p : A -> bool) (l : list A) : list A :=
  match l with
  | [] => []
  | x :: r => if p x then x :: takeWhile p r else []
  end.

(** The segments of a path: the pieces between its slashes. *)
Fixpoint segments (s : string) : list string :=
  match s with
  | EmptyString => [EmptyString]
  | String c r =>
      if isSlash c then EmptyString :: segments r
      else match segments r with
           | seg :: segs => String c seg :: segs
           | [] => [String c EmptyString]
           end
  end.

(** [normalizeString]: empty and [.] segments are dropped, [..] removes the
    segment before it; above the start it is kept when [allowAboveRoot] and
    dropped otherwise.  [res] is the result so far, last segment first. *)
Fixpoint normalizeString (allowAboveRoot : bool) (res : list string) (segs : list string)
  : list string :=
  match segs with
  | [] => rev res
  | seg :: rest =>
      if String.eqb seg "" || String.eqb seg "." then normalizeString allowAboveRoot res rest
      else if String.eqb seg ".." then
        match res with
        | last :: before =>
            if String.eqb last ".." then
              normalizeString allowAboveRoot (if allowAboveRoot then seg :: res else res) rest
            else normalizeString allowAboveRoot before rest
        | [] => normalizeString allowAboveRoot (if allowAboveRoot then [seg] else []) rest
        end
      else normalizeString allowAboveRoot (seg :: res) rest
  end.

Definition isAbsolute (path : string) : bool :=
  match path with
  | String c _ => isSlash c
  | EmptyString => false
  end.

Definition endsWithSlash (path : string) : bool :=
  match rev (list_ascii_of_string path) with
  | c :: _ => isSlash c
  | [] => false
  end.

(** [resolve(process.cwd(), path)]: [cwd] stands for [process.cwd()], which
    is an absolute path. *)
Definition resolve (cwd path : string) : string :=
  let full := if isAbsolute path then path
              else if String.eqb path "" then cwd else cwd ++ "/" ++ path in
  String "/" (String.concat "/" (normalizeString false [] (segments full))).

Definition normalize (path : string) : string :=
  if String.eqb path "" then "." else
  let res := String.concat "/" (normalizeString (negb (isAbsolute path)) [] (segments path)) in
  if String.eqb res "" then
    if isAbsolute path then "/" else if endsWithSlash path then "./" else "."
  else
    let res := if endsWithSlash path then res ++ "/" else res in
    if isAbsolute path then String "/" res else res.

Definition join (a b : string) : string :=
  match String.eqb a "", String.eqb b "" with
  | true, true => "."
  | true, false => normalize b
  | false, true => normalize a
  | false, false => normalize (a ++ "/" ++ b)
  end.

(** [dirname]: trailing slashes are skipped, then the last segment, and the
    path is cut at the slash before it (index [end] of the source). *)
Definition dirname (path : string) : string :=
  match path with
  | EmptyString => "."
  | String c0 rest =>
      match dropWhile notSlash (dropWhile isSlash (rev (list_ascii_of_string rest))) with
      | [] => if isSlash c0 then "/" else "."
      | _ :: before =>
          match before with
          | [] => if isSlash c0 then "//" else String c0 EmptyString
          | _ => String c0 (string_of_list_ascii (rev before))
          end
      end
  end.

Definition basename (path : string) : string :=
  string_of_list_ascii
    (rev (takeWhile notSlash (dropWhile isSlash (rev (list_ascii_of_string path))))).

(** *** Facts on paths used for the termination of the cascade *)

Definition weight (l : list string) : nat :=
  list_sum (map (fun s => S (String.length s)) l).

Lemma weight_app (l1 l2 : list string) : weight (l1 ++ l2) = weight l1 + weight l2.
Proof.
  unfold weight. rewrite map_app, list_sum_app. reflexivity.
Qed.

Lemma weight_rev (l : list string) : weight (rev l) = weight l.
Proof.
  induction l as [|x l IH]; simpl; [reflexivity|].
  rewrite weight_app, IH. unfold weight. simpl. lia.
Qed.

Lemma string_length_app (a b : string) :
  String.length (a ++ b) = String.length a + String.length b.
Proof.
  induction a as [|c a IH]; simpl; [reflexivity | now rewrite IH].
Qed.

Lemma concat_length (l : list string) :
  String.length (String.concat "/" l) = pred (weight l).
Proof.
  induction l as [|x l IH]; [reflexivity|].
  destruct l as [|y l].
  - unfold weight. simpl. lia.
  - change (String.concat "/" (x :: y :: l)) with (x ++ "/" ++ String.concat "/" (y :: l)).
    rewrite !string_length_app, IH. unfold weight. simpl. lia.
Qed.

Lemma segments_nonempty (s : string) : segments s <> [].
Proof.
  destruct s as [|c r]; simpl; [discriminate|].
  destruct (isSlash c); [discriminate|].
  destruct (segments r); discriminate.
Qed.

Lemma segments_weight (s : string) : weight (segments s) = S (String.length s).
Proof.
  induction s as [|c r IH]; [reflexivity|].
  simpl. destruct (isSlash c).
  - change (weight ("" :: segments r)) with (1 + weight (segments r)). lia.
  - pose proof (segments_nonempty r) as Hne.
    destruct (segments r) as [|seg segs]; [contradiction|].
    unfold weight in *. simpl in *. lia.
Qed.

Lemma normalizeString_weight (segs res : list string) :
  weight (normalizeString false res segs) <= weight res + weight segs.
Proof.
  revert res. induction segs as [|seg rest IH]; intros res; simpl.
  - rewrite weight_rev. lia.
  - change (weight (seg :: rest)) with (S (String.length seg) + weight rest).
    destruct (String.eqb seg "" || String.eqb seg ".").
    { etransitivity; [apply IH|]. lia. }
    destruct (String.eqb seg "..").
    + destruct res as [|last before].
      * etransitivity; [apply IH|]. lia.
      * destruct (String.eqb last "..");
          (etransitivity; [apply IH|]);
          change (weight (last :: before)) with (S (String.length last) + weight before); lia.
    + etransitivity; [apply IH|].
      change (weight (seg :: res)) with (S (String.length seg) + weight res). lia.
Qed.

Lemma resolve_absolute (cwd path : string) : isAbsolute (resolve cwd path) = true.
Proof. reflexivity. Qed.

(** Resolving a path which is already absolute never makes it longer. *)
Lemma resolve_length (cwd path : string) :
  isAbsolute path = true -> String.length (resolve cwd path) <= String.length path.
Proof.
  intros Habs. unfold resolve. rewrite Habs.
  destruct path as [|c r]; [discriminate|]. simpl in Habs.
  simpl segments. rewrite Habs. simpl normalizeString.
  simpl String.length. rewrite concat_length.
  pose proof (normalizeString_weight (segments r) []) as Hw.
  rewrite segments_weight in Hw. change (weight []) with 0 in Hw. lia.
Qed.

Lemma dropWhile_length {A} (p : A -> bool) (l : list A) :
  List.length (dropWhile p l) <= List.length l.
Proof.
  induction l as [|x l IH]; simpl; [lia|].
  destruct (p x); simpl; lia.
Qed.

Lemma dropWhile_head {A} (p : A -> bool) (l : list A) x r :
  dropWhile p l = x :: r -> p x = false.
Proof.
  induction l as [|y l IH]; simpl; [discriminate|].
  destruct (p y) eqn:Hy; [exact IH|].
  intros [= -> _]. exact Hy.
Qed.

Lemma scan_shorter (l : list ascii) x before :
  dropWhile notSlash (dropWhile isSlash l) = x :: before ->
  S (List.length before) < List.length l.
Proof.
  intros H. pose proof (dropWhile_length isSlash l) as Hl.
  destruct (dropWhile isSlash l) as [|y l'] eqn:E; [discriminate|].
  apply dropWhile_head in E. simpl in H. unfold notSlash in H at 1.
  rewrite E in H. simpl in H.
  pose proof (dropWhile_length notSlash l') as Hl'. rewrite H in Hl'.
  simpl in *. lia.
Qed.

Lemma string_of_list_length (l : list ascii) :
  String.length (string_of_list_ascii l) = List.length l.
Proof.
  induction l as [|c l IH]; simpl; [reflexivity | now rewrite IH].
Qed.

Lemma list_of_string_length (s : string) :
  List.length (list_ascii_of_string s) = String.length s.
Proof.
  induction s as [|c s IH]; simpl; [reflexivity | now rewrite IH].
Qed.

Lemma dirname_absolute (path : string) :
  isAbsolute path = true -> isAbsolute (dirname path) = true.
Proof.
  destruct path as [|c0 rest]; [discriminate|]. simpl. intros Hc.
  destruct (dropWhile notSlash (dropWhile isSlash (rev (list_ascii_of_string rest))))
    as [|x [|y before]]; rewrite ?Hc; simpl; auto.
Qed.

(** The parent of an absolute path is shorter, unless the path is its own
    parent. *)
Lemma dirname_shorter (path : string) :
  isAbsolute path = true -> dirname path <> path ->
  String.length (dirname path) < String.length path.
Proof.
  destruct path as [|c0 rest]; [discriminate|]. simpl isAbsolute. intros Hc.
  assert (c0 = "/"%char) as -> by (now apply Ascii.eqb_eq).
  unfold dirname.
  destruct (dropWhile notSlash (dropWhile isSlash (rev (list_ascii_of_string rest))))
    as [|x before] eqn:E.
  - simpl. intros Hne. destruct rest; [contradiction|]. simpl. lia.
  - apply scan_shorter in E. rewrite length_rev, list_of_string_length in E.
    intros _. destruct before as [|y before]; simpl in *.
    + lia.
    + rewrite string_of_list_length, length_app, length_rev. simpl. lia.
Qed.

(** The step of the cascade, from a resolved folder to its resolved parent,
    shortens the path. *)
Lemma parent_shorter (cwd folder : string) :
  dirname (resolve cwd folder) <> resolve cwd folder ->
  String.length (resolve cwd (dirname (resolve cwd folder)))
  < String.length (resolve cwd folder).
Proof.
  intros Hne.
  pose proof (dirname_shorter _ (resolve_absolute cwd folder) Hne).
  pose proof (resolve_length cwd (dirname (resolve cwd folder))
                (dirname_absolute _ (resolve_absolute cwd folder))).
  lia.
Qed.

Lemma normalize_absolute (path : string) :
  isAbsolute path = true -> isAbsolute (normalize path) = true.
Proof.
  intros Habs. unfold normalize. rewrite Habs.
  destruct (String.eqb_spec path "") as [->|_]; [discriminate Habs|].
  destruct (String.eqb _ ""); reflexivity.
Qed.

(** A path joined to an absolute path is an absolute path. *)
Lemma join_absolute (a b : string) : isAbsolute a = true -> isAbsolute (join a b) = true.
Proof.
  intros Habs. unfold join. destruct a as [|c a]; [discriminate|].
  change (String.eqb (String c a) "") with false. cbv iota.
  destruct (String.eqb b ""); apply normalize_absolute; exact Habs.
Qed.

(** *** Plain names *)

(** A name of an entry: it has no slash and is none of the empty name,
    [.] and [..]. *)
Definition plainName (name : string) : bool :=
  negb (String.eqb name "") && negb (String.eqb name ".") && negb (String.eqb name "..")
  && forallb notSlash (list_ascii_of_string name).

Lemma plainName_spec name :
  plainName name = true ->
  String.eqb name "" = false /\ String.eqb name "." = false /\
  String.eqb name ".." = false /\ forallb notSlash (list_ascii_of_string name) = true.
Proof.
  unfold plainName. intros H.
  apply andb_true_iff in H as [H H4]. apply andb_true_iff in H as [H H3].
  apply andb_true_iff in H as [H1 H2].
  repeat split; try assumption; now apply negb_true_iff.
Qed.

Lemma segments_app (a b : string) :
  segments (a ++ String "/" b) = (segments a ++ segments b)%list.
Proof.
  induction a as [|c a IH]; [reflexivity|].
  change (String c a ++ String "/" b) with (String c (a ++ String "/" b)).
  cbn [segments]. rewrite IH. destruct (isSlash c); [reflexivity|].
  pose proof (segments_nonempty a) as Hne.
  destruct (segments a) as [|seg segs]; [contradiction|reflexivity].
Qed.

Lemma segments_noSlash (name : string) :
  forallb notSlash (list_ascii_of_string name) = true -> segments name = [name].
Proof.
  induction name as [|c name IH]; [reflexivity|].
  cbn [list_ascii_of_string forallb segments]. intros H.
  apply andb_true_iff in H as [Hc Hname]. unfold notSlash in Hc.
  apply negb_true_iff in Hc. rewrite Hc, (IH Hname). reflexivity.
Qed.

Lemma segments_pieces (s : string) :
  Forall (fun seg => forallb notSlash (list_ascii_of_string seg) = true) (segments s).
Proof.
  induction s as [|c s IH]; [repeat constructor|].
  cbn [segments]. destruct (isSlash c) eqn:Hc; [constructor; [reflexivity|exact IH]|].
  destruct (segments s) as [|seg segs]; [repeat constructor; cbn; unfold notSlash; now rewrite Hc|].
  inversion IH as [|? ? Hseg Hsegs]; subst. constructor; [|exact Hsegs].
  cbn. unfold notSlash at 1. now rewrite Hc.
Qed.

Lemma normalizeString_plain (segs res : list string) :
  Forall (fun seg => forallb notSlash (list_ascii_of_string seg) = true) segs ->
  Forall (fun seg => plainName seg = true) res ->
  Forall (fun seg => plainName seg = true) (normalizeString false res segs).
Proof.
  revert res. induction segs as [|seg rest IH]; intros res Hsegs Hres.
  - cbn. apply Forall_rev. exact Hres.
  - inversion Hsegs as [|? ? Hseg Hrest]; subst. cbn [normalizeString].
    destruct (String.eqb seg "") eqn:E1; [now apply IH|].
    destruct (String.eqb seg ".") eqn:E2; [now apply IH|]. cbn [orb].
    destruct (String.eqb seg "..") eqn:E3.
    + destruct res as [|last before]; [now apply IH|].
      inversion Hres as [|? ? Hlast Hbefore]; subst.
      destruct (String.eqb last ".."); now apply IH.
    + apply IH; [exact Hrest|]. constructor; [|exact Hres].
      unfold plainName. now rewrite E1, E2, E3, Hseg.
Qed.

(** A resolved path is a slash followed by plain names, with slashes
    between them. *)
Lemma resolve_plain (cwd path : string) :
  exists segs,
    resolve cwd path = String "/" (String.concat "/" segs) /\
    Forall (fun seg => plainName seg = true) segs.
Proof.
  unfold resolve. eexists. split; [reflexivity|].
  apply normalizeString_plain; [apply segments_pieces | constructor].
Qed.

Lemma normalizeString_of_plain allow (segs res : list string) :
  Forall (fun seg => plainName seg = true) segs ->
  normalizeString allow res segs = (rev res ++ segs)%list.
Proof.
  revert res. induction segs as [|seg rest IH]; intros res Hsegs.
  - cbn. now rewrite app_nil_r.
  - inversion Hsegs as [|? ? Hseg Hrest]; subst. cbn [normalizeString].
    apply plainName_spec in Hseg as (-> & -> & -> & _). cbn [orb].
    rewrite (IH _ Hrest). cbn [rev]. now rewrite <- app_assoc.
Qed.

Lemma string_app_assoc (a b c : string) : ((a ++ b) ++ c = a ++ (b ++ c))%string.
Proof.
  induction a as [|x a IH]; [reflexivity|].
  change (String x ((a ++ b) ++ c) = String x (a ++ (b ++ c)))%string. now f_equal.
Qed.

Lemma concat_snoc (segs : list string) (name : string) :
  segs <> [] ->
  String.concat "/" (segs ++ [name]) = String.concat "/" segs ++ String "/" name.
Proof.
  induction segs as [|seg segs IH]; [contradiction|]. intros _.
  destruct segs as [|seg' segs].
  - reflexivity.
  - change (String.concat "/" ((seg :: seg' :: segs) ++ [name]))
      with (seg ++ "/" ++ String.concat "/" ((seg' :: segs) ++ [name])).
    rewrite IH by discriminate.
    change (String.concat "/" (seg :: seg' :: segs))
      with (seg ++ "/" ++ String.concat "/" (seg' :: segs)).
    rewrite !string_app_assoc. reflexivity.
Qed.

Lemma segments_concat (segs : list string) :
  Forall (fun seg => plainName seg = true) segs ->
  segs <> [] ->
  segments (String.concat "/" segs) = segs.
Proof.
  induction segs as [|seg segs IH]; [contradiction|]. intros Hsegs _.
  inversion Hsegs as [|? ? Hseg Hrest]; subst.
  apply plainName_spec in Hseg as (_ & _ & _ & Hseg).
  destruct segs as [|seg' segs].
  - now apply segments_noSlash.
  - change (String.concat "/" (seg :: seg' :: segs))
      with (seg ++ String "/" (String.concat "/" (seg' :: segs))).
    rewrite segments_app, (segments_noSlash _ Hseg), IH by (assumption || discriminate).
    reflexivity.
Qed.

(** The segments of an absolute path made of plain names, once
    normalized, are these names. *)
Lemma normalizeString_segments allow (segs : list string) :
  Forall (fun seg => plainName seg = true) segs ->
  normalizeString allow [] (segments (String "/" (String.concat "/" segs))) = segs.
Proof.
  intros Hsegs. cbn [segments isSlash]. change (isSlash "/") with true. cbv iota.
  cbn [normalizeString]. change (String.eqb "" "") with true. cbn [orb].
  destruct segs as [|seg segs]; [reflexivity|].
  rewrite segments_concat by (assumption || discriminate).
  now rewrite normalizeString_of_plain.
Qed.

Lemma resolve_of_plain (cwd : string) (segs : list string) :
  Forall (fun seg => plainName seg = true) segs ->
  resolve cwd (String "/" (String.concat "/" segs)) = String "/" (String.concat "/" segs).
Proof.
  intros Hsegs. unfold resolve. change (isAbsolute (String "/" _)) with true. cbv iota zeta.
  now rewrite normalizeString_segments.
Qed.

Lemma list_of_string_app (a b : string) :
  list_ascii_of_string (a ++ b) = (list_ascii_of_string a ++ list_ascii_of_string b)%list.
Proof.
  induction a as [|c a IH]; [reflexivity|].
  change (list_ascii_of_string (String c a ++ b))
    with (c :: list_ascii_of_string (a ++ b)).
  now rewrite IH.
Qed.

Lemma dropWhile_all {A} (p : A -> bool) (l rest : list A) :
  forallb p l = true -> dropWhile p (l ++ rest) = dropWhile p rest.
Proof.
  induction l as [|x l IH]; [reflexivity|]. cbn. intros H.
  apply andb_true_iff in H as [-> H]. now apply IH.
Qed.

Lemma forallb_rev {A} (p : A -> bool) (l : list A) : forallb p (rev l) = forallb p l.
Proof.
  induction l as [|x l IH]; [reflexivity|]. cbn.
  rewrite forallb_app, IH. cbn. rewrite andb_true_r. apply andb_comm.
Qed.

(** The reversed characters of a plain name start with a character which
    is not a slash. *)
Lemma plainName_rev (name : string) :
  plainName name = true ->
  exists c others,
    rev (list_ascii_of_string name) = c :: others /\
    notSlash c = true /\ forallb notSlash others = true.
Proof.
  intros H. apply plainName_spec in H as (Hne & _ & _ & Hall).
  rewrite <- forallb_rev in Hall.
  destruct (rev (list_ascii_of_string name)) as [|c others] eqn:E.
  - exfalso. destruct name as [|c name]; [discriminate Hne|].
    cbn in E. now destruct (rev (list_ascii_of_string name)).
  - cbn in Hall. apply andb_true_iff in Hall as [Hc Hothers]. eauto.
Qed.

Lemma endsWithSlash_plain (a name : string) :
  plainName name = true -> endsWithSlash (a ++ name) = false.
Proof.
  intros H. destruct (plainName_rev _ H) as (c & others & E & Hc & _).
  unfold endsWithSlash. rewrite list_of_string_app, rev_app_distr, E. cbn.
  unfold notSlash in Hc. now apply negb_true_iff in Hc.
Qed.

Lemma concat_plain_nonempty (segs : list string) :
  Forall (fun seg => plainName seg = true) segs -> segs <> [] ->
  String.eqb (String.concat "/" segs) "" = false.
Proof.
  intros Hsegs Hne. destruct segs as [|seg segs]; [contradiction|].
  inversion Hsegs as [|? ? Hseg _]; subst.
  apply plainName_spec in Hseg as (Hseg & _).
  destruct seg as [|c seg]; [discriminate Hseg|].
  destruct segs; reflexivity.
Qed.

(** The parent of the path made of plain names is the path made of these
    names without the last one. *)
Lemma dirname_snoc (segs : list string) (name : string) :
  Forall (fun seg => plainName seg = true) segs ->
  plainName name = true ->
  dirname (String "/" (String.concat "/" (segs ++ [name])))
  = String "/" (String.concat "/" segs).
Proof.
  intros Hsegs Hname. destruct (plainName_rev _ Hname) as (c & others & E & Hc & Hothers).
  assert (isSlash c = false) as Hc' by (unfold notSlash in Hc; now apply negb_true_iff in Hc).
  unfold dirname. change (isSlash "/") with true. cbv iota.
  destruct segs as [|seg segs].
  - cbn [app String.concat]. rewrite E. cbn [dropWhile]. rewrite Hc'.
    cbn [dropWhile]. rewrite Hc.
    replace others with (others ++ [])%list by apply app_nil_r.
    rewrite (dropWhile_all _ _ _ Hothers). reflexivity.
  - rewrite concat_snoc by discriminate.
    rewrite list_of_string_app. cbn [list_ascii_of_string].
    rewrite rev_app_distr. cbn [rev]. rewrite <- app_assoc, E. cbn [app dropWhile].
    rewrite Hc'. cbn [dropWhile]. rewrite Hc.
    rewrite (dropWhile_all _ _ _ Hothers). cbn [dropWhile app].
    change (notSlash "/") with false. cbv iota.
    pose proof (concat_plain_nonempty (seg :: segs) Hsegs) as Hne.
    destruct (rev (list_ascii_of_string (String.concat "/" (seg :: segs)))) as [|x before] eqn:Eb.
    + exfalso. assert (String.concat "/" (seg :: segs) = "") as Hempty.
      { apply (f_equal (@rev ascii)) in Eb. rewrite rev_involutive in Eb. cbn [rev] in Eb.
        destruct (String.concat "/" (seg :: segs)); [reflexivity|discriminate]. }
      rewrite Hempty in Hne. specialize (Hne ltac:(discriminate)). discriminate.
    + rewrite <- Eb, rev_involutive, string_of_list_ascii_of_string. reflexivity.
Qed.

(** A plain name joined to a path made of plain names. *)
Lemma join_snoc (segs : list string) (name : string) :
  Forall (fun seg => plainName seg = true) segs ->
  plainName name = true ->
  join (String "/" (String.concat "/" segs)) name
  = String "/" (String.concat "/" (segs ++ [name])).
Proof.
  intros Hsegs Hname. pose proof Hname as Hspec.
  apply plainName_spec in Hspec as (Hne & _ & _ & Hslash).
  unfold join. change (String.eqb (String "/" _) "") with false. rewrite Hne. cbv iota.
  unfold normalize.
  change ((String "/" (String.concat "/" segs) ++ "/" ++ name)%string)
    with (String "/" (String.concat "/" segs ++ String "/" name)).
  change (String.eqb (String "/" _) "") with false.
  change (isAbsolute (String "/" _)) with true. cbv iota. cbn [negb].
  assert (normalizeString false [] (segments (String "/" (String.concat "/" segs ++ String "/" name)))
          = (segs ++ [name])%list) as ->.
  { cbn [segments]. change (isSlash "/") with true. cbv iota.
    rewrite segments_app, (segments_noSlash _ Hslash).
    cbn [normalizeString]. change (String.eqb "" "") with true. cbn [orb].
    destruct segs as [|seg segs].
    - cbn. change (String.eqb "" "") with true. cbn [orb].
      apply (normalizeString_of_plain false [name] []). now constructor.
    - rewrite segments_concat by (assumption || discriminate).
      apply (normalizeString_of_plain false _ []).
      apply Forall_app. split; [exact Hsegs | now constructor]. }
  rewrite concat_plain_nonempty;
    [|apply Forall_app; split; [exact Hsegs | now constructor]
     |now destruct segs].
  assert (String "/" (String.concat "/" segs ++ String "/" name)
          = (String "/" (String.concat "/" segs ++ "/") ++ name)%string) as ->.
  { change (String "/" (String.concat "/" segs ++ "/") ++ name)%string
      with (String "/" ((String.concat "/" segs ++ "/") ++ name))%string.
    now rewrite string_app_assoc. }
  now rewrite endsWithSlash_plain.
Qed.

(** In a resolved folder, a plain name is the name of an entry of the
    folder: the path of the entry is resolved, and its parent is the
    folder. *)
Lemma dirname_join (cwd folder name : string) :
  plainName name = true ->
  dirname (join (resolve cwd folder) name) = resolve cwd folder /\
  resolve cwd (join (resolve cwd folder) name) = join (resolve cwd folder) name.
Proof.
  intros Hname. destruct (resolve_plain cwd folder) as (segs & -> & Hsegs).
  rewrite join_snoc by assumption. split.
  - now apply dirname_snoc.
  - apply resolve_of_plain. apply Forall_app. split; [exact Hsegs | now constructor].
Qed.

(** *** Paths which go down *)

Lemma concat_segments (s : string) : String.concat "/" (segments s) = s.
Proof.
  induction s as [|c s IH]; [reflexivity|].
  cbn [segments]. pose proof (segments_nonempty s) as Hne.
  destruct (isSlash c) eqn:Hc.
  - apply Ascii.eqb_eq in Hc. subst c.
    destruct (segments s) as [|seg segs]; [contradiction|].
    change (String.concat "/" ("" :: seg :: segs))
      with (String "/" (String.concat "/" (seg :: segs))).
    now rewrite IH.
  - destruct (segments s) as [|seg segs]; [contradiction|].
    destruct segs as [|seg' segs].
    + cbn in IH. cbn. now rewrite IH.
    + change (String.concat "/" (String c seg :: seg' :: segs))
        with (String c (seg ++ "/" ++ String.concat "/" (seg' :: segs))).
      change (String.concat "/" (seg :: seg' :: segs))
        with (seg ++ "/" ++ String.concat "/" (seg' :: segs)) in IH.
      now rewrite IH.
Qed.

(** A relative path made of names of entries, with one slash between
    them: it goes down from the folder it is joined to. *)
Definition downwardName (name : string) : bool := forallb plainName (segments name).

Lemma plainName_downward (name : string) : plainName name = true -> downwardName name = true.
Proof.
  intros H. unfold downwardName.
  rewrite (segments_noSlash name (proj2 (proj2 (proj2 (plainName_spec name H))))).
  cbn. now rewrite H.
Qed.

Lemma concat_app (l1 l2 : list string) :
  l1 <> [] -> l2 <> [] ->
  String.concat "/" (l1 ++ l2) = String.concat "/" l1 ++ String "/" (String.concat "/" l2).
Proof.
  intros H1 H2. induction l1 as [|x l1 IH]; [contradiction|].
  destruct l1 as [|y l1].
  - destruct l2 as [|z l2]; [contradiction|]. reflexivity.
  - change (String.concat "/" ((x :: y :: l1) ++ l2))
      with (x ++ "/" ++ String.concat "/" ((y :: l1) ++ l2)).
    rewrite IH by discriminate.
    change (String.concat "/" (x :: y :: l1))
      with (x ++ "/" ++ String.concat "/" (y :: l1)).
    now rewrite !string_app_assoc.
Qed.

(** Names joined to a path made of plain names. *)
Lemma join_path (segs names : list string) :
  Forall (fun seg => plainName seg = true) segs ->
  Forall (fun seg => plainName seg = true) names ->
  names <> [] ->
  join (String "/" (String.concat "/" segs)) (String.concat "/" names)
  = String "/" (String.concat "/" (segs ++ names)).
Proof.
  intros Hsegs Hnames Hne.
  destruct (exists_last Hne) as (init & name & ->).
  apply Forall_app in Hnames as [Hinit Hname].
  inversion Hname as [|? ? Hlast _]; subst.
  unfold join. change (String.eqb (String "/" _) "") with false.
  rewrite (concat_plain_nonempty (init ++ [name]))
    by (try (apply Forall_app; split); assumption).
  cbv iota. unfold normalize.
  change ((String "/" (String.concat "/" segs) ++ "/" ++ String.concat "/" (init ++ [name]))%string)
    with (String "/" (String.concat "/" segs ++ String "/" (String.concat "/" (init ++ [name])))).
  change (String.eqb (String "/" _) "") with false.
  change (isAbsolute (String "/" _)) with true. cbv iota. cbn [negb].
  assert (normalizeString false []
            (segments (String "/" (String.concat "/" segs
                                   ++ String "/" (String.concat "/" (init ++ [name])))))
          = (segs ++ init ++ [name])%list) as ->.
  { cbn [segments]. change (isSlash "/") with true. cbv iota.
    rewrite segments_app.
    rewrite (segments_concat (init ++ [name]))
      by (try (apply Forall_app; split); assumption).
    cbn [normalizeString]. change (String.eqb "" "") with true. cbn [orb].
    destruct segs as [|seg segs].
    - cbn [segments String.concat app normalizeString].
      change (String.eqb "" "") with true. cbn [orb].
      apply (normalizeString_of_plain false _ []).
      apply Forall_app; split; assumption.
    - rewrite segments_concat by (assumption || discriminate).
      apply (normalizeString_of_plain false _ []).
      apply Forall_app; split; [assumption|]. apply Forall_app; split; assumption. }
  rewrite concat_plain_nonempty;
    [|apply Forall_app; split; [exact Hsegs | apply Forall_app; split; assumption]
     |now destruct segs, init].
  assert (endsWithSlash
            (String "/" (String.concat "/" segs
                         ++ String "/" (String.concat "/" (init ++ [name])))) = false) as ->.
  { destruct init as [|x init].
    - cbn [app String.concat].
      assert (String "/" (String.concat "/" segs ++ String "/" name)
              = (String "/" (String.concat "/" segs ++ "/") ++ name)%string) as ->.
      { change (String "/" (String.concat "/" segs ++ "/") ++ name)%string
          with (String "/" ((String.concat "/" segs ++ "/") ++ name))%string.
        now rewrite string_app_assoc. }
      now rewrite endsWithSlash_plain.
    - rewrite (concat_snoc (x :: init) name) by discriminate.
      assert (String "/" (String.concat "/" segs
                          ++ String "/" (String.concat "/" (x :: init) ++ String "/" name))
              = (String "/" (String.concat "/" segs
                             ++ String "/" (String.concat "/" (x :: init) ++ "/")) ++ name)%string)
        as ->.
      { change (String "/" ?a ++ name)%string with (String "/" (a ++ name))%string.
        f_equal. rewrite string_app_assoc. f_equal.
        change (String "/" ?a ++ name)%string with (String "/" (a ++ name))%string.
        f_equal. now rewrite string_app_assoc. }
      now rewrite endsWithSlash_plain. }
  reflexivity.
Qed.

(** In a resolved folder, a path which goes down names an entry of the
    folder, or of a folder under it: the path of the entry is resolved,
    and so is its parent, which continues the path of the folder. *)
Lemma dirname_join_downward (cwd folder name : string) :
  downwardName name = true ->
  exists segs init,
    Forall (fun seg => plainName seg = true) (segs ++ init) /\
    resolve cwd folder = String "/" (String.concat "/" segs) /\
    dirname (join (resolve cwd folder) name) = String "/" (String.concat "/" (segs ++ init)) /\
    resolve cwd (join (resolve cwd folder) name) = join (resolve cwd folder) name.
Proof.
  intros Hname. unfold downwardName in Hname.
  assert (Forall (fun seg => plainName seg = true) (segments name)) as Hnames.
  { apply Forall_forall. intros seg Hseg.
    apply (proj1 (forallb_forall _ _) Hname), list_elem_of_In, Hseg. }
  destruct (resolve_plain cwd folder) as (segs & Hres & Hsegs).
  pose proof (segments_nonempty name) as Hne.
  destruct (exists_last Hne) as (init & last & Hlast).
  exists segs, init. rewrite Hlast in Hnames.
  apply Forall_app in Hnames as [Hinit Hl]. inversion Hl as [|? ? Hlastp _]; subst.
  split; [apply Forall_app; split; assumption|]. split; [exact Hres|].
  rewrite Hres, <- (concat_segments name), Hlast.
  rewrite join_path; [|assumption|apply Forall_app; split; assumption|now destruct init].
  rewrite app_assoc. split.
  - apply dirname_snoc; [apply Forall_app; split; assumption|assumption].
  - apply resolve_of_plain. apply Forall_app; split; [|assumption].
    apply Forall_app; split; assumption.
Qed.

End Path.

Import Path.

#[global] Arguments resolve : simpl never.
#[global] Arguments dirname : simpl never.
#[global] Arguments basename : simpl never.
#[global] Arguments join : simpl never.
#[global] Arguments String.eqb : simpl never.
#[global] Arguments String.prefix : simpl never.

(** [l.map(f).filter(isExisting)]: the values [f] gives for the elements
    of [l], in order, without the missing ones. *)
Fixpoint collect {A B} (f : A -> option B) (l : list A) : list B :=
  match l with
  | [] => []
  | x :: others =>
      match f x with
      | Some y => y :: collect f others
      | None => collect f others
      end
  end.

Lemma collect_app {A B} (f : A -> option B) (l1 l2 : list A) :
  collect f (l1 ++ l2) = (collect f l1 ++ collect f l2)%list.
Proof.
  induction l1 as [|x l1 IH]; simpl; [reflexivity|].
  destruct (f x); simpl; now rewrite IH.
Qed.

(** ** Data model *)

(** Modelled from the spec: the module [messages], which is not among the
    sources.  A message carries a severity (trace, information, warning,
    error), a structured identifier and parameters. *)
Inductive Level := Trace | Information | Warning | Error.

(** Modelled from the spec: [Message] of the module [messages], built in
    the source by [new Message(level, messageId, ...parameters)]. *)
Record Message := mkMessage {
  level : Level;
  messageId : string;
  messageParameters : list string }.

(** Modelled from the spec: [ConfinodeError], which is not among the
    sources, built in the source by [new ConfinodeError(id, parameter)].
    An error is such an error, which carries its own message, or any other
    JavaScript [Error]. *)
Inductive Exn :=
| ConfinodeError (id : string) (parameter : string)
| JsError (message : string).

(** What a [throw] throws: JavaScript throws any value.  The functions of
    Node and the engine throw errors; a loader and the parser of a
    description are given by the user and can throw an error, another value
    which has a [toString()] (a string, a number, an object), with the text
    it gives, or [undefined] or [null], which have no method. *)
Inductive Throwable :=
| AnError (e : Exn)
| AValue (text : string)
| Nullish.

Coercion AnError : Exn >-> Throwable.

(** The first argument of [log] when it logs an exception. *)
Inductive ErrorType := Loading | Internal.

(** Modelled from the spec: [Loader], which is not among the sources.  A
    loader is a parsing function; it is identified by a name here. *)
Definition Loader := string.

(** What [LoaderManager.getLoaderFor] answers, and the optional second
    argument of [loadConfigFile]: [{ name?: string; loader: Loader }]. *)
Record LoaderDescription := mkLoaderDescription {
  name : option string;
  loader : Loader }.

(** Modelled from the spec: [FileDescription], which is not among the
    sources: a base name (a string, which [isFileBasename] recognises) or
    an exact file name with its loader ([description.name],
    [description.loader]). *)
Inductive FileDescription :=
| FileBasename (description : string)
| FileAndLoader (name : string) (loader : Loader).

(** What [searchFileAndLoader] returns when it finds a file. *)
Record FoundFile := mkFoundFile {
  foundFileName : string;
  foundLoaderName : option string;
  foundLoader : Loader }.

(** Modelled from the spec: the four requests of [synchronization], which
    is not among the sources, as [requestIsFolder], [requestFileExits],
    [requestFolderContent] and [requestLoadConfigFile] build them. *)
Inductive Request :=
| IsFolder (path : string)
| FileExits (path : string)
| FolderContent (path : string)
| LoadConfigFile (path : string) (loader : Loader).

(** What an observer sees of a run, in order: the messages given to the
    logger and the requests given to the driver. *)
Inductive Event :=
| Logged (m : Message)
| Requested (r : Request).

(** [ConfinodeParameters], without the logger (every message is recorded as
    an event), the custom loaders (they are inside [getLoaderFor]) and the
    mode (both drivers execute the same generator). *)
Record ConfinodeParameters := mkParameters {
  cache : bool;
  searchStop : string;
  modulePaths : list string;
  files : list FileDescription }.

(** The second argument of [ConfigDescription.parse]. *)
Record ParserContext := mkParserContext {
  keyName : string;
  contextFileName : string;
  final : bool }.

(** Modelled from the spec: [ResultFile], which is not among the sources:
    the file a result comes from and the files it extends,
    [{ fileName, extends }]. *)
#[warnings="-register-all"]
Inductive ResultFile :=
| mkResultFile (fileName : string) (extends : list ResultFile).

Section Engine.

(** The raw data a loader produces and the value [ConfigDescription.parse]
    makes of it. *)
Context {Content Parsed : Type}.

(** Modelled from the spec: [ConfinodeResult], which is not among the
    sources, built in the source by [new ConfinodeResult(result, files)]:
    the parsed configuration and the files it comes from.  Results are
    compared by reference in JavaScript: [identity] numbers the objects in
    the order of their creation, so that two results are the same object
    exactly when they are equal here. *)
Record ConfinodeResult := mkConfinodeResult {
  identity : nat;
  configuration : Parsed;
  resultFiles : ResultFile }.

(** The mutable fields of a [Confinode] instance.  A cached [undefined] is
    an entry of its own ([Some None]): the code tests [key in cache].  The
    keys are resolved paths, which are not among the properties every
    JavaScript object inherits.  [created] counts the results created so
    far. *)
Record Confinode := mkConfinode {
  folderCache : gmap string (list string);
  contentCache : gmap string (option ConfinodeResult);
  created : nat }.

(** Modelled from the spec: the directory gateway behind the requests.
    Each of its four operations answers or fails with an exception: an
    error for the three which ask the file system, whatever the loader
    throws for the fourth. *)
Record Gateway := mkGateway {
  isFolder : string -> Exn + bool;
  fileExits : string -> Exn + bool;
  folderContent : string -> Exn + list string;
  loadConfigFileContent : string -> Loader -> Throwable + option Content }.

(** ** Generators *)

Inductive Outcome (A : Type) :=
| Returned (a : A)
| Thrown (e : Throwable)
| OutOfFuel.

#[global] Arguments Returned {A} a.
#[global] Arguments Thrown {A} e.
#[global] Arguments OutOfFuel {A}.

Record Run (A : Type) := mkRun {
  outcome : Outcome A;
  instance : Confinode;
  events : list Event }.

#[global] Arguments mkRun {A} _ _ _.
#[global] Arguments outcome {A} _.
#[global] Arguments instance {A} _.
#[global] Arguments events {A} _.

(** A generator of the engine, executed by a driver on the file system [fs]
    from the instance state [this]: the run gives what the generator
    returned or threw, the state it left and, in order, the messages it
    logged and the requests it yielded. *)
Definition Gen (A : Type) : Type := Gateway -> Confinode -> Run A.

Definition ret {A} (a : A) : Gen A :=
  fun _ this => mkRun (Returned a) this [].

Definition throw {A} (e : Throwable) : Gen A :=
  fun _ this => mkRun (Thrown e) this [].

Definition outOfFuel {A} : Gen A :=
  fun _ this => mkRun OutOfFuel this [].

(** [r], after the events [ev]. *)
Definition after {A} (ev : list Event) (r : Run A) : Run A :=
  match r with
  | mkRun o this ev' => mkRun o this (ev ++ ev')
  end.

Definition bind {A B} (m : Gen A) (k : A -> Gen B) : Gen B :=
  fun fs this =>
    match m fs this with
    | mkRun (Returned a) this' ev => after ev (k a fs this')
    | mkRun (Thrown e) this' ev => mkRun (Thrown e) this' ev
    | mkRun OutOfFuel this' ev => mkRun OutOfFuel this' ev
    end.

(** [try { body } catch (e) { handler }]: what [body] did to the instance
    before it threw stays done. *)
Definition tryCatch {A} (body : Gen A) (handler : Throwable -> Gen A) : Gen A :=
  fun fs this =>
    match body fs this with
    | mkRun (Thrown e) this' ev => after ev (handler e fs this')
    | r => r
    end.

Definition getThis : Gen Confinode :=
  fun _ this => mkRun (Returned this) this [].

Definition emit (e : Event) : Gen unit :=
  fun _ this => mkRun (Returned tt) this [e].

Notation "x <- m ;; k" := (bind m (fun x => k))
  (at level 100, m at next level, right associativity).
Notation "m ;;; k" := (bind m (fun _ => k))
  (at level 100, right associativity).

(** ** The engine *)

(** [process.cwd()]. *)
Variable cwd : string.

(** [this.parameters]. *)
Variable parameters : ConfinodeParameters.

(** [this.loaderManager.getLoaderFor(modulePaths, fileName, extension?)]. *)
Variable getLoaderFor : list string -> string -> option string -> option LoaderDescription.

(** [this.description.parse(data, context)]: the parsed configuration,
    [undefined], or an exception. *)
Variable parse : Content -> ParserContext -> Throwable + option Parsed.

(** [require.resolve(name, { paths })], [None] when it throws. *)
Variable requireResolve : string -> list string -> option string.

(** [log(level, messageId, ...parameters)]. *)
Definition log (l : Level) (id : string) (ps : list string) : Gen unit :=
  emit (Logged (mkMessage l id ps)).

(** Modelled from the spec: [internalMessage] of a [ConfinodeError], which
    is not among the sources.  The errors of the engine are logged at error
    severity, with the identifier and the parameter the error was built
    with. *)
Definition internalMessage (id parameter : string) : Message :=
  mkMessage Error id [parameter].

(** The [TypeError] of [messageIdOrException.toString()] when the
    exception is [undefined] or [null]; the text of its message is the
    one of the JavaScript engine. *)
Definition toStringOfNullish : Exn :=
  JsError "Cannot read property 'toString' of undefined".

(** [log(errorType, exception)]: a [ConfinodeError] brings its own
    message; the message of any other error, or the text of a value which
    is not an error, is wrapped in a loading or an internal error.  For
    [undefined] and [null] the call of [toString] throws, and nothing is
    logged. *)
Definition logError (errorType : ErrorType) (exception : Throwable) : Gen unit :=
  let wrapped errorMessage :=
    match errorType with
    | Loading => log Error "loadingError" [errorMessage]
    | Internal => log Error "internalError" [errorMessage]
    end in
  match exception with
  | AnError (ConfinodeError id parameter) => emit (Logged (internalMessage id parameter))
  | AnError (JsError errorMessage) => wrapped errorMessage
  | AValue text => wrapped text
  | Nullish => throw toStringOfNullish
  end.

(** Modelled from the spec: the drivers of [synchronization]
    ([syncExecute], [asyncExecute]) and its four requests, which are not
    among the sources.  A driver fulfils each request the generator yields
    through the file system, at once and in order, and resumes the
    generator with the answer; a failure is a loading error the generator
    catches, so it is thrown at the [yield]. *)
Definition yieldRequest {A} (r : Request) (fulfil : Gateway -> Throwable + A) : Gen A :=
  fun fs this =>
    mkRun (match fulfil fs with inl e => Thrown e | inr a => Returned a end)
          this [Requested r].

(** The failure of a request to the file system is an error. *)
Definition failing {A} (answer : Exn + A) : Throwable + A :=
  match answer with
  | inl e => inl (AnError e)
  | inr a => inr a
  end.

(** Modelled from the spec: [requestIsFolder], is the path a directory. *)
Definition requestIsFolder (path : string) : Gen bool :=
  yieldRequest (IsFolder path) (fun fs => failing (isFolder fs path)).

(** Modelled from the spec: [requestFileExits], does the file exist. *)
Definition requestFileExits (path : string) : Gen bool :=
  yieldRequest (FileExits path) (fun fs => failing (fileExits fs path)).

(** Modelled from the spec: [requestFolderContent], the names of the
    entries of a directory, in the order of the listing. *)
Definition requestFolderContent (path : string) : Gen (list string) :=
  yieldRequest (FolderContent path) (fun fs => failing (folderContent fs path)).

(** Modelled from the spec: [requestLoadConfigFile], read and parse the
    file with the loader: the raw data, or [undefined] when the loader
    finds the file empty. *)
Definition requestLoadConfigFile (path : string) (l : Loader) : Gen (option Content) :=
  yieldRequest (LoadConfigFile path l) (fun fs => loadConfigFileContent fs path l).

(** Modelled from the spec: [syncExecute], which steps the generator to
    its end; [asyncExecute] fulfils the same requests in the same order. *)
Definition syncExecute {A} (fs : Gateway) (generator : Gen A) (this : Confinode) : Run A :=
  generator fs this.


(** [fileName.slice(n)]. *)
Definition slice (n : nat) (s : string) : string :=
  String.substring n (String.length s - n) s.

(** The candidate of one directory entry in [searchFileAndLoader]: the
    entry passes the [filter] on its prefix and has a loader. *)
Definition candidate (folderName baseName fileName : string) : option FoundFile :=
  match getLoaderFor (modulePaths parameters) fileName
          (Some (slice (String.length baseName) fileName)) with
  | Some l => Some (mkFoundFile (join folderName fileName) (name l) (loader l))
  | None => None
  end.

(** [this.folderCache[folderName] = fileNames]. *)
Definition setFolderCache (folderName : string) (fileNames : list string) : Gen unit :=
  fun _ this =>
    mkRun (Returned tt)
          (mkConfinode (<[folderName := fileNames]> (folderCache this))
                       (contentCache this) (created this)) [].

(** [this.contentCache[path] = result]. *)
Definition setContentCache (path : string) (result : option ConfinodeResult) : Gen unit :=
  fun _ this =>
    mkRun (Returned tt)
          (mkConfinode (folderCache this)
                       (<[path := result]> (contentCache this)) (created this)) [].

(** [new ConfinodeResult(result, files)]. *)
Definition newConfinodeResult (result : Parsed) (resultFiles : ResultFile)
  : Gen ConfinodeResult :=
  fun _ this =>
    mkRun (Returned (mkConfinodeResult (created this) result resultFiles))
          (mkConfinode (folderCache this) (contentCache this) (S (created this))) [].

(** The names of the entries of a folder: from the folder cache or from a
    request, whose answer is cached when the cache is on. *)
Definition folderFileNames (folderName : string) : Gen (list string) :=
  this <- getThis ;;
  match folderCache this !! folderName with
  | Some fileNames => ret fileNames
  | None =>
      fileNames <- requestFolderContent folderName ;;
      (if cache parameters then setFolderCache folderName fileNames else ret tt) ;;;
      ret fileNames
  end.

(** [searchFileAndLoader(folder, description)]. *)
Definition searchFileAndLoader (folder : string) (description : FileDescription)
  : Gen (option FoundFile) :=
  match description with
  | FileBasename description =>
      let searchedPath := join folder description in
      let folderName := dirname searchedPath in
      let baseName := basename description ++ "." in
      fileNames <- folderFileNames folderName ;;
      let loaders :=
        collect (candidate folderName baseName)
             (List.filter (fun fileName => String.prefix baseName fileName) fileNames) in
      match loaders with
      | first :: others =>
          (match others with
           | _ :: _ => log Warning "multipleFiles" [searchedPath]
           | [] => ret tt
           end) ;;;
          ret (Some first)
      | [] => ret None
      end
  | FileAndLoader name loader =>
      let fileName := join folder name in
      found <- requestFileExits fileName ;;
      if found then ret (Some (mkFoundFile fileName None loader)) else ret None
  end.

(** [loadConfigFile(fileName, loader?)]. *)
Definition loadConfigFile (fileName : string) (loader' : option LoaderDescription)
  : Gen (option ConfinodeResult) :=
  let absoluteFile := resolve cwd fileName in
  log Trace "loadingFile" [absoluteFile] ;;;
  this <- getThis ;;
  match contentCache this !! absoluteFile with
  | Some cached => log Trace "loadedFromCache" [] ;;; ret cached
  | None =>
      usedLoader <-
        match loader' with
        | Some l => ret l
        | None =>
            match getLoaderFor (modulePaths parameters) (basename absoluteFile) None with
            | Some l => ret l
            | None => throw (ConfinodeError "noLoaderFound" absoluteFile)
            end
        end ;;
      (match name usedLoader with
       | Some n => if String.eqb n "" then ret tt else log Trace "usingLoader" [n]
       | None => ret tt
       end) ;;;
      content <- requestLoadConfigFile absoluteFile (loader usedLoader) ;;
      result <-
        match content with
        | None => log Trace "emptyConfiguration" [] ;;; ret None
        | Some content =>
            match parse content (mkParserContext "" fileName true) with
            | inl e => throw e
            | inr None => ret None
            | inr (Some parsed) =>
                result <- newConfinodeResult parsed (mkResultFile fileName []) ;;
                ret (Some result)
            end
        end ;;
      (if cache parameters then setContentCache absoluteFile result else ret tt) ;;;
      ret result
  end.

(** [searchConfigUsingDescriptions(folder)], the loop over
    [this.parameters.files] being a recursion over the remaining
    descriptions. *)
Fixpoint searchConfigUsing (descriptions : list FileDescription) (folder : string)
  : Gen (option ConfinodeResult) :=
  match descriptions with
  | [] => ret None
  | fileDescription :: remaining =>
      fileAndLoader <- searchFileAndLoader folder fileDescription ;;
      match fileAndLoader with
      | Some found =>
          result <- loadConfigFile (foundFileName found)
                      (Some (mkLoaderDescription (foundLoaderName found) (foundLoader found))) ;;
          match result with
          | Some r =>
              log Information "loadedConfiguration" [foundFileName found] ;;;
              ret (Some r)
          | None => searchConfigUsing remaining folder
          end
      | None => searchConfigUsing remaining folder
      end
  end.

Definition searchConfigUsingDescriptions (folder : string) : Gen (option ConfinodeResult) :=
  searchConfigUsing (files parameters) folder.

(** [searchConfigInFolder(folder)].  The method calls itself on the parent
    folder: [self] stands for [this.searchConfigInFolder] in its body. *)
Definition searchConfigInFolderBody (self : string -> Gen (option ConfinodeResult))
  (folder : string) : Gen (option ConfinodeResult) :=
  let absoluteFolder := resolve cwd folder in
  log Trace "searchInFolder" [absoluteFolder] ;;;
  this <- getThis ;;
  match contentCache this !! absoluteFolder with
  | Some cached => log Trace "loadedFromCache" [] ;;; ret cached
  | None =>
      result <-
        tryCatch
          (result <- searchConfigUsingDescriptions absoluteFolder ;;
           match result with
           | None =>
               if negb (String.eqb absoluteFolder (searchStop parameters)) then
                 let parentFolder := dirname absoluteFolder in
                 if negb (String.eqb parentFolder absoluteFolder)
                 then self parentFolder
                 else ret result
               else ret result
           | Some _ => ret result
           end)
          (fun e => logError Loading e ;;; ret None) ;;
      (if cache parameters then setContentCache absoluteFolder result else ret tt) ;;;
      ret result
  end.

(** The recursion, [fuel] bounding the depth of the calls. *)
Fixpoint searchConfigInFolderFuel (fuel : nat) (folder : string)
  : Gen (option ConfinodeResult) :=
  match fuel with
  | 0 => outOfFuel
  | S fuel => searchConfigInFolderBody (searchConfigInFolderFuel fuel) folder
  end.

(** Each call is on a shorter resolved folder, so that the length of the
    resolved folder bounds the depth ([searchConfigInFolder_unfold] below
    gives the method its recursive equation back). *)
Definition searchConfigInFolder (folder : string) : Gen (option ConfinodeResult) :=
  searchConfigInFolderFuel (S (String.length (resolve cwd folder))) folder.

(** [searchConfig(searchStart = process.cwd())]. *)
Definition searchConfig (searchStart : option string) : Gen (option ConfinodeResult) :=
  let searchStart := default cwd searchStart in
  tryCatch
    (isDirectory <- requestIsFolder searchStart ;;
     searchConfigInFolder (if isDirectory then searchStart else dirname searchStart))
    (fun e => logError Internal e ;;; ret None).

(** [loadConfig(name, folder = process.cwd())]. *)
Definition loadConfig (name : string) : Gen (option ConfinodeResult) :=
  let fileName := requireResolve name [cwd] in
  tryCatch
    (match fileName with
     | Some fileName =>
         if String.eqb fileName "" then throw (ConfinodeError "fileNotFound" name)
         else
           found <- requestFileExits fileName ;;
           if found then loadConfigFile fileName None
           else throw (ConfinodeError "fileNotFound" name)
     | None => throw (ConfinodeError "fileNotFound" name)
     end)
    (fun e => logError Loading e ;;; ret None).

(** [syncSearch] and [syncLoad]; [asyncSearch] and [asyncLoad] execute the
    same generators. *)
Definition syncSearch (fs : Gateway) (searchStart : option string) (this : Confinode)
  : Run (option ConfinodeResult) :=
  syncExecute fs (searchConfig searchStart) this.

Definition syncLoad (fs : Gateway) (name : string) (this : Confinode)
  : Run (option ConfinodeResult) :=
  syncExecute fs (loadConfig name) this.

(** ** Runs that complete, runs that return *)

(** A generator completes when it does not run out of fuel: it returns or
    throws.  It returns when it does neither. *)
Definition Completes {A} (g : Gen A) : Prop :=
  forall fs this, outcome (g fs this) <> OutOfFuel.

Definition Returns {A} (g : Gen A) : Prop :=
  forall fs this, exists a, outcome (g fs this) = Returned a.

Lemma Returns_Completes {A} (g : Gen A) : Returns g -> Completes g.
Proof. intros H fs this. destruct (H fs this) as [a ->]. discriminate. Qed.

Lemma ret_Returns {A} (a : A) : Returns (ret a).
Proof. intros fs this. exists a. reflexivity. Qed.

Lemma throw_Completes {A} (e : Throwable) : Completes (@throw A e).
Proof. intros fs this. discriminate. Qed.

Lemma emit_Returns (e : Event) : Returns (emit e).
Proof. intros fs this. exists tt. reflexivity. Qed.

Lemma log_Returns l id ps : Returns (log l id ps).
Proof. apply emit_Returns. Qed.

(** [log] returns for an error and for a value which has a text. *)
Lemma logError_Returns t e : e <> Nullish -> Returns (logError t e).
Proof. destruct e as [[id p|msg]|text|], t; try contradiction; intros _; apply emit_Returns. Qed.

Lemma logError_Completes t e : Completes (logError t e).
Proof. destruct e as [[id p|msg]|text|], t; intros fs this; discriminate. Qed.

(** What [log] does with an exception: the message it logs, or the
    [TypeError] it throws. *)
Lemma logError_run t e fs this :
  logError t e fs this
  = match e with
    | Nullish => mkRun (Thrown toStringOfNullish) this []
    | _ => mkRun (Returned tt) this (events (logError t e fs this))
    end.
Proof. destruct e as [[id p|msg]|text|], t; reflexivity. Qed.

Lemma getThis_Returns : Returns getThis.
Proof. intros fs this. exists this. reflexivity. Qed.

Lemma setFolderCache_Returns k v : Returns (setFolderCache k v).
Proof. intros fs this. exists tt. reflexivity. Qed.

Lemma setContentCache_Returns k v : Returns (setContentCache k v).
Proof. intros fs this. exists tt. reflexivity. Qed.

Lemma newConfinodeResult_Returns p f : Returns (newConfinodeResult p f).
Proof. intros fs this. eexists. reflexivity. Qed.

Lemma yieldRequest_Completes {A} r (fulfil : Gateway -> Throwable + A) :
  Completes (yieldRequest r fulfil).
Proof. intros fs this. unfold yieldRequest. simpl. destruct (fulfil fs); discriminate. Qed.

Lemma outcome_after {A} ev (r : Run A) : outcome (after ev r) = outcome r.
Proof. destruct r; reflexivity. Qed.

Lemma instance_after {A} ev (r : Run A) : instance (after ev r) = instance r.
Proof. destruct r; reflexivity. Qed.

Lemma events_after {A} ev (r : Run A) : events (after ev r) = (ev ++ events r)%list.
Proof. destruct r; reflexivity. Qed.

Lemma bind_Completes {A B} (m : Gen A) (k : A -> Gen B) :
  Completes m -> (forall a, Completes (k a)) -> Completes (bind m k).
Proof.
  intros Hm Hk fs this. unfold bind. specialize (Hm fs this).
  destruct (m fs this) as [[a|e|] this' ev]; simpl in *; try discriminate.
  - rewrite outcome_after. apply Hk.
  - now contradict Hm.
Qed.

Lemma bind_Returns {A B} (m : Gen A) (k : A -> Gen B) :
  Returns m -> (forall a, Returns (k a)) -> Returns (bind m k).
Proof.
  intros Hm Hk fs this. unfold bind. destruct (Hm fs this) as [a Ha].
  destruct (m fs this) as [o this' ev]. simpl in Ha. subst o.
  rewrite outcome_after. apply Hk.
Qed.

Lemma tryCatch_Completes {A} (body : Gen A) (handler : Throwable -> Gen A) :
  Completes body -> (forall e, Completes (handler e)) -> Completes (tryCatch body handler).
Proof.
  intros Hb Hh fs this. unfold tryCatch. specialize (Hb fs this).
  destruct (body fs this) as [[a|e|] this' ev]; simpl in *.
  - discriminate.
  - rewrite outcome_after. apply Hh.
  - contradiction.
Qed.

(** A generator which completes and throws nothing but errors. *)
Definition ThrowsErrors {A} (g : Gen A) : Prop :=
  forall fs this,
    match outcome (g fs this) with
    | Returned _ => True
    | Thrown t => exists e : Exn, t = AnError e
    | OutOfFuel => False
    end.

Lemma ThrowsErrors_Completes {A} (g : Gen A) : ThrowsErrors g -> Completes g.
Proof. intros H fs this. specialize (H fs this). now destruct (outcome (g fs this)). Qed.

Lemma Returns_ThrowsErrors {A} (g : Gen A) : Returns g -> ThrowsErrors g.
Proof. intros H fs this. destruct (H fs this) as [a ->]. exact I. Qed.

Lemma bind_ThrowsErrors {A B} (m : Gen A) (k : A -> Gen B) :
  ThrowsErrors m -> (forall a, ThrowsErrors (k a)) -> ThrowsErrors (bind m k).
Proof.
  intros Hm Hk fs this. unfold bind. specialize (Hm fs this).
  destruct (m fs this) as [[a|e|] this' ev]; simpl in *; try exact Hm.
  rewrite outcome_after. apply Hk.
Qed.

(** A [catch] which logs the exception and returns throws nothing but the
    error of [log]. *)
Lemma tryCatch_ThrowsErrors {A} (body : Gen A) t (a : A) :
  Completes body ->
  ThrowsErrors (tryCatch body (fun e => bind (logError t e) (fun _ => ret a))).
Proof.
  intros Hb fs this. unfold tryCatch. specialize (Hb fs this).
  destruct (body fs this) as [[b|e|] this' ev]; simpl in *.
  - exact I.
  - rewrite outcome_after. unfold bind. rewrite logError_run.
    destruct e as [[id p|msg]|text|]; cbn; eauto.
  - contradiction.
Qed.


Lemma requestIsFolder_Completes path : Completes (requestIsFolder path).
Proof. apply yieldRequest_Completes. Qed.

Lemma requestFileExits_Completes path : Completes (requestFileExits path).
Proof. apply yieldRequest_Completes. Qed.

Lemma requestFolderContent_Completes path : Completes (requestFolderContent path).
Proof. apply yieldRequest_Completes. Qed.

Lemma requestLoadConfigFile_Completes path l : Completes (requestLoadConfigFile path l).
Proof. apply yieldRequest_Completes. Qed.

Create HintDb gen.

#[local] Hint Resolve Returns_Completes ret_Returns throw_Completes emit_Returns
  log_Returns logError_Completes getThis_Returns setFolderCache_Returns
  setContentCache_Returns newConfinodeResult_Returns yieldRequest_Completes
  requestIsFolder_Completes requestFileExits_Completes requestFolderContent_Completes
  requestLoadConfigFile_Completes : gen.

(** Splits a goal on a composed generator into goals on its parts. *)
Ltac gen_split :=
  repeat first
    [ progress intros
    | apply bind_Returns
    | apply bind_Completes
    | solve [auto with gen]
    | match goal with
      | |- context [match ?x with _ => _ end] => destruct x
      end ].

Lemma folderFileNames_Completes folderName : Completes (folderFileNames folderName).
Proof. unfold folderFileNames. gen_split. Qed.

Lemma searchFileAndLoader_Completes folder description :
  Completes (searchFileAndLoader folder description).
Proof.
  destruct description; unfold searchFileAndLoader.
  - apply bind_Completes; [apply folderFileNames_Completes|]. gen_split.
  - gen_split.
Qed.

Lemma loadConfigFile_Completes fileName hint : Completes (loadConfigFile fileName hint).
Proof. unfold loadConfigFile. gen_split. Qed.

Lemma searchConfigUsing_Completes descriptions folder :
  Completes (searchConfigUsing descriptions folder).
Proof.
  induction descriptions as [|d rest IH]; simpl; [auto with gen|].
  apply bind_Completes; [apply searchFileAndLoader_Completes|].
  intros [found|]; [|exact IH].
  apply bind_Completes; [apply loadConfigFile_Completes|].
  intros [r|]; [gen_split | exact IH].
Qed.

(** An invocation of [searchConfigInFolder] completes as soon as the call
    on the parent does: every exception is caught, and nothing is thrown
    but the error of [log] in the [catch]. *)
Lemma searchConfigInFolderBody_ThrowsErrors self folder :
  (dirname (resolve cwd folder) <> resolve cwd folder ->
   Completes (self (dirname (resolve cwd folder)))) ->
  ThrowsErrors (searchConfigInFolderBody self folder).
Proof.
  intros Hself. unfold searchConfigInFolderBody.
  apply bind_ThrowsErrors; [apply Returns_ThrowsErrors; auto with gen|]. intros _.
  apply bind_ThrowsErrors; [apply Returns_ThrowsErrors; auto with gen|]. intros this.
  destruct (contentCache this !! resolve cwd folder);
    [apply Returns_ThrowsErrors; gen_split|].
  apply bind_ThrowsErrors; [|intros result; apply Returns_ThrowsErrors; gen_split].
  apply tryCatch_ThrowsErrors.
  apply bind_Completes; [apply searchConfigUsing_Completes|].
  intros [r|]; [auto with gen|].
  destruct (negb (resolve cwd folder =? searchStop parameters)%string); [|auto with gen].
  destruct (dirname (resolve cwd folder) =? resolve cwd folder)%string eqn:E; simpl;
    [auto with gen|].
  apply Hself. now apply String.eqb_neq.
Qed.

Lemma searchConfigInFolderFuel_ThrowsErrors fuel folder :
  String.length (resolve cwd folder) < fuel ->
  ThrowsErrors (searchConfigInFolderFuel fuel folder).
Proof.
  revert folder. induction fuel as [|fuel IH]; intros folder Hlt; [lia|].
  simpl. apply searchConfigInFolderBody_ThrowsErrors. intros Hne.
  apply ThrowsErrors_Completes, IH. pose proof (parent_shorter cwd folder Hne). lia.
Qed.

(** [searchConfigInFolder] always ends: it returns, or throws the error
    of [log]. *)
Lemma searchConfigInFolder_terminates folder : ThrowsErrors (searchConfigInFolder folder).
Proof. apply searchConfigInFolderFuel_ThrowsErrors. lia. Qed.

(** ** The recursive equation of [searchConfigInFolder] *)

#[local] Arguments searchConfigInFolder : simpl never.
#[local] Arguments searchConfigUsingDescriptions : simpl never.

Lemma searchConfigInFolderBody_ext self1 self2 folder fs this :
  (dirname (resolve cwd folder) <> resolve cwd folder ->
   forall fs' this',
     self1 (dirname (resolve cwd folder)) fs' this'
     = self2 (dirname (resolve cwd folder)) fs' this') ->
  searchConfigInFolderBody self1 folder fs this
  = searchConfigInFolderBody self2 folder fs this.
Proof.
  unfold searchConfigInFolderBody. generalize (resolve cwd folder) as a. intros a Hself.
  unfold bind at 1 2 3. unfold bind at 4 5 6. cbn.
  destruct (contentCache this !! a); [reflexivity|].
  unfold bind, tryCatch.
  destruct (searchConfigUsingDescriptions a fs this) as [[[r|]|e|] this1 ev1];
    try reflexivity.
  destruct (negb (a =? searchStop parameters)%string); [|reflexivity].
  destruct (dirname a =? a)%string eqn:E; cbn; [reflexivity|].
  apply String.eqb_neq in E. rewrite (Hself E). reflexivity.
Qed.

Lemma searchConfigInFolderFuel_irrelevant n m folder fs this :
  String.length (resolve cwd folder) < n ->
  String.length (resolve cwd folder) < m ->
  searchConfigInFolderFuel n folder fs this = searchConfigInFolderFuel m folder fs this.
Proof.
  revert m folder fs this. induction n as [|n IH]; intros [|m] folder fs this Hn Hm; try lia.
  simpl. apply searchConfigInFolderBody_ext. intros Hne fs' this'.
  pose proof (parent_shorter cwd folder Hne) as Hlt.
  apply IH; lia.
Qed.

(** The method, as it is written: its body, calling itself. *)
Lemma searchConfigInFolder_unfold folder fs this :
  searchConfigInFolder folder fs this
  = searchConfigInFolderBody searchConfigInFolder folder fs this.
Proof.
  unfold searchConfigInFolder at 1. cbn [searchConfigInFolderFuel].
  apply searchConfigInFolderBody_ext.
  intros Hne fs' this'. unfold searchConfigInFolder.
  pose proof (parent_shorter cwd folder Hne) as Hlt.
  apply searchConfigInFolderFuel_irrelevant; lia.
Qed.

(** Induction along the cascade: from the parent folder to the folder. *)
Lemma cascade_ind (P : string -> Prop) :
  (forall folder,
      (dirname (resolve cwd folder) <> resolve cwd folder ->
       P (dirname (resolve cwd folder))) ->
      P folder) ->
  forall folder, P folder.
Proof.
  intros Hstep folder.
  remember (String.length (resolve cwd folder)) as n eqn:Hn.
  revert folder Hn. induction n as [n IH] using lt_wf_ind. intros folder ->.
  apply Hstep. intros Hne.
  apply (IH (String.length (resolve cwd (dirname (resolve cwd folder))))); [|reflexivity].
  apply (parent_shorter cwd folder Hne).
Qed.

(** [if (this.parameters.cache) this.contentCache[path] = result], as a
    function on the instance. *)
Definition storeContent (path : string) (result : option ConfinodeResult)
  (this : Confinode) : Confinode :=
  if cache parameters
  then mkConfinode (folderCache this) (<[path := result]> (contentCache this)) (created this)
  else this.

Definition searchInFolderMessage (absoluteFolder : string) : Event :=
  Logged (mkMessage Trace "searchInFolder" [absoluteFolder]).

(** The five ways through [searchConfigInFolder]. *)

(** The folder is in the cache. *)
Lemma searchConfigInFolder_cached folder fs this cached :
  contentCache this !! resolve cwd folder = Some cached ->
  searchConfigInFolder folder fs this
  = mkRun (Returned cached) this
      [searchInFolderMessage (resolve cwd folder);
       Logged (mkMessage Trace "loadedFromCache" [])].
Proof.
  intros Hc. rewrite searchConfigInFolder_unfold.
  unfold searchConfigInFolderBody, bind. simpl. rewrite Hc. reflexivity.
Qed.

(** The descriptions throw: the [catch] logs the exception, and the
    folder has no result; when nothing can be logged, the error of [log]
    leaves the method before the cache is written. *)
Lemma searchConfigInFolder_thrown folder fs this e :
  let absoluteFolder := resolve cwd folder in
  let here := searchConfigUsingDescriptions absoluteFolder fs this in
  contentCache this !! absoluteFolder = None ->
  outcome here = Thrown e ->
  searchConfigInFolder folder fs this
  = mkRun (match e with Nullish => Thrown toStringOfNullish | _ => Returned None end)
      (match e with
       | Nullish => instance here
       | _ => storeContent absoluteFolder None (instance here)
       end)
      (searchInFolderMessage absoluteFolder
         :: events here ++ events (logError Loading e fs (instance here)))%list.
Proof.
  cbv zeta. rewrite searchConfigInFolder_unfold. unfold searchConfigInFolderBody.
  generalize (resolve cwd folder) as a. intros a Hc Ho.
  unfold bind, tryCatch, storeContent. cbn. rewrite Hc.
  destruct (searchConfigUsingDescriptions a fs this) as [o this1 ev1].
  cbn in Ho. subst o. cbn.
  destruct e as [[id p|msg]|text|]; cbn; destruct (cache parameters); cbn;
    rewrite ?app_nil_r; reflexivity.
Qed.

(** The descriptions give a result. *)
Lemma searchConfigInFolder_found folder fs this r :
  let absoluteFolder := resolve cwd folder in
  let here := searchConfigUsingDescriptions absoluteFolder fs this in
  contentCache this !! absoluteFolder = None ->
  outcome here = Returned (Some r) ->
  searchConfigInFolder folder fs this
  = mkRun (Returned (Some r)) (storeContent absoluteFolder (Some r) (instance here))
      (searchInFolderMessage absoluteFolder :: events here).
Proof.
  cbv zeta. rewrite searchConfigInFolder_unfold. unfold searchConfigInFolderBody.
  generalize (resolve cwd folder) as a. intros a Hc Ho.
  unfold bind, tryCatch, storeContent. cbn. rewrite Hc.
  destruct (searchConfigUsingDescriptions a fs this) as [o this1 ev1].
  cbn in Ho. subst o. cbn.
  destruct (cache parameters); cbn; rewrite ?app_nil_r; reflexivity.
Qed.

(** The descriptions give nothing, and the folder is the stop folder or
    its own parent. *)
Lemma searchConfigInFolder_last folder fs this :
  let absoluteFolder := resolve cwd folder in
  let here := searchConfigUsingDescriptions absoluteFolder fs this in
  contentCache this !! absoluteFolder = None ->
  outcome here = Returned None ->
  absoluteFolder = searchStop parameters \/ dirname absoluteFolder = absoluteFolder ->
  searchConfigInFolder folder fs this
  = mkRun (Returned None) (storeContent absoluteFolder None (instance here))
      (searchInFolderMessage absoluteFolder :: events here).
Proof.
  cbv zeta. rewrite searchConfigInFolder_unfold. unfold searchConfigInFolderBody.
  generalize (resolve cwd folder) as a. intros a Hc Ho Hlast.
  unfold bind, tryCatch, storeContent. cbn. rewrite Hc.
  destruct (searchConfigUsingDescriptions a fs this) as [o this1 ev1].
  cbn in Ho. subst o. cbn.
  assert (negb (a =? searchStop parameters)%string
          && negb (dirname a =? a)%string = false) as Hb.
  { destruct Hlast as [<-| ->]; rewrite String.eqb_refl; cbn;
      [reflexivity | apply andb_false_r]. }
  destruct (negb (a =? searchStop parameters)%string);
    [cbn in Hb; rewrite Hb|]; cbn;
    destruct (cache parameters); cbn; rewrite ?app_nil_r; reflexivity.
Qed.

(** What the [catch] of an invocation logs for the run of the call on
    the parent folder: the error this call threw, if it threw. *)
Definition caught (fs : Gateway) (above : Run (option ConfinodeResult)) : list Event :=
  match outcome above with
  | Thrown e => events (logError Loading e fs (instance above))
  | _ => []
  end.

(** The descriptions give nothing, and the search goes on in the parent
    folder: the result is the one of the parent folder, or nothing when
    the call on the parent folder threw. *)
Lemma searchConfigInFolder_parent folder fs this :
  let absoluteFolder := resolve cwd folder in
  let here := searchConfigUsingDescriptions absoluteFolder fs this in
  let above := searchConfigInFolder (dirname absoluteFolder) fs (instance here) in
  contentCache this !! absoluteFolder = None ->
  outcome here = Returned None ->
  absoluteFolder <> searchStop parameters ->
  dirname absoluteFolder <> absoluteFolder ->
  exists result,
    (outcome above = Returned result
     \/ result = None /\ exists e : Exn, outcome above = Thrown e) /\
    searchConfigInFolder folder fs this
    = mkRun (Returned result) (storeContent absoluteFolder result (instance above))
        (searchInFolderMessage absoluteFolder
           :: events here ++ events above ++ caught fs above)%list.
Proof.
  cbv zeta. intros Hc Ho Hstop Hroot.
  pose proof (searchConfigInFolder_terminates (dirname (resolve cwd folder)) fs
                (instance (searchConfigUsingDescriptions (resolve cwd folder) fs this)))
    as Hres.
  rewrite (searchConfigInFolder_unfold folder fs this).
  unfold searchConfigInFolderBody, caught.
  revert Hc Ho Hstop Hroot Hres. generalize (resolve cwd folder) as a.
  intros a Hc Ho Hstop Hroot Hres.
  unfold bind, tryCatch, storeContent. cbn. rewrite Hc.
  destruct (searchConfigUsingDescriptions a fs this) as [o this1 ev1].
  cbn in Ho, Hres |- *. subst o. cbn.
  apply String.eqb_neq in Hstop, Hroot. rewrite Hstop, Hroot. cbn.
  destruct (searchConfigInFolder (dirname a) fs this1) as [[result|t|] this2 ev2];
    cbn in Hres |- *; [|destruct Hres as [e ->]|contradiction].
  - exists result. split; [now left|].
    destruct (cache parameters); cbn; rewrite ?app_nil_r; reflexivity.
  - exists None. split; [right; eauto|].
    destruct e as [id p|msg]; cbn; destruct (cache parameters); cbn;
      rewrite ?app_nil_r, <- ?app_assoc; reflexivity.
Qed.

(** ** What a run shows *)

(** The folders of the cascade: each invocation of [searchConfigInFolder]
    logs its resolved folder first ([searchInFolder], at trace level). *)
Definition visitedFolder (e : Event) : option string :=
  match e with
  | Logged (mkMessage Trace id [absoluteFolder]) =>
      if String.eqb id "searchInFolder" then Some absoluteFolder else None
  | _ => None
  end.

Definition visitedFolders (ev : list Event) : list string := collect visitedFolder ev.

(** The requests of a run, in order. *)
Definition request (e : Event) : option Request :=
  match e with
  | Requested r => Some r
  | Logged _ => None
  end.

Definition requests (ev : list Event) : list Request := collect request ev.

(** The messages of a run, in order. *)
Definition message (e : Event) : option Message :=
  match e with
  | Logged m => Some m
  | Requested _ => None
  end.

Definition messages (ev : list Event) : list Message := collect message ev.

Lemma visitedFolders_app ev1 ev2 :
  visitedFolders (ev1 ++ ev2) = (visitedFolders ev1 ++ visitedFolders ev2)%list.
Proof. apply collect_app. Qed.

Lemma visitedFolders_searchInFolder a ev :
  visitedFolders (searchInFolderMessage a :: ev) = a :: visitedFolders ev.
Proof. reflexivity. Qed.

Lemma logError_visits t e fs this : visitedFolders (events (logError t e fs this)) = [].
Proof. destruct e as [[id p|msg]|text|], t; reflexivity. Qed.

Lemma caught_visits fs above : visitedFolders (caught fs above) = [].
Proof. unfold caught. destruct (outcome above); [reflexivity|apply logError_visits|reflexivity]. Qed.

Lemma caught_returned fs above result :
  outcome above = Returned result -> caught fs above = [].
Proof. unfold caught. now intros ->. Qed.

(** Every event of every run of [g] satisfies [P]. *)
Definition Emits {A} (P : Event -> Prop) (g : Gen A) : Prop :=
  forall fs this, Forall P (events (g fs this)).

Section Emits.

Variable P : Event -> Prop.

Lemma ret_Emits {A} (a : A) : Emits P (ret a).
Proof. intros fs this. constructor. Qed.

Lemma throw_Emits {A} e : Emits P (@throw A e).
Proof. intros fs this. constructor. Qed.

Lemma getThis_Emits : Emits P getThis.
Proof. intros fs this. constructor. Qed.

Lemma setFolderCache_Emits k v : Emits P (setFolderCache k v).
Proof. intros fs this. constructor. Qed.

Lemma setContentCache_Emits k v : Emits P (setContentCache k v).
Proof. intros fs this. constructor. Qed.

Lemma newConfinodeResult_Emits p f : Emits P (newConfinodeResult p f).
Proof. intros fs this. constructor. Qed.

Lemma emit_Emits e : P e -> Emits P (emit e).
Proof. intros H fs this. repeat constructor. exact H. Qed.

Lemma yieldRequest_Emits {A} r (fulfil : Gateway -> Throwable + A) :
  P (Requested r) -> Emits P (yieldRequest r fulfil).
Proof. intros H fs this. repeat constructor. exact H. Qed.

Lemma bind_Emits {A B} (m : Gen A) (k : A -> Gen B) :
  Emits P m -> (forall a, Emits P (k a)) -> Emits P (bind m k).
Proof.
  intros Hm Hk fs this. unfold bind. specialize (Hm fs this).
  destruct (m fs this) as [[a|e|] this' ev]; simpl in *; try exact Hm.
  rewrite events_after. apply Forall_app. split; [exact Hm | apply Hk].
Qed.

Lemma tryCatch_Emits {A} (body : Gen A) (handler : Throwable -> Gen A) :
  Emits P body -> (forall e, Emits P (handler e)) -> Emits P (tryCatch body handler).
Proof.
  intros Hb Hh fs this. unfold tryCatch. specialize (Hb fs this).
  destruct (body fs this) as [[a|e|] this' ev]; simpl in *; try exact Hb.
  rewrite events_after. apply Forall_app. split; [exact Hb | apply Hh].
Qed.

(** The events of the search in one folder are requests and messages
    other than the [searchInFolder] trace and the errors. *)
Hypothesis P_request : forall r, P (Requested r).
Hypothesis P_trace : forall id ps,
  id <> "searchInFolder" -> P (Logged (mkMessage Trace id ps)).
Hypothesis P_warning : forall id ps, P (Logged (mkMessage Warning id ps)).
Hypothesis P_information : forall id ps, P (Logged (mkMessage Information id ps)).

Ltac emits_split :=
  repeat first
    [ progress intros
    | apply bind_Emits
    | apply ret_Emits
    | apply throw_Emits
    | apply getThis_Emits
    | apply setFolderCache_Emits
    | apply setContentCache_Emits
    | apply newConfinodeResult_Emits
    | apply yieldRequest_Emits; apply P_request
    | apply emit_Emits; first [apply P_warning | apply P_information
                              | apply P_trace; discriminate]
    | match goal with
      | |- context [match ?x with _ => _ end] => destruct x
      end ].

Lemma searchFileAndLoader_Emits folder description :
  Emits P (searchFileAndLoader folder description).
Proof.
  destruct description;
    unfold searchFileAndLoader, folderFileNames, requestFolderContent, requestFileExits, log;
    emits_split.
Qed.

Lemma loadConfigFile_Emits fileName hint : Emits P (loadConfigFile fileName hint).
Proof. unfold loadConfigFile, requestLoadConfigFile, log. emits_split. Qed.

Lemma searchConfigUsing_Emits descriptions folder :
  Emits P (searchConfigUsing descriptions folder).
Proof.
  induction descriptions as [|d rest IH]; simpl; [apply ret_Emits|].
  apply bind_Emits; [apply searchFileAndLoader_Emits|].
  intros [found|]; [|exact IH].
  apply bind_Emits; [apply loadConfigFile_Emits|].
  intros [r|]; [unfold log; emits_split | exact IH].
Qed.

End Emits.

(** The search in one folder logs no [searchInFolder]. *)
Lemma searchConfigUsingDescriptions_visits folder fs this :
  visitedFolders (events (searchConfigUsingDescriptions folder fs this)) = [].
Proof.
  pose proof (searchConfigUsing_Emits (fun e => visitedFolder e = None)) as H.
  unfold searchConfigUsingDescriptions.
  assert (forall ev, Forall (fun e => visitedFolder e = None) ev -> visitedFolders ev = [])
    as Hnil.
  { induction 1 as [|e ev He _ IH]; [reflexivity|].
    unfold visitedFolders in *. simpl. rewrite He. exact IH. }
  apply Hnil, H; try reflexivity.
  intros id ps Hid. simpl. destruct ps as [|p [|q ps]]; try reflexivity.
  apply String.eqb_neq in Hid. now rewrite Hid.
Qed.

(** ** The search, from its entry point *)

(** The cascade inside the [try] of [searchConfig]: the error it throws
    is logged as an internal error. *)
Definition searchConfigFrom (folder : string) : Gen (option ConfinodeResult) :=
  tryCatch (searchConfigInFolder folder) (fun e => logError Internal e ;;; ret None).

Lemma searchConfigFrom_run folder fs this :
  searchConfigFrom folder fs this
  = match outcome (searchConfigInFolder folder fs this) with
    | Thrown e =>
        mkRun (Returned None) (instance (searchConfigInFolder folder fs this))
          (events (searchConfigInFolder folder fs this)
             ++ events (logError Internal e fs (instance (searchConfigInFolder folder fs this))))
    | _ => searchConfigInFolder folder fs this
    end.
Proof.
  unfold searchConfigFrom, tryCatch.
  pose proof (searchConfigInFolder_terminates folder fs this) as H.
  destruct (searchConfigInFolder folder fs this) as [[result|t|] this' ev];
    cbn in H |- *; [reflexivity| |contradiction].
  destruct H as [e ->]. unfold bind. rewrite logError_run. cbn.
  now rewrite app_nil_r.
Qed.



Lemma searchConfigFrom_instance folder fs this :
  instance (searchConfigFrom folder fs this) = instance (searchConfigInFolder folder fs this).
Proof.
  rewrite searchConfigFrom_run.
  now destruct (outcome (searchConfigInFolder folder fs this)).
Qed.

Lemma searchConfigFrom_visits folder fs this :
  visitedFolders (events (searchConfigFrom folder fs this))
  = visitedFolders (events (searchConfigInFolder folder fs this)).
Proof.
  rewrite searchConfigFrom_run.
  destruct (outcome (searchConfigInFolder folder fs this)); try reflexivity.
  cbn [events]. now rewrite visitedFolders_app, logError_visits, app_nil_r.
Qed.

(** [searchConfig] asks whether the start is a folder and runs the cascade;
    the internal errors are the failure of this first request and the
    error of [log] in the start folder. *)
Lemma syncSearch_run fs searchStart this :
  let start := default cwd searchStart in
  match isFolder fs start with
  | inl e =>
      syncSearch fs searchStart this
      = mkRun (Returned None) this
          (Requested (IsFolder start) :: events (logError Internal e fs this))
  | inr isDirectory =>
      syncSearch fs searchStart this
      = after [Requested (IsFolder start)]
          (searchConfigFrom (if isDirectory then start else dirname start) fs this)
  end.
Proof.
  cbv zeta. unfold syncSearch, syncExecute, searchConfig, searchConfigFrom, tryCatch, bind,
    requestIsFolder, yieldRequest.
  destruct (isFolder fs (default cwd searchStart)) as [e|b]; cbn.
  - destruct e; reflexivity.
  - destruct (searchConfigInFolder _ fs this) as [[result|t|] this' ev]; cbn;
      try reflexivity.
    destruct (logError Internal t fs this') as [[u|t'|] this'' ev']; reflexivity.
Qed.

(** ** What is thrown *)









(** ** The folders above a folder *)

(** The folders strictly above a resolved folder, nearest first, as the
    cascade computes them: the resolved [dirname], until a folder is its
    own parent.  The chain is no longer than the path. *)
Fixpoint ancestorsFuel (fuel : nat) (absoluteFolder : string) : list string :=
  match fuel with
  | 0 => []
  | S fuel =>
      let parentFolder := dirname absoluteFolder in
      if String.eqb parentFolder absoluteFolder then []
      else resolve cwd parentFolder :: ancestorsFuel fuel (resolve cwd parentFolder)
  end.

Definition ancestors (absoluteFolder : string) : list string :=
  ancestorsFuel (String.length absoluteFolder) absoluteFolder.

Lemma resolve_length_pos folder : 0 < String.length (resolve cwd folder).
Proof. unfold resolve. cbn. lia. Qed.

Lemma ancestorsFuel_irrelevant n m folder :
  String.length (resolve cwd folder) <= n ->
  String.length (resolve cwd folder) <= m ->
  ancestorsFuel n (resolve cwd folder) = ancestorsFuel m (resolve cwd folder).
Proof.
  revert m folder. induction n as [|n IH]; intros m folder Hn Hm;
    pose proof (resolve_length_pos folder); [lia|].
  destruct m as [|m]; [lia|]. cbn [ancestorsFuel].
  destruct (String.eqb_spec (dirname (resolve cwd folder)) (resolve cwd folder)) as [|Hne];
    [reflexivity|].
  pose proof (parent_shorter cwd folder Hne).
  f_equal. apply IH; lia.
Qed.

Lemma ancestors_unfold folder :
  ancestors (resolve cwd folder)
  = if String.eqb (dirname (resolve cwd folder)) (resolve cwd folder) then []
    else resolve cwd (dirname (resolve cwd folder))
           :: ancestors (resolve cwd (dirname (resolve cwd folder))).
Proof.
  unfold ancestors at 1. pose proof (resolve_length_pos folder) as Hpos.
  destruct (String.length (resolve cwd folder)) as [|n] eqn:Hn; [lia|].
  cbn [ancestorsFuel].
  destruct (String.eqb_spec (dirname (resolve cwd folder)) (resolve cwd folder)) as [|Hne];
    [reflexivity|].
  pose proof (parent_shorter cwd folder Hne).
  f_equal. apply ancestorsFuel_irrelevant; lia.
Qed.

(** A folder above is a resolved folder with a shorter path. *)
Lemma ancestors_shorter folder d :
  d ∈ ancestors (resolve cwd folder) ->
  String.length d < String.length (resolve cwd folder) /\ exists x, d = resolve cwd x.
Proof.
  revert d. induction folder as [folder IH] using cascade_ind. intros d.
  rewrite ancestors_unfold.
  destruct (String.eqb_spec (dirname (resolve cwd folder)) (resolve cwd folder)) as [|Hne].
  - intros Hd. inversion Hd.
  - pose proof (parent_shorter cwd folder Hne).
    intros [->|Hd]%elem_of_cons.
    + split; [lia | eauto].
    + destruct (IH Hne d Hd) as [Hlt Hx]. split; [lia | exact Hx].
Qed.

Lemma ancestors_irreflexive folder : resolve cwd folder ∉ ancestors (resolve cwd folder).
Proof. intros H. apply ancestors_shorter in H as [H _]. lia. Qed.

(** A folder is not above a folder which is above it. *)
Lemma ancestors_asymmetric folder d :
  d ∈ ancestors (resolve cwd folder) -> resolve cwd folder ∉ ancestors d.
Proof.
  intros Hd Ha. apply ancestors_shorter in Hd as [Hlt [x ->]].
  apply ancestors_shorter in Ha as [Hlt' _]. lia.
Qed.

(** The cascade stays on the start folder and the folders above it, and
    does not go above the stop folder when the stop folder is among them. *)
Lemma visited_below_stop folder :
  searchStop parameters = resolve cwd folder
  \/ searchStop parameters ∈ ancestors (resolve cwd folder) ->
  forall fs this d,
    d ∈ visitedFolders (events (searchConfigInFolder folder fs this)) ->
    d ∉ ancestors (searchStop parameters).
Proof.
  induction folder as [folder IH] using cascade_ind. intros Hstop fs this d.
  assert (resolve cwd folder ∉ ancestors (searchStop parameters)) as Hhere.
  { destruct Hstop as [->|Hin]; [apply ancestors_irreflexive|].
    now apply ancestors_asymmetric. }
  assert (d ∈ [resolve cwd folder] -> d ∉ ancestors (searchStop parameters)) as Hone.
  { intros Hd. apply list_elem_of_singleton in Hd. now subst d. }
  destruct (contentCache this !! resolve cwd folder) as [cached|] eqn:Hc.
  { rewrite (searchConfigInFolder_cached _ _ _ _ Hc). exact Hone. }
  pose proof (searchConfigUsing_Completes (files parameters) (resolve cwd folder) fs this)
    as Hcomp. fold (searchConfigUsingDescriptions (resolve cwd folder)) in Hcomp.
  destruct (outcome (searchConfigUsingDescriptions (resolve cwd folder) fs this))
    as [[r|]|e|] eqn:Ho; [| | |contradiction].
  - rewrite (searchConfigInFolder_found _ _ _ _ Hc Ho). cbn [events].
    rewrite visitedFolders_searchInFolder, searchConfigUsingDescriptions_visits. exact Hone.
  - destruct (String.eqb_spec (resolve cwd folder) (searchStop parameters)) as [Heq|Hneq];
      [|destruct (String.eqb_spec (dirname (resolve cwd folder)) (resolve cwd folder))
          as [Hroot|Hroot]].
    1, 2: rewrite (searchConfigInFolder_last _ _ _ Hc Ho) by auto; cbn [events];
      rewrite visitedFolders_searchInFolder, searchConfigUsingDescriptions_visits;
      exact Hone.
    destruct (searchConfigInFolder_parent _ _ _ Hc Ho Hneq Hroot) as (result & Hres & ->).
    cbn [events].
    rewrite visitedFolders_searchInFolder, !visitedFolders_app,
      searchConfigUsingDescriptions_visits, caught_visits, app_nil_r. cbn [app].
    intros [->|Hd]%elem_of_cons; [exact Hhere|].
    refine (IH Hroot _ fs _ d Hd).
    destruct Hstop as [Heq|Hin]; [congruence|].
    rewrite ancestors_unfold in Hin. apply String.eqb_neq in Hroot. rewrite Hroot in Hin.
    apply elem_of_cons in Hin. exact Hin.
  - rewrite (searchConfigInFolder_thrown _ _ _ _ Hc Ho). cbn [events].
    rewrite visitedFolders_searchInFolder, visitedFolders_app,
      searchConfigUsingDescriptions_visits, logError_visits. exact Hone.
Qed.

(** ** Errors *)

Definition isError (e : Event) : bool :=
  match e with
  | Logged (mkMessage Error _ _) => true
  | _ => false
  end.

(** An error was logged. *)
Definition loggedError (ev : list Event) : bool := existsb isError ev.

Lemma searchConfigUsingDescriptions_no_error folder fs this :
  loggedError (events (searchConfigUsingDescriptions folder fs this)) = false.
Proof.
  pose proof (searchConfigUsing_Emits (fun e => isError e = false)) as H.
  unfold searchConfigUsingDescriptions.
  assert (forall ev, Forall (fun e => isError e = false) ev -> loggedError ev = false)
    as Hnone.
  { induction 1 as [|e ev He _ IH]; [reflexivity|]. cbn. now rewrite He. }
  apply Hnone, H; reflexivity.
Qed.

(** A search which logged an error found nothing. *)
Lemma searchConfigInFolder_error folder fs this :
  loggedError (events (searchConfigInFolder folder fs this)) = true ->
  outcome (searchConfigInFolder folder fs this) = Returned None.
Proof.
  revert fs this. induction folder as [folder IH] using cascade_ind. intros fs this.
  destruct (contentCache this !! resolve cwd folder) as [cached|] eqn:Hc.
  { rewrite (searchConfigInFolder_cached _ _ _ _ Hc). discriminate. }
  pose proof (searchConfigUsing_Completes (files parameters) (resolve cwd folder) fs this)
    as Hcomp. fold (searchConfigUsingDescriptions (resolve cwd folder)) in Hcomp.
  pose proof (searchConfigUsingDescriptions_no_error (resolve cwd folder) fs this) as Hquiet.
  destruct (outcome (searchConfigUsingDescriptions (resolve cwd folder) fs this))
    as [[r|]|e|] eqn:Ho; [| | |contradiction].
  - rewrite (searchConfigInFolder_found _ _ _ _ Hc Ho). cbn [events outcome].
    change (loggedError (?e :: ?ev)) with (isError e || loggedError ev).
    rewrite Hquiet. discriminate.
  - destruct (String.eqb_spec (resolve cwd folder) (searchStop parameters)) as [Heq|Hneq];
      [|destruct (String.eqb_spec (dirname (resolve cwd folder)) (resolve cwd folder))
          as [Hroot|Hroot]].
    1, 2: rewrite (searchConfigInFolder_last _ _ _ Hc Ho) by auto; reflexivity.
    destruct (searchConfigInFolder_parent _ _ _ Hc Ho Hneq Hroot) as (result & Hres & ->).
    cbn [events outcome]. destruct Hres as [Hres|[-> _]]; [|reflexivity].
    rewrite (caught_returned _ _ _ Hres), app_nil_r.
    change (loggedError (?e :: ?ev)) with (isError e || loggedError ev).
    unfold loggedError at 1. rewrite existsb_app. fold (loggedError (events
      (searchConfigUsingDescriptions (resolve cwd folder) fs this))). rewrite Hquiet.
    cbn [isError searchInFolderMessage orb]. intros Herr.
    apply IH in Herr; [|exact Hroot]. congruence.
  - rewrite (searchConfigInFolder_thrown _ _ _ _ Hc Ho).
    destruct e as [e|text|]; [reflexivity..|]. cbn [events outcome].
    change (loggedError (?e :: ?ev)) with (isError e || loggedError ev).
    unfold loggedError at 1. rewrite existsb_app. fold (loggedError (events
      (searchConfigUsingDescriptions (resolve cwd folder) fs this))). rewrite Hquiet.
    discriminate.
Qed.

Lemma loggedError_app ev1 ev2 :
  loggedError (ev1 ++ ev2) = loggedError ev1 || loggedError ev2.
Proof. apply existsb_app. Qed.

(** A search which logged an error found nothing. *)
Lemma searchConfigFrom_error folder fs this :
  loggedError (events (searchConfigFrom folder fs this)) = true ->
  outcome (searchConfigFrom folder fs this) = Returned None.
Proof.
  rewrite searchConfigFrom_run.
  pose proof (searchConfigInFolder_error folder fs this) as H.
  destruct (outcome (searchConfigInFolder folder fs this)) as [result|e|] eqn:Ho;
    [rewrite Ho; exact H|reflexivity|rewrite Ho; exact H].
Qed.

(** ** The search and the load, from outside *)

(** The folder in which the cascade of a search starts, when the first
    request is answered. *)
Definition searchRoot (fs : Gateway) (searchStart : option string) : option string :=
  let start := default cwd searchStart in
  match isFolder fs start with
  | inr isDirectory => Some (resolve cwd (if isDirectory then start else dirname start))
  | inl _ => None
  end.


Lemma loadConfig_Completes name : Completes (loadConfig name).
Proof.
  unfold loadConfig. apply tryCatch_Completes; [|gen_split].
  destruct (requireResolve name [cwd]) as [fileName|]; [|auto with gen].
  destruct (fileName =? "")%string; [auto with gen|].
  apply bind_Completes; [auto with gen|].
  intros [|]; [apply loadConfigFile_Completes | auto with gen].
Qed.






(** *** Matching a base name *)

(** The names of the entries of a folder, as [searchFileAndLoader] gets
    them: from the folder cache, else from the file system. *)
Definition listing (fs : Gateway) (this : Confinode) (folderName : string)
  : option (list string) :=
  match folderCache this !! folderName with
  | Some fileNames => Some fileNames
  | None =>
      match folderContent fs folderName with
      | inr fileNames => Some fileNames
      | inl _ => None
      end
  end.

(** An entry matches when its name starts with the base name and a dot,
    and the rest of its name has a loader. *)
Definition matchingEntry (folderName baseName fileName : string) : option FoundFile :=
  if String.prefix baseName fileName then candidate folderName baseName fileName else None.

(** The first entry which matches, in the order of the listing. *)
Fixpoint firstMatch (folderName baseName : string) (fileNames : list string)
  : option FoundFile :=
  match fileNames with
  | [] => None
  | fileName :: others =>
      match matchingEntry folderName baseName fileName with
      | Some found => Some found
      | None => firstMatch folderName baseName others
      end
  end.

(** The number of entries which match. *)
Fixpoint countMatches (folderName baseName : string) (fileNames : list string) : nat :=
  match fileNames with
  | [] => 0
  | fileName :: others =>
      match matchingEntry folderName baseName fileName with
      | Some _ => S (countMatches folderName baseName others)
      | None => countMatches folderName baseName others
      end
  end.

Lemma loaders_matching folderName baseName fileNames :
  collect (candidate folderName baseName)
       (List.filter (fun fileName => String.prefix baseName fileName) fileNames)
  = collect (matchingEntry folderName baseName) fileNames.
Proof.
  induction fileNames as [|fileName others IH]; [reflexivity|].
  simpl. unfold matchingEntry at 1.
  destruct (String.prefix baseName fileName); simpl; now rewrite IH.
Qed.

Lemma firstMatch_head folderName baseName fileNames :
  firstMatch folderName baseName fileNames
  = head (collect (matchingEntry folderName baseName) fileNames).
Proof.
  induction fileNames as [|fileName others IH]; [reflexivity|].
  simpl.
  destruct (matchingEntry folderName baseName fileName); [reflexivity | exact IH].
Qed.

Lemma countMatches_length folderName baseName fileNames :
  countMatches folderName baseName fileNames
  = List.length (collect (matchingEntry folderName baseName) fileNames).
Proof.
  induction fileNames as [|fileName others IH]; [reflexivity|].
  simpl.
  destruct (matchingEntry folderName baseName fileName); simpl; now rewrite IH.
Qed.

Lemma firstMatch_first folderName baseName fileNames found :
  firstMatch folderName baseName fileNames = Some found ->
  exists before fileName others,
    fileNames = (before ++ fileName :: others)%list /\
    Forall (fun n => matchingEntry folderName baseName n = None) before /\
    matchingEntry folderName baseName fileName = Some found.
Proof.
  induction fileNames as [|fileName others IH]; [discriminate|].
  cbn [firstMatch].
  destruct (matchingEntry folderName baseName fileName) as [f|] eqn:E.
  - intros [= ->]. exists [], fileName, others. auto.
  - intros H. destruct (IH H) as (before & n & rest & -> & Hb & Hn).
    exists (fileName :: before), n, rest. auto.
Qed.

(** C6. For a base name, the entries of the folder whose name starts with
    the base name and a dot and which have a loader are the matches.  The
    first match in the order of the listing is picked; a warning is logged
    exactly when more than one entry matches; with no match the
    description fails in this folder. *)
Theorem basename_picks_first_match (folder description : string) (fs : Gateway)
  (this : Confinode) (fileNames : list string) :
  let searchedPath := join folder description in
  let folderName := dirname searchedPath in
  let baseName := (basename description ++ ".")%string in
  let matching := countMatches folderName baseName fileNames in
  let r := searchFileAndLoader folder (FileBasename description) fs this in
  listing fs this folderName = Some fileNames ->
  outcome r = Returned (firstMatch folderName baseName fileNames) /\
  messages (events r)
  = (if Nat.ltb 1 matching then [mkMessage Warning "multipleFiles" [searchedPath]] else []) /\
  (matching = 0 -> outcome r = Returned None) /\
  (forall found,
     outcome r = Returned (Some found) ->
     exists before fileName others,
       fileNames = (before ++ fileName :: others)%list /\
       Forall (fun n => matchingEntry folderName baseName n = None) before /\
       matchingEntry folderName baseName fileName = Some found).
Proof.
  intros searchedPath folderName baseName matching r Hlist.
  assert (outcome r = Returned (firstMatch folderName baseName fileNames) /\
          messages (events r)
          = (if Nat.ltb 1 matching
             then [mkMessage Warning "multipleFiles" [searchedPath]] else [])) as [Ho Hm].
  { subst r matching. rewrite firstMatch_head, countMatches_length.
    unfold searchFileAndLoader. fold searchedPath folderName baseName.
    unfold listing in Hlist.
    unfold folderFileNames, bind, getThis, requestFolderContent, yieldRequest. cbn.
    destruct (folderCache this !! folderName) as [cached|].
    - injection Hlist as ->. cbn. rewrite !loaders_matching.
      destruct (collect (matchingEntry folderName baseName) fileNames)
        as [|first [|second others]]; cbn; auto.
    - destruct (folderContent fs folderName) as [e|names]; [discriminate|].
      injection Hlist as ->. destruct (cache parameters); cbn; rewrite !loaders_matching;
      destruct (collect (matchingEntry folderName baseName) fileNames)
        as [|first [|second others]]; cbn; auto. }
  split; [exact Ho|]. split; [exact Hm|]. split.
  - intros Hzero. rewrite Ho. subst matching.
    rewrite firstMatch_head. rewrite countMatches_length in Hzero.
    destruct (collect (matchingEntry folderName baseName) fileNames); [reflexivity|discriminate].
  - intros found Hfound. rewrite Ho in Hfound. injection Hfound as Hfound.
    now apply firstMatch_first.
Qed.

(** *** Loading a file *)

(** The loader [loadConfigFile] uses: the one it is given, else the one
    of the loader manager for the name of the file. *)
Definition usedLoaderFor (hint : option LoaderDescription) (absoluteFile : string)
  : option LoaderDescription :=
  match hint with
  | Some l => Some l
  | None => getLoaderFor (modulePaths parameters) (basename absoluteFile) None
  end.

(** What [loadConfigFile] shows before the answer to its request. *)
Definition loadingEvents (absoluteFile : string) (usedLoader : LoaderDescription)
  : list Event :=
  (Logged (mkMessage Trace "loadingFile" [absoluteFile])
   :: match name usedLoader with
      | Some n =>
          if String.eqb n "" then [] else [Logged (mkMessage Trace "usingLoader" [n])]
      | None => []
      end
   ++ [Requested (LoadConfigFile absoluteFile (loader usedLoader))])%list.

(** [new ConfinodeResult(...)] on the instance. *)
Definition created1 (this : Confinode) : Confinode :=
  mkConfinode (folderCache this) (contentCache this) (S (created this)).

(** The run of [loadConfigFile] on a file which is not in the cache, by
    the answer of the file system and the answer of [parse]. *)
Lemma loadConfigFile_miss fileName hint fs this usedLoader :
  let absoluteFile := resolve cwd fileName in
  contentCache this !! absoluteFile = None ->
  usedLoaderFor hint absoluteFile = Some usedLoader ->
  loadConfigFile fileName hint fs this
  = match loadConfigFileContent fs absoluteFile (loader usedLoader) with
    | inl e => mkRun (Thrown e) this (loadingEvents absoluteFile usedLoader)
    | inr None =>
        mkRun (Returned None) (storeContent absoluteFile None this)
          (loadingEvents absoluteFile usedLoader
             ++ [Logged (mkMessage Trace "emptyConfiguration" [])])
    | inr (Some content) =>
        match parse content (mkParserContext "" fileName true) with
        | inl e => mkRun (Thrown e) this (loadingEvents absoluteFile usedLoader)
        | inr None =>
            mkRun (Returned None) (storeContent absoluteFile None this)
              (loadingEvents absoluteFile usedLoader)
        | inr (Some parsed) =>
            let result := mkConfinodeResult (created this) parsed (mkResultFile fileName []) in
            mkRun (Returned (Some result))
              (storeContent absoluteFile (Some result) (created1 this))
              (loadingEvents absoluteFile usedLoader)
        end
    end.
Proof.
  cbv zeta. unfold loadConfigFile, usedLoaderFor, loadingEvents, storeContent, created1.
  generalize (resolve cwd fileName) as absoluteFile. intros absoluteFile Hc Hl.
  unfold bind, log, emit, getThis, requestLoadConfigFile, yieldRequest, throw, ret,
    newConfinodeResult, setContentCache. cbn. rewrite Hc.
  assert (match hint with
          | Some l => Some l
          | None => getLoaderFor (modulePaths parameters) (basename absoluteFile) None
          end = Some usedLoader) as Hl' by exact Hl.
  destruct hint as [l|]; [injection Hl' as ->|rewrite Hl']; cbn;
    (destruct (name usedLoader) as [n|]; [destruct (String.eqb n "")|]); cbn;
    (destruct (loadConfigFileContent fs absoluteFile (loader usedLoader))
      as [e|[content|]]; cbn;
     [reflexivity
     |destruct (parse content (mkParserContext "" fileName true)) as [e|[parsed|]]; cbn;
      [reflexivity|destruct (cache parameters); reflexivity..]
     |destruct (cache parameters); reflexivity]).
Qed.

(** The file names [searchFileAndLoader] finds in an absolute folder are
    absolute. *)
Lemma searchFileAndLoader_absolute folder description fs this found :
  isAbsolute folder = true ->
  outcome (searchFileAndLoader folder description fs this) = Returned (Some found) ->
  isAbsolute (foundFileName found) = true.
Proof.
  intros Habs. destruct description as [description|fileName l]; unfold searchFileAndLoader.
  - set (folderName := dirname (join folder description)).
    assert (isAbsolute folderName = true) as Hfolder
      by (apply dirname_absolute, join_absolute, Habs).
    set (baseName := (basename description ++ ".")%string).
    unfold bind. destruct (folderFileNames folderName fs this) as [[names|e|] this' ev];
      cbn; try discriminate.
    assert (Forall (fun f => isAbsolute (foundFileName f) = true)
              (collect (candidate folderName baseName)
                 (List.filter (fun n => String.prefix baseName n) names))) as Hall.
    { induction (List.filter (fun n => String.prefix baseName n) names) as [|n ns IH];
        [constructor|]. simpl. unfold candidate at 1.
      destruct (getLoaderFor _ _ _); [|exact IH].
      constructor; [|exact IH]. cbn. now apply join_absolute. }
    destruct (collect _ _) as [|first [|second others]]; cbn; try discriminate.
    + intros [= <-]. now inversion Hall.
    + intros [= <-]. now inversion Hall.
  - unfold bind, requestFileExits, yieldRequest. cbn.
    destruct (fileExits fs (join folder fileName)) as [e|[|]]; cbn; try discriminate.
    intros [= <-]. cbn. now apply join_absolute.
Qed.

(** C8. When the loader of a file gives a value other than [undefined],
    this value is given to the parser of the description, with the name
    of the file in the context; the result of the parser is wrapped in a
    new result whose files are the name of the file and no extended file.
    The name of the file is the one [loadConfigFile] is given: in a search
    it is an absolute path. *)
Theorem loaded_content_is_parsed_and_wrapped (fileName : string)
  (hint : option LoaderDescription) (fs : Gateway) (this : Confinode)
  (usedLoader : LoaderDescription) (content : Content) :
  let absoluteFile := resolve cwd fileName in
  let r := loadConfigFile fileName hint fs this in
  contentCache this !! absoluteFile = None ->
  usedLoaderFor hint absoluteFile = Some usedLoader ->
  loadConfigFileContent fs absoluteFile (loader usedLoader) = inr (Some content) ->
  outcome r
  = match parse content (mkParserContext "" fileName true) with
    | inl e => Thrown e
    | inr None => Returned None
    | inr (Some parsed) =>
        Returned (Some (mkConfinodeResult (created this) parsed (mkResultFile fileName [])))
    end /\
  requests (events r) = [LoadConfigFile absoluteFile (loader usedLoader)] /\
  (forall folder description this' found,
     outcome (searchFileAndLoader (resolve cwd folder) description fs this')
     = Returned (Some found) ->
     isAbsolute (foundFileName found) = true).
Proof.
  intros absoluteFile r Hc Hl Hcontent. subst r.
  rewrite (loadConfigFile_miss _ _ _ _ _ Hc Hl). fold absoluteFile. rewrite Hcontent.
  assert (requests (loadingEvents absoluteFile usedLoader)
          = [LoadConfigFile absoluteFile (loader usedLoader)]) as Hreq.
  { unfold loadingEvents. destruct (name usedLoader) as [n|];
      [destruct (String.eqb n "")|]; reflexivity. }
  split; [|split].
  - destruct (parse content _) as [e|[parsed|]]; reflexivity.
  - destruct (parse content _) as [e|[parsed|]]; exact Hreq.
  - intros folder description this' found. apply searchFileAndLoader_absolute.
    apply resolve_absolute.
Qed.

(** *** The descriptions, in order *)

Lemma after_nil {A} (r : Run A) : after [] r = r.
Proof. destruct r; reflexivity. Qed.

Lemma after_after {A} ev1 ev2 (r : Run A) : after ev1 (after ev2 r) = after (ev1 ++ ev2) r.
Proof. destruct r; cbn. now rewrite app_assoc. Qed.

(** One turn of the loop of [searchConfigUsingDescriptions]. *)
Lemma searchConfigUsing_cons d remaining folder fs this :
  searchConfigUsing (d :: remaining) folder fs this
  = match searchFileAndLoader folder d fs this with
    | mkRun (Returned (Some found)) this1 ev1 =>
        match loadConfigFile (foundFileName found)
                (Some (mkLoaderDescription (foundLoaderName found) (foundLoader found)))
                fs this1 with
        | mkRun (Returned (Some r)) this2 ev2 =>
            mkRun (Returned (Some r)) this2
              (ev1 ++ ev2 ++ [Logged (mkMessage Information "loadedConfiguration"
                                        [foundFileName found])])
        | mkRun (Returned None) this2 ev2 =>
            after (ev1 ++ ev2) (searchConfigUsing remaining folder fs this2)
        | mkRun (Thrown e) this2 ev2 => mkRun (Thrown e) this2 (ev1 ++ ev2)
        | mkRun OutOfFuel this2 ev2 => mkRun OutOfFuel this2 (ev1 ++ ev2)
        end
    | mkRun (Returned None) this1 ev1 =>
        after ev1 (searchConfigUsing remaining folder fs this1)
    | mkRun (Thrown e) this1 ev1 => mkRun (Thrown e) this1 ev1
    | mkRun OutOfFuel this1 ev1 => mkRun OutOfFuel this1 ev1
    end.
Proof.
  cbn [searchConfigUsing]. unfold bind at 1.
  destruct (searchFileAndLoader folder d fs this) as [[[found|]|e|] this1 ev1];
    try reflexivity.
  unfold bind at 1.
  destruct (loadConfigFile _ _ fs this1) as [[[r|]|e|] this2 ev2]; cbn;
    try reflexivity.
  now rewrite after_after.
Qed.

(** The descriptions of [l2] are tried after those of [l1], and only when
    those of [l1] gave nothing. *)
Lemma searchConfigUsing_app l1 l2 folder fs this :
  searchConfigUsing (l1 ++ l2) folder fs this
  = match searchConfigUsing l1 folder fs this with
    | mkRun (Returned None) this1 ev1 => after ev1 (searchConfigUsing l2 folder fs this1)
    | r => r
    end.
Proof.
  revert this. induction l1 as [|d l1 IH]; intros this.
  - cbn. now rewrite after_nil.
  - change ((d :: l1) ++ l2)%list with (d :: (l1 ++ l2))%list.
    rewrite !searchConfigUsing_cons.
    destruct (searchFileAndLoader folder d fs this) as [[[found|]|e|] this1 ev1];
      try reflexivity.
    + destruct (loadConfigFile _ _ fs this1) as [[[r|]|e|] this2 ev2]; try reflexivity.
      rewrite IH.
      destruct (searchConfigUsing l1 folder fs this2) as [[[r|]|e|] this3 ev3];
        try reflexivity.
      cbn. now rewrite after_after.
    + rewrite IH.
      destruct (searchConfigUsing l1 folder fs this1) as [[[r|]|e|] this3 ev3];
        try reflexivity.
      cbn. now rewrite after_after.
Qed.

(** An invocation goes through its folder first. *)
Lemma searchConfigInFolder_starts folder fs this :
  exists above,
    visitedFolders (events (searchConfigInFolder folder fs this))
    = resolve cwd folder :: above.
Proof.
  destruct (contentCache this !! resolve cwd folder) as [cached|] eqn:Hc.
  { rewrite (searchConfigInFolder_cached _ _ _ _ Hc). now exists []. }
  pose proof (searchConfigUsing_Completes (files parameters) (resolve cwd folder) fs this)
    as Hcomp. fold (searchConfigUsingDescriptions (resolve cwd folder)) in Hcomp.
  destruct (outcome (searchConfigUsingDescriptions (resolve cwd folder) fs this))
    as [[r|]|e|] eqn:Ho; [| | |contradiction].
  - rewrite (searchConfigInFolder_found _ _ _ _ Hc Ho). cbn [events].
    rewrite visitedFolders_searchInFolder. eauto.
  - destruct (String.eqb_spec (resolve cwd folder) (searchStop parameters)) as [Hstop|Hstop];
      [|destruct (String.eqb_spec (dirname (resolve cwd folder)) (resolve cwd folder))
          as [Hroot|Hroot]].
    1, 2: rewrite (searchConfigInFolder_last _ _ _ Hc Ho) by auto; cbn [events];
      rewrite visitedFolders_searchInFolder; eauto.
    destruct (searchConfigInFolder_parent _ _ _ Hc Ho Hstop Hroot) as (result & _ & ->).
    cbn [events]. rewrite visitedFolders_searchInFolder. eauto.
  - rewrite (searchConfigInFolder_thrown _ _ _ _ Hc Ho). cbn [events].
    rewrite visitedFolders_searchInFolder. eauto.
Qed.

(** The run of the descriptions of a folder when the descriptions before
    [d] give nothing and [d] finds a file. *)
Lemma searchConfigUsing_found before d later folder fs this found :
  let tried := searchConfigUsing before folder fs this in
  let look := searchFileAndLoader folder d fs (instance tried) in
  let load := loadConfigFile (foundFileName found)
                (Some (mkLoaderDescription (foundLoaderName found) (foundLoader found)))
                fs (instance look) in
  outcome tried = Returned None ->
  outcome look = Returned (Some found) ->
  searchConfigUsing (before ++ d :: later) folder fs this
  = match outcome load with
    | Returned (Some r) =>
        mkRun (Returned (Some r)) (instance load)
          (events tried ++ events look ++ events load
             ++ [Logged (mkMessage Information "loadedConfiguration" [foundFileName found])])
    | Returned None =>
        after (events tried ++ events look ++ events load)
          (searchConfigUsing later folder fs (instance load))
    | Thrown e => mkRun (Thrown e) (instance load) (events tried ++ events look ++ events load)
    | OutOfFuel =>
        mkRun OutOfFuel (instance load) (events tried ++ events look ++ events load)
    end.
Proof.
  cbv zeta. intros Htried Hlook. rewrite searchConfigUsing_app.
  destruct (searchConfigUsing before folder fs this) as [o this1 ev1].
  cbn [outcome instance events] in *. subst o.
  rewrite searchConfigUsing_cons.
  destruct (searchFileAndLoader folder d fs this1) as [o this2 ev2].
  cbn [outcome instance events] in *. subst o.
  destruct (loadConfigFile _ _ fs this2) as [[[r|]|e|] this3 ev3];
    cbn [outcome instance events after]; rewrite <- ?app_assoc; try reflexivity.
  now rewrite after_after.
Qed.

(** C4. The file descriptions are tried in their order, in every folder:
    when the descriptions before a description give nothing in the folder
    and this description finds a file whose load gives a result, the run
    of the folder is the run of the descriptions before it, followed by
    the search and the load of its file: the descriptions after it are not
    tried.  Its result is the result of the cascade in the folder, which
    ends there without going to the parent folder; and the folders below,
    which gave nothing, return this result. *)
Theorem first_match_wins (fs : Gateway) (this : Confinode) (folder : string)
  (before later : list FileDescription) (d : FileDescription) (found : FoundFile)
  (r : ConfinodeResult) :
  let absoluteFolder := resolve cwd folder in
  let tried := searchConfigUsing before absoluteFolder fs this in
  let look := searchFileAndLoader absoluteFolder d fs (instance tried) in
  let load := loadConfigFile (foundFileName found)
                (Some (mkLoaderDescription (foundLoaderName found) (foundLoader found)))
                fs (instance look) in
  let here := searchConfigUsingDescriptions absoluteFolder fs this in
  let search := searchConfigInFolder folder fs this in
  files parameters = (before ++ d :: later)%list ->
  contentCache this !! absoluteFolder = None ->
  outcome tried = Returned None ->
  outcome look = Returned (Some found) ->
  outcome load = Returned (Some r) ->
  here = mkRun (Returned (Some r)) (instance load)
           (events tried ++ events look ++ events load
              ++ [Logged (mkMessage Information "loadedConfiguration"
                            [foundFileName found])]) /\
  search = mkRun (Returned (Some r)) (storeContent absoluteFolder (Some r) (instance load))
             (searchInFolderMessage absoluteFolder :: events here) /\
  visitedFolders (events search) = [absoluteFolder] /\
  (forall below this',
     let belowFolder := resolve cwd below in
     let first := searchConfigUsingDescriptions belowFolder fs this' in
     contentCache this' !! belowFolder = None ->
     outcome first = Returned None ->
     belowFolder <> searchStop parameters ->
     dirname belowFolder <> belowFolder ->
     dirname belowFolder = folder ->
     instance first = this ->
     outcome (searchConfigInFolder below fs this') = Returned (Some r) /\
     visitedFolders (events (searchConfigInFolder below fs this'))
     = [belowFolder; absoluteFolder]).
Proof.
  intros a tried look load here search Hfiles Hc Htried Hlook Hload.
  assert (here = mkRun (Returned (Some r)) (instance load)
                   (events tried ++ events look ++ events load
                      ++ [Logged (mkMessage Information "loadedConfiguration"
                                    [foundFileName found])])) as Hhere.
  { subst here. unfold searchConfigUsingDescriptions. rewrite Hfiles.
    rewrite (searchConfigUsing_found before d later a fs this found Htried Hlook).
    fold tried look load. now rewrite Hload. }
  assert (search = mkRun (Returned (Some r)) (storeContent a (Some r) (instance load))
                     (searchInFolderMessage a :: events here)) as Hsearch.
  { subst search. rewrite (searchConfigInFolder_found folder fs this r Hc);
      fold a; fold here; rewrite Hhere; reflexivity. }
  assert (visitedFolders (events search) = [a]) as Hvisited.
  { rewrite Hsearch. cbn [events]. rewrite visitedFolders_searchInFolder.
    subst here. now rewrite searchConfigUsingDescriptions_visits. }
  split; [exact Hhere|]. split; [exact Hsearch|]. split; [exact Hvisited|].
  intros below this' b first Hc' Hfirst Hstop Hroot Hparent Hthis.
  destruct (searchConfigInFolder_parent below fs this' Hc' Hfirst Hstop Hroot)
    as (result & Hres & ->).
  fold b in Hres |- *. fold first in Hres |- *. rewrite Hparent, Hthis in Hres |- *.
  fold search in Hres |- *. rewrite Hsearch in Hres. cbn [outcome] in Hres.
  destruct Hres as [[= <-]|(_ & e & [=])].
  rewrite Hsearch. cbn [outcome events instance caught].
  split; [reflexivity|].
  rewrite visitedFolders_searchInFolder, !visitedFolders_app, app_nil_r.
  subst first. rewrite searchConfigUsingDescriptions_visits. cbn [app].
  rewrite visitedFolders_searchInFolder. subst here.
  now rewrite searchConfigUsingDescriptions_visits.
Qed.

(** C7. When the loader of the file a description matches gives
    [undefined], [loadConfigFile] returns [undefined] (and caches it when
    the cache is on), and the loop goes on with the descriptions which
    remain: the run of the folder is the run up to this load followed by
    the run of the remaining descriptions.  When these give a result, it
    is the result of the folder; when they give nothing, and the folder is
    neither the stop folder nor its own parent, the search goes on in the
    parent folder, whose result is the result of the search. *)
Theorem empty_result_keeps_searching (fs : Gateway) (this : Confinode) (folder : string)
  (before remaining : list FileDescription) (d : FileDescription) (found : FoundFile) :
  let absoluteFolder := resolve cwd folder in
  let tried := searchConfigUsing before absoluteFolder fs this in
  let look := searchFileAndLoader absoluteFolder d fs (instance tried) in
  let absoluteFile := resolve cwd (foundFileName found) in
  let load := loadConfigFile (foundFileName found)
                (Some (mkLoaderDescription (foundLoaderName found) (foundLoader found)))
                fs (instance look) in
  let rest := searchConfigUsing remaining absoluteFolder fs (instance load) in
  let here := searchConfigUsingDescriptions absoluteFolder fs this in
  let above := searchConfigInFolder (dirname absoluteFolder) fs (instance rest) in
  let search := searchConfigInFolder folder fs this in
  files parameters = (before ++ d :: remaining)%list ->
  contentCache this !! absoluteFolder = None ->
  outcome tried = Returned None ->
  outcome look = Returned (Some found) ->
  contentCache (instance look) !! absoluteFile = None ->
  loadConfigFileContent fs absoluteFile (foundLoader found) = inr None ->
  outcome load = Returned None /\
  instance load = storeContent absoluteFile None (instance look) /\
  here = after (events tried ++ events look ++ events load) rest /\
  (forall r, outcome rest = Returned (Some r) -> outcome search = Returned (Some r)) /\
  (outcome rest = Returned None ->
   absoluteFolder <> searchStop parameters ->
   dirname absoluteFolder <> absoluteFolder ->
   visitedFolders (events search) = absoluteFolder :: visitedFolders (events above) /\
   (exists higher,
      visitedFolders (events above) = resolve cwd (dirname absoluteFolder) :: higher) /\
   forall result, outcome above = Returned result -> outcome search = Returned result).
Proof.
  intros a tried look absoluteFile load rest here above search
    Hfiles Hc Htried Hlook Hmiss Hempty.
  assert (load = mkRun (Returned None) (storeContent absoluteFile None (instance look))
                   (loadingEvents absoluteFile
                      (mkLoaderDescription (foundLoaderName found) (foundLoader found))
                    ++ [Logged (mkMessage Trace "emptyConfiguration" [])])) as Hload.
  { subst load.
    rewrite (loadConfigFile_miss (foundFileName found)
               (Some (mkLoaderDescription (foundLoaderName found) (foundLoader found)))
               fs (instance look) _ Hmiss eq_refl). fold absoluteFile.
    cbn [loader]. now rewrite Hempty. }
  assert (here = after (events tried ++ events look ++ events load) rest) as Hhere.
  { subst here. unfold searchConfigUsingDescriptions. rewrite Hfiles.
    rewrite (searchConfigUsing_found before d remaining a fs this found Htried Hlook).
    fold tried look load. rewrite Hload at 1. reflexivity. }
  split; [now rewrite Hload|]. split; [now rewrite Hload|]. split; [exact Hhere|].
  split.
  - intros r Hrest. subst search.
    rewrite (searchConfigInFolder_found folder fs this r Hc); [reflexivity|].
    fold a. fold here. now rewrite Hhere, outcome_after.
  - intros Hrest Hstop Hroot.
    assert (outcome here = Returned None) as Ho by now rewrite Hhere, outcome_after.
    assert (instance here = instance rest) as Hi by now rewrite Hhere, instance_after.
    destruct (searchConfigInFolder_parent folder fs this Hc Ho Hstop Hroot)
      as (result & Hres & Hrun).
    fold a in Hres, Hrun. fold here in Hres, Hrun. rewrite Hi in Hres, Hrun.
    fold above in Hres, Hrun. fold search in Hrun.
    split; [|split].
    + rewrite Hrun. cbn [events].
      rewrite visitedFolders_searchInFolder, !visitedFolders_app, caught_visits, app_nil_r.
      subst here. now rewrite searchConfigUsingDescriptions_visits.
    + apply searchConfigInFolder_starts.
    + intros result' Habove. rewrite Hrun. cbn [outcome].
      destruct Hres as [Hres|(_ & e & Hres)]; congruence.
Qed.

(** *** The caches *)


Lemma requests_app ev1 ev2 : requests (ev1 ++ ev2) = (requests ev1 ++ requests ev2)%list.
Proof. apply collect_app. Qed.





(** *** The stop folder *)

(** The folders of [l] up to the first one which is the stop folder, this
    one included; the test is the equality of strings of the code. *)
Fixpoint upTo (stop : string) (l : list string) : list string :=
  match l with
  | [] => []
  | folder :: others =>
      folder :: if String.eqb folder stop then [] else upTo stop others
  end.

Lemma upTo_absent stop l : stop ∉ l -> upTo stop l = l.
Proof.
  induction l as [|folder others IH]; [reflexivity|]. intros Hnot. cbn [upTo].
  destruct (String.eqb_spec folder stop) as [->|Hne].
  - exfalso. apply Hnot. constructor.
  - f_equal. apply IH. intros Hin. apply Hnot. now constructor.
Qed.

Lemma upTo_present stop l : stop ∈ l -> stop ∈ upTo stop l.
Proof.
  induction l as [|folder others IH]; [intros H; inversion H|]. cbn [upTo].
  destruct (String.eqb_spec folder stop) as [->|Hne]; [constructor|].
  intros [->|Hin]%elem_of_cons; [contradiction|]. apply list_elem_of_further, IH, Hin.
Qed.

(** The chain of the folders above a folder ends on a folder which is its
    own parent. *)
Lemma ancestors_last folder :
  exists top,
    last (resolve cwd folder :: ancestors (resolve cwd folder)) = Some top /\
    dirname top = top.
Proof.
  induction folder as [folder IH] using cascade_ind. rewrite ancestors_unfold.
  destruct (String.eqb_spec (dirname (resolve cwd folder)) (resolve cwd folder)) as [Heq|Hne].
  - exists (resolve cwd folder). split; [reflexivity | exact Heq].
  - destruct (IH Hne) as (top & Hlast & Htop). exists top. split; [|exact Htop].
    rewrite <- Hlast. reflexivity.
Qed.

(** A folder of the cascade was answered from the cache: its message is
    immediately followed by [loadedFromCache] (the descriptions of a folder
    never start with this message: [loadConfigFile] logs the file first). *)
Fixpoint answeredFromCache (ev : list Event) : bool :=
  match ev with
  | [] => false
  | e :: later =>
      match visitedFolder e, later with
      | Some _, Logged (mkMessage Trace id []) :: _ =>
          String.eqb id "loadedFromCache" || answeredFromCache later
      | _, _ => answeredFromCache later
      end
  end.

Lemma answeredFromCache_cons e ev :
  answeredFromCache ev = true -> answeredFromCache (e :: ev) = true.
Proof.
  intros H. cbn [answeredFromCache]. destruct (visitedFolder e); [|exact H].
  destruct ev as [|[[[] id [|p ps]]|request] ev']; try exact H.
  rewrite H. apply orb_true_r.
Qed.

Lemma answeredFromCache_app ev1 ev2 :
  answeredFromCache ev2 = true -> answeredFromCache (ev1 ++ ev2) = true.
Proof.
  intros H. induction ev1 as [|e ev1 IH]; [exact H|].
  now apply answeredFromCache_cons.
Qed.

Lemma caught_error fs above (e : Exn) :
  outcome above = Thrown e -> loggedError (caught fs above) = true.
Proof. unfold caught. intros ->. destruct e; reflexivity. Qed.

(** ** What the calls do to the caches *)

(** A relation between the instance before a run and the instance after
    it holds along the search and the load as soon as it holds along the
    creation of a result and along the two writes in the caches, which
    both come after the key was not found. *)
Section Along.

Variable R : Confinode -> Confinode -> Prop.
Hypothesis R_refl : forall this, R this this.
Hypothesis R_trans : forall a b c, R a b -> R b c -> R a c.
Hypothesis R_created : forall this, R this (created1 this).
Hypothesis R_folder : cache parameters = true ->
  forall this folderName fileNames,
    folderCache this !! folderName = None ->
    R this (mkConfinode (<[folderName := fileNames]> (folderCache this))
                        (contentCache this) (created this)).
Hypothesis R_content : cache parameters = true ->
  forall before this path result,
    contentCache before !! path = None ->
    R before this ->
    R before (mkConfinode (folderCache this) (<[path := result]> (contentCache this))
                          (created this)).

Definition Along {A} (g : Gen A) : Prop :=
  forall fs this, R this (instance (g fs this)).

Lemma storeContent_Along before this path result :
  contentCache before !! path = None ->
  R before this ->
  R before (storeContent path result this).
Proof.
  intros Hc HR. unfold storeContent. destruct (cache parameters) eqn:E; [|exact HR].
  now apply R_content.
Qed.

Lemma ret_Along {A} (a : A) : Along (ret a).
Proof. intros fs this. apply R_refl. Qed.

Lemma throw_Along {A} e : Along (@throw A e).
Proof. intros fs this. apply R_refl. Qed.

Lemma emit_Along e : Along (emit e).
Proof. intros fs this. apply R_refl. Qed.

Lemma logError_Along t e : Along (logError t e).
Proof. destruct e as [[id p|msg]|text|], t; first [apply emit_Along | apply throw_Along]. Qed.

Lemma bind_Along {A B} (m : Gen A) (k : A -> Gen B) :
  Along m -> (forall a, Along (k a)) -> Along (bind m k).
Proof.
  intros Hm Hk fs this. unfold bind. specialize (Hm fs this).
  destruct (m fs this) as [[a|e|] this' ev]; cbn in *; try exact Hm.
  rewrite instance_after. eapply R_trans; [exact Hm | apply Hk].
Qed.

Lemma tryCatch_Along {A} (body : Gen A) (handler : Throwable -> Gen A) :
  Along body -> (forall e, Along (handler e)) -> Along (tryCatch body handler).
Proof.
  intros Hb Hh fs this. unfold tryCatch. specialize (Hb fs this).
  destruct (body fs this) as [[a|e|] this' ev]; cbn in *; try exact Hb.
  rewrite instance_after. eapply R_trans; [exact Hb | apply Hh].
Qed.

Lemma searchFileAndLoader_Along folder description :
  Along (searchFileAndLoader folder description).
Proof.
  intros fs this. destruct description as [description|fileName l];
    unfold searchFileAndLoader.
  - unfold folderFileNames, bind, getThis, requestFolderContent, yieldRequest. cbn.
    destruct (folderCache this !! dirname (join folder description)) as [names|] eqn:Hl.
    + cbn. destruct (collect _ _) as [|first [|second others]]; cbn; apply R_refl.
    + destruct (folderContent fs (dirname (join folder description))) as [e|names];
        [apply R_refl|].
      destruct (cache parameters) eqn:E; cbn;
        destruct (collect _ _) as [|first [|second others]]; cbn;
        solve [apply R_refl | now apply R_folder].
  - unfold bind, requestFileExits, yieldRequest.
    destruct (fileExits fs (join folder fileName)) as [e|[|]]; cbn; apply R_refl.
Qed.

Lemma loadConfigFile_Along fileName hint : Along (loadConfigFile fileName hint).
Proof.
  intros fs this.
  destruct (contentCache this !! resolve cwd fileName) as [cached|] eqn:Hc.
  { unfold loadConfigFile, bind, log, emit, getThis. cbn. rewrite Hc. apply R_refl. }
  destruct (usedLoaderFor hint (resolve cwd fileName)) as [usedLoader|] eqn:Hl.
  - rewrite (loadConfigFile_miss _ _ _ _ _ Hc Hl).
    destruct (loadConfigFileContent fs _ _) as [e|[content|]]; cbn [instance];
      [apply R_refl| |now apply storeContent_Along].
    destruct (parse content _) as [e|[parsed|]]; cbn [instance];
      [apply R_refl|now apply storeContent_Along..].
  - unfold loadConfigFile, bind, log, emit, getThis, throw. cbn. rewrite Hc.
    unfold usedLoaderFor in Hl. destruct hint as [l|]; [discriminate|].
    rewrite Hl. apply R_refl.
Qed.

Lemma searchConfigUsing_Along descriptions folder :
  Along (searchConfigUsing descriptions folder).
Proof.
  induction descriptions as [|d others IH]; cbn [searchConfigUsing]; [apply ret_Along|].
  apply bind_Along; [apply searchFileAndLoader_Along|].
  intros [found|]; [|exact IH].
  apply bind_Along; [apply loadConfigFile_Along|].
  intros [r|]; [|exact IH].
  apply bind_Along; [apply emit_Along | intros _; apply ret_Along].
Qed.

Lemma searchConfigInFolder_Along folder : Along (searchConfigInFolder folder).
Proof.
  induction folder as [folder IH] using cascade_ind. intros fs this.
  destruct (contentCache this !! resolve cwd folder) as [cached|] eqn:Hc.
  { rewrite (searchConfigInFolder_cached _ _ _ _ Hc). apply R_refl. }
  pose proof (searchConfigUsing_Completes (files parameters) (resolve cwd folder) fs this)
    as Hcomp. fold (searchConfigUsingDescriptions (resolve cwd folder)) in Hcomp.
  pose proof (searchConfigUsing_Along (files parameters) (resolve cwd folder) fs this)
    as Hhere. fold (searchConfigUsingDescriptions (resolve cwd folder)) in Hhere.
  destruct (outcome (searchConfigUsingDescriptions (resolve cwd folder) fs this))
    as [[r|]|e|] eqn:Ho; [| | |contradiction].
  - rewrite (searchConfigInFolder_found _ _ _ _ Hc Ho). cbn [instance].
    now apply storeContent_Along.
  - destruct (String.eqb_spec (resolve cwd folder) (searchStop parameters)) as [Hstop|Hstop];
      [|destruct (String.eqb_spec (dirname (resolve cwd folder)) (resolve cwd folder))
          as [Hroot|Hroot]].
    1, 2: rewrite (searchConfigInFolder_last _ _ _ Hc Ho) by auto; cbn [instance];
      now apply storeContent_Along.
    destruct (searchConfigInFolder_parent _ _ _ Hc Ho Hstop Hroot) as (result & Hres & ->).
    cbn [instance]. apply storeContent_Along; [exact Hc|].
    eapply R_trans; [exact Hhere | apply (IH Hroot)].
  - rewrite (searchConfigInFolder_thrown _ _ _ _ Hc Ho). cbn [instance].
    destruct e as [e|text|]; [now apply storeContent_Along..|exact Hhere].
Qed.

Lemma syncSearch_Along fs searchStart this :
  R this (instance (syncSearch fs searchStart this)).
Proof.
  pose proof (syncSearch_run fs searchStart this) as H. cbv zeta in H.
  destruct (isFolder fs (default cwd searchStart)) as [e|b]; rewrite H;
    [apply R_refl|].
  rewrite instance_after, searchConfigFrom_instance. apply searchConfigInFolder_Along.
Qed.

Lemma syncLoad_Along fs name this : R this (instance (syncLoad fs name this)).
Proof.
  revert fs this. change (Along (loadConfig name)). unfold loadConfig.
  apply tryCatch_Along;
    [|intros e; apply bind_Along; [apply logError_Along | intros _; apply ret_Along]].
  destruct (requireResolve name [cwd]) as [fileName|]; [|apply throw_Along].
  destruct (String.eqb fileName ""); [apply throw_Along|].
  apply bind_Along; [intros fs this; apply R_refl|].
  intros [|]; [apply loadConfigFile_Along | apply throw_Along].
Qed.

End Along.

(** Every entry of the first instance is, unchanged, in the second. *)
Definition keeps (this this' : Confinode) : Prop :=
  (forall folderName fileNames,
     folderCache this !! folderName = Some fileNames ->
     folderCache this' !! folderName = Some fileNames) /\
  (forall path result,
     contentCache this !! path = Some result ->
     contentCache this' !! path = Some result).

(** A search and a load add entries to the caches and leave the entries
    they find as they are: a listing or a result, once cached, is what the
    later calls see, until the cache is cleared. *)
Theorem caches_only_grow (fs : Gateway) (this : Confinode) :
  (forall searchStart, keeps this (instance (syncSearch fs searchStart this))) /\
  (forall name, keeps this (instance (syncLoad fs name this))).
Proof.
  assert (forall a, keeps a a) as Hrefl by (intros a; split; auto).
  assert (forall a b c, keeps a b -> keeps b c -> keeps a c) as Htrans.
  { intros a b c [H1 H2] [H3 H4]. split; auto. }
  assert (forall a, keeps a (created1 a)) as Hcreated by (intros a; split; auto).
  assert (cache parameters = true ->
          forall a folderName fileNames,
            folderCache a !! folderName = None ->
            keeps a (mkConfinode (<[folderName := fileNames]> (folderCache a))
                                 (contentCache a) (created a))) as Hfolder.
  { intros _ a k v Hk. split; cbn; [|auto].
    intros k' v' Hk'. rewrite lookup_insert_ne; [exact Hk' | congruence]. }
  assert (cache parameters = true ->
          forall before a path result,
            contentCache before !! path = None ->
            keeps before a ->
            keeps before (mkConfinode (folderCache a) (<[path := result]> (contentCache a))
                                      (created a))) as Hcontent.
  { intros _ before a k v Hk [H1 H2]. split; cbn; [exact H1|].
    intros k' v' Hk'. rewrite lookup_insert_ne; [now apply H2 | congruence]. }
  split.
  - intros searchStart. now apply syncSearch_Along.
  - intros name. now apply syncLoad_Along.
Qed.

(** Both caches of the second instance are those of the first. *)
Definition sameCaches (this this' : Confinode) : Prop :=
  folderCache this' = folderCache this /\ contentCache this' = contentCache this.

(** With the cache off, a search and a load write in no cache: what they
    find there was put by hand or before, and each call asks the file
    system again. *)
Theorem cache_off_never_writes (fs : Gateway) (this : Confinode) :
  cache parameters = false ->
  (forall searchStart, sameCaches this (instance (syncSearch fs searchStart this))) /\
  (forall name, sameCaches this (instance (syncLoad fs name this))).
Proof.
  intros Hoff.
  assert (forall a, sameCaches a a) as Hrefl by (intros a; split; auto).
  assert (forall a b c, sameCaches a b -> sameCaches b c -> sameCaches a c) as Htrans.
  { intros a b c [H1 H2] [H3 H4]. split; congruence. }
  assert (forall a, sameCaches a (created1 a)) as Hcreated by (intros a; split; auto).
  split.
  - intros searchStart. apply syncSearch_Along; auto; congruence.
  - intros name. apply syncLoad_Along; auto; congruence.
Qed.

(** ** The cascade of any search *)

Lemma upTo_prefix stop l : upTo stop l `prefix_of` l.
Proof.
  induction l as [|folder others IH]; [reflexivity|]. cbn [upTo].
  destruct (String.eqb folder stop).
  - now exists others.
  - now apply prefix_cons.
Qed.

Lemma ancestors_NoDup folder :
  NoDup (resolve cwd folder :: ancestors (resolve cwd folder)).
Proof.
  induction folder as [folder IH] using cascade_ind.
  constructor; [apply ancestors_irreflexive|].
  rewrite ancestors_unfold.
  destruct (String.eqb_spec (dirname (resolve cwd folder)) (resolve cwd folder)) as [|Hne];
    [constructor | exact (IH Hne)].
Qed.

Lemma ancestors_length folder :
  List.length (resolve cwd folder :: ancestors (resolve cwd folder))
  <= String.length (resolve cwd folder).
Proof.
  induction folder as [folder IH] using cascade_ind.
  pose proof (resolve_length_pos folder) as Hpos.
  rewrite ancestors_unfold.
  destruct (String.eqb_spec (dirname (resolve cwd folder)) (resolve cwd folder)) as [|Hne].
  - cbn. lia.
  - pose proof (parent_shorter cwd folder Hne). specialize (IH Hne).
    cbn [List.length] in *. lia.
Qed.

(** Whatever it finds, the cascade follows the chain of the folders above
    its start and ends at the stop folder at the latest. *)
Lemma visited_prefix folder fs this :
  visitedFolders (events (searchConfigInFolder folder fs this))
  `prefix_of` upTo (searchStop parameters)
                (resolve cwd folder :: ancestors (resolve cwd folder)).
Proof.
  revert fs this. induction folder as [folder IH] using cascade_ind. intros fs this.
  assert ([resolve cwd folder]
          `prefix_of` upTo (searchStop parameters)
                        (resolve cwd folder :: ancestors (resolve cwd folder))) as Hone.
  { cbn [upTo]. apply prefix_cons, prefix_nil. }
  destruct (contentCache this !! resolve cwd folder) as [cached|] eqn:Hc.
  { rewrite (searchConfigInFolder_cached _ _ _ _ Hc). exact Hone. }
  pose proof (searchConfigUsing_Completes (files parameters) (resolve cwd folder) fs this)
    as Hcomp. fold (searchConfigUsingDescriptions (resolve cwd folder)) in Hcomp.
  destruct (outcome (searchConfigUsingDescriptions (resolve cwd folder) fs this))
    as [[r|]|e|] eqn:Ho; [| | |contradiction].
  - rewrite (searchConfigInFolder_found _ _ _ _ Hc Ho). cbn [events].
    now rewrite visitedFolders_searchInFolder, searchConfigUsingDescriptions_visits.
  - destruct (String.eqb_spec (resolve cwd folder) (searchStop parameters)) as [Hstop|Hstop];
      [|destruct (String.eqb_spec (dirname (resolve cwd folder)) (resolve cwd folder))
          as [Hroot|Hroot]].
    1, 2: rewrite (searchConfigInFolder_last _ _ _ Hc Ho) by auto; cbn [events];
      now rewrite visitedFolders_searchInFolder, searchConfigUsingDescriptions_visits.
    destruct (searchConfigInFolder_parent _ _ _ Hc Ho Hstop Hroot) as (result & Hres & ->).
    cbn [events]. rewrite visitedFolders_searchInFolder, !visitedFolders_app,
      searchConfigUsingDescriptions_visits, caught_visits, app_nil_r. cbn [app upTo].
    apply String.eqb_neq in Hstop. rewrite Hstop. apply prefix_cons.
    rewrite ancestors_unfold. apply String.eqb_neq in Hroot. rewrite Hroot.
    apply IH. now apply String.eqb_neq.
  - rewrite (searchConfigInFolder_thrown _ _ _ _ Hc Ho). cbn [events].
    now rewrite visitedFolders_searchInFolder, visitedFolders_app,
      searchConfigUsingDescriptions_visits, logError_visits.
Qed.

(** An invocation which returns nothing, logged no error and was not
    answered from the cache went through the whole chain, up to the stop
    folder. *)
Lemma cascade_reaches_stop folder fs this :
  outcome (searchConfigInFolder folder fs this) = Returned None ->
  loggedError (events (searchConfigInFolder folder fs this)) = false ->
  answeredFromCache (events (searchConfigInFolder folder fs this)) = false ->
  visitedFolders (events (searchConfigInFolder folder fs this))
  = upTo (searchStop parameters) (resolve cwd folder :: ancestors (resolve cwd folder)).
Proof.
  revert fs this. induction folder as [folder IH] using cascade_ind. intros fs this.
  destruct (contentCache this !! resolve cwd folder) as [cached|] eqn:Hc.
  { rewrite (searchConfigInFolder_cached _ _ _ _ Hc). discriminate. }
  pose proof (searchConfigUsing_Completes (files parameters) (resolve cwd folder) fs this)
    as Hcomp. fold (searchConfigUsingDescriptions (resolve cwd folder)) in Hcomp.
  pose proof (searchConfigUsingDescriptions_visits (resolve cwd folder) fs this) as Hquiet.
  cbn [upTo]. rewrite ancestors_unfold.
  destruct (outcome (searchConfigUsingDescriptions (resolve cwd folder) fs this))
    as [[r|]|e|] eqn:Ho; [| | |contradiction].
  - rewrite (searchConfigInFolder_found _ _ _ _ Hc Ho). discriminate.
  - destruct (String.eqb_spec (resolve cwd folder) (searchStop parameters)) as [Hstop|Hstop];
      [|destruct (String.eqb_spec (dirname (resolve cwd folder)) (resolve cwd folder))
          as [Hroot|Hroot]].
    1, 2: rewrite (searchConfigInFolder_last _ _ _ Hc Ho) by auto; cbn [events];
      now rewrite visitedFolders_searchInFolder, Hquiet.
    destruct (searchConfigInFolder_parent _ _ _ Hc Ho Hstop Hroot) as (result & Hres & ->).
    cbn [outcome events]. intros [= ->] Hnone Hmiss.
    change (loggedError (?e :: ?ev)) with (isError e || loggedError ev) in Hnone.
    rewrite !loggedError_app in Hnone. cbn [isError searchInFolderMessage orb] in Hnone.
    apply orb_false_elim in Hnone as [_ Hnone].
    apply orb_false_elim in Hnone as [Hnone Hcaught].
    destruct Hres as [Hres|(_ & e & Hres)];
      [|rewrite (caught_error _ _ _ Hres) in Hcaught; discriminate].
    rewrite (caught_returned _ _ _ Hres), app_nil_r in *.
    rewrite visitedFolders_searchInFolder, visitedFolders_app, Hquiet. cbn [app].
    f_equal. apply (IH Hroot); [exact Hres | exact Hnone|].
    destruct (answeredFromCache (events (searchConfigInFolder _ fs _))) eqn:E;
      [|reflexivity].
    rewrite <- Hmiss. symmetry.
    apply (answeredFromCache_app (searchInFolderMessage (resolve cwd folder) :: _)).
    exact E.
  - rewrite (searchConfigInFolder_thrown _ _ _ _ Hc Ho). cbn [outcome events].
    destruct e as [[id p|msg]|text|]; try discriminate;
      intros _ Hnone; exfalso; revert Hnone;
      change (loggedError (?e :: ?ev)) with (isError e || loggedError ev);
      rewrite loggedError_app; cbn; rewrite orb_true_r; discriminate.
Qed.

(** Whatever the file system answers and the caches hold, the folders a
    search goes through are the first ones of the chain made of its start
    folder and of the folders above it, cut after the stop folder: each
    folder once, nearest first, none skipped, and no more folders than the
    resolved start path has characters. *)
Theorem cascade_follows_the_chain (fs : Gateway) (searchStart : option string)
  (this : Confinode) (root : string) :
  let visited := visitedFolders (events (syncSearch fs searchStart this)) in
  searchRoot fs searchStart = Some root ->
  visited `prefix_of` upTo (searchStop parameters) (root :: ancestors root) /\
  NoDup visited /\
  List.length visited <= String.length root.
Proof.
  intros visited Hroot. subst visited.
  pose proof (syncSearch_run fs searchStart this) as H. cbv zeta in H.
  unfold searchRoot in Hroot.
  destruct (isFolder fs (default cwd searchStart)) as [e|b]; [discriminate|].
  injection Hroot as <-. rewrite H, events_after.
  change (visitedFolders ([Requested ?r] ++ ?ev)) with (visitedFolders ev).
  rewrite searchConfigFrom_visits.
  set (folder := if b then default cwd searchStart else dirname (default cwd searchStart)).
  pose proof (visited_prefix folder fs this) as Hprefix.
  assert (visitedFolders (events (searchConfigInFolder folder fs this))
          `prefix_of` (resolve cwd folder :: ancestors (resolve cwd folder))) as Hchain.
  { etransitivity; [exact Hprefix | apply upTo_prefix]. }
  split; [exact Hprefix|]. destruct Hchain as [rest Hrest]. split.
  - pose proof (ancestors_NoDup folder) as Hnodup. rewrite Hrest in Hnodup.
    now apply NoDup_app in Hnodup as [Hnodup _].
  - pose proof (ancestors_length folder) as Hlen. rewrite Hrest, length_app in Hlen. lia.
Qed.

(** With the cache on, the cache holds the result of a search under each
    folder of its cascade. *)


(** ** The load by name *)

Lemma loadConfigFile_hit fileName hint fs this cached :
  contentCache this !! resolve cwd fileName = Some cached ->
  loadConfigFile fileName hint fs this
  = mkRun (Returned cached) this
      [Logged (mkMessage Trace "loadingFile" [resolve cwd fileName]);
       Logged (mkMessage Trace "loadedFromCache" [])].
Proof.
  intros Hc. unfold loadConfigFile, bind, log, emit, getThis. cbn. now rewrite Hc.
Qed.

Lemma loadConfigFile_no_loader fileName hint fs this :
  contentCache this !! resolve cwd fileName = None ->
  usedLoaderFor hint (resolve cwd fileName) = None ->
  loadConfigFile fileName hint fs this
  = mkRun (Thrown (ConfinodeError "noLoaderFound" (resolve cwd fileName))) this
      [Logged (mkMessage Trace "loadingFile" [resolve cwd fileName])].
Proof.
  intros Hc Hl. unfold loadConfigFile, bind, log, emit, getThis, throw. cbn. rewrite Hc.
  unfold usedLoaderFor in Hl. destruct hint as [l|]; [discriminate|]. now rewrite Hl.
Qed.

(** [loadConfigFile] throws before it changes anything. *)
Lemma loadConfigFile_thrown fileName hint fs this e :
  outcome (loadConfigFile fileName hint fs this) = Thrown e ->
  instance (loadConfigFile fileName hint fs this) = this.
Proof.
  destruct (contentCache this !! resolve cwd fileName) as [cached|] eqn:Hc.
  { now rewrite (loadConfigFile_hit _ _ _ _ _ Hc). }
  destruct (usedLoaderFor hint (resolve cwd fileName)) as [usedLoader|] eqn:Hl.
  - rewrite (loadConfigFile_miss _ _ _ _ _ Hc Hl).
    destruct (loadConfigFileContent fs _ _) as [e'|[content|]]; cbn; try discriminate;
      [reflexivity|].
    destruct (parse content _) as [e'|[parsed|]]; cbn; try discriminate. reflexivity.
  - now rewrite (loadConfigFile_no_loader _ _ _ _ Hc Hl).
Qed.

(** With the cache on, what [loadConfigFile] returns is in the cache under
    the resolved name of the file. *)
Lemma loadConfigFile_returned fileName hint fs this result :
  cache parameters = true ->
  outcome (loadConfigFile fileName hint fs this) = Returned result ->
  contentCache (instance (loadConfigFile fileName hint fs this)) !! resolve cwd fileName
  = Some result.
Proof.
  intros Hcache.
  destruct (contentCache this !! resolve cwd fileName) as [cached|] eqn:Hc.
  { rewrite (loadConfigFile_hit _ _ _ _ _ Hc). cbn. now intros [= <-]. }
  destruct (usedLoaderFor hint (resolve cwd fileName)) as [usedLoader|] eqn:Hl.
  - rewrite (loadConfigFile_miss _ _ _ _ _ Hc Hl). unfold storeContent. rewrite Hcache.
    destruct (loadConfigFileContent fs _ _) as [e'|[content|]]; cbn; try discriminate.
    + destruct (parse content _) as [e'|[parsed|]]; cbn; try discriminate;
        intros [= <-]; apply lookup_insert_eq.
    + intros [= <-]. apply lookup_insert_eq.
  - now rewrite (loadConfigFile_no_loader _ _ _ _ Hc Hl).
Qed.

Lemma loadConfigFile_no_error fileName hint fs this :
  loggedError (events (loadConfigFile fileName hint fs this)) = false.
Proof.
  pose proof (loadConfigFile_Emits (fun e => isError e = false)) as H.
  assert (forall ev, Forall (fun e => isError e = false) ev -> loggedError ev = false)
    as Hnone.
  { induction 1 as [|e ev He _ IH]; [reflexivity|]. cbn. now rewrite He. }
  apply Hnone, H; reflexivity.
Qed.

#[local] Arguments loadConfigFile : simpl never.

(** What [loadConfig] does with the file [require.resolve] gave, when it
    exists. *)
Definition loadResolved (fileName : string) : Gen (option ConfinodeResult) :=
  tryCatch (loadConfigFile fileName None) (fun e => logError Loading e ;;; ret None).

Definition fileNotFound (name : string) : Event :=
  Logged (internalMessage "fileNotFound" name).

(** The run of [loadConfig], by what [require.resolve] gives and what the
    file system answers. *)
Lemma syncLoad_run fs name this :
  syncLoad fs name this
  = match requireResolve name [cwd] with
    | Some fileName =>
        if String.eqb fileName "" then mkRun (Returned None) this [fileNotFound name]
        else
          match fileExits fs fileName with
          | inl e =>
              mkRun (Returned None) this
                (Requested (FileExits fileName) :: events (logError Loading e fs this))
          | inr false =>
              mkRun (Returned None) this
                [Requested (FileExits fileName); fileNotFound name]
          | inr true => after [Requested (FileExits fileName)] (loadResolved fileName fs this)
          end
    | None => mkRun (Returned None) this [fileNotFound name]
    end.
Proof.
  unfold syncLoad, syncExecute, loadConfig, loadResolved.
  destruct (requireResolve name [cwd]) as [fileName|]; [|reflexivity].
  destruct (String.eqb fileName ""); [reflexivity|].
  unfold tryCatch, bind at 1, requestFileExits, yieldRequest.
  destruct (fileExits fs fileName) as [e|[|]]; cbn.
  - destruct e; reflexivity.
  - destruct (loadConfigFile fileName None fs this) as [[r|e|] this' ev]; cbn;
      [reflexivity| |reflexivity].
    destruct (bind _ _ fs this') as [o this'' ev']. cbn. reflexivity.
  - reflexivity.
Qed.

Lemma loadResolved_run fileName fs this :
  let load := loadConfigFile fileName None fs this in
  match outcome load with
  | Returned result =>
      loadResolved fileName fs this = load
  | Thrown e =>
      loadResolved fileName fs this
      = mkRun (match e with Nullish => Thrown toStringOfNullish | _ => Returned None end)
          this (events load ++ events (logError Loading e fs this))
  | OutOfFuel => False
  end.
Proof.
  cbv zeta. unfold loadResolved, tryCatch.
  pose proof (loadConfigFile_Completes fileName None fs this) as Hcomp.
  pose proof (loadConfigFile_thrown fileName None fs this) as Hthrown.
  destruct (loadConfigFile fileName None fs this) as [[r|e|] this' ev]; cbn in *.
  - reflexivity.
  - rewrite (Hthrown e eq_refl). destruct e as [[id p|msg]|text|]; reflexivity.
  - now apply Hcomp.
Qed.

(** A load which logs an error returns [undefined] and leaves the
    instance as it found it: unlike a search, which caches [undefined]
    under the folder where an error was caught, a load caches no failure,
    and the next load of the name tries again. *)
Theorem failed_load_changes_nothing (fs : Gateway) (name : string) (this : Confinode) :
  loggedError (events (syncLoad fs name this)) = true ->
  outcome (syncLoad fs name this) = Returned None /\
  instance (syncLoad fs name this) = this.
Proof.
  rewrite syncLoad_run.
  destruct (requireResolve name [cwd]) as [fileName|]; [|now cbn].
  destruct (String.eqb fileName ""); [now cbn|].
  destruct (fileExits fs fileName) as [e|[|]]; [now cbn| |now cbn].
  rewrite events_after, outcome_after, instance_after.
  change (loggedError ([Requested ?r] ++ ?ev)) with (loggedError ev).
  pose proof (loadResolved_run fileName fs this) as Hrun. cbv zeta in Hrun.
  pose proof (loadConfigFile_no_error fileName None fs this) as Hquiet.
  destruct (outcome (loadConfigFile fileName None fs this)) as [result|e|];
    [| |contradiction]; rewrite Hrun.
  - rewrite Hquiet. discriminate.
  - cbn [events outcome instance].
    destruct e as [[id p|msg]|text|]; [now cbn..|].
    cbn [logError events throw]. rewrite app_nil_r, Hquiet. discriminate.
Qed.

(** With the cache on, after a load which returned and logged no error,
    the next load of the name, when the file system gives the same answer
    on the existence of the file, returns the same result, the same object
    when there is one, leaves the instance as it is, and only asks whether
    the file exists: the file is not read again, also when it was found
    empty. *)
Theorem second_load_reads_nothing (fs fs' : Gateway) (name fileName : string)
  (this : Confinode) (result : option ConfinodeResult) :
  let first := syncLoad fs name this in
  let second := syncLoad fs' name (instance first) in
  cache parameters = true ->
  requireResolve name [cwd] = Some fileName ->
  fileExits fs' fileName = fileExits fs fileName ->
  outcome first = Returned result ->
  loggedError (events first) = false ->
  outcome second = Returned result /\
  instance second = instance first /\
  requests (events second) = [FileExits fileName].
Proof.
  intros first second Hcache Hresolve Hsame. subst first second.
  rewrite !syncLoad_run, Hresolve, Hsame.
  destruct (String.eqb fileName ""); [now cbn|].
  destruct (fileExits fs fileName) as [e|[|]]; [destruct e; now cbn| |now cbn].
  rewrite events_after, !outcome_after, !instance_after.
  change (loggedError ([Requested ?r] ++ ?ev)) with (loggedError ev).
  pose proof (loadResolved_run fileName fs this) as Hrun. cbv zeta in Hrun.
  pose proof (loadConfigFile_returned fileName None fs this) as Hcached.
  destruct (outcome (loadConfigFile fileName None fs this)) as [loaded|e|] eqn:Ho;
    [| |contradiction]; rewrite Hrun.
  - rewrite Ho. intros [= <-] _. specialize (Hcached loaded Hcache eq_refl).
    pose proof (loadResolved_run fileName fs'
                  (instance (loadConfigFile fileName None fs this))) as Hrun'.
    cbv zeta in Hrun'. rewrite (loadConfigFile_hit _ _ _ _ _ Hcached) in Hrun'.
    cbn in Hrun'. rewrite Hrun', events_after. now cbn.
  - cbn [events outcome]. destruct e as [[id p|msg]|text|]; try discriminate;
      intros _; unfold loggedError; rewrite existsb_app; cbn;
      rewrite orb_true_r; discriminate.
Qed.

(** The load of an existing file for whose name the loader manager has no
    loader does not read the file: it logs that no loader was found for
    the resolved file, returns [undefined] and leaves the instance as it
    is. *)
Theorem load_without_loader (fs : Gateway) (name fileName : string) (this : Confinode) :
  let r := syncLoad fs name this in
  let absoluteFile := resolve cwd fileName in
  requireResolve name [cwd] = Some fileName ->
  fileName <> "" ->
  fileExits fs fileName = inr true ->
  contentCache this !! absoluteFile = None ->
  getLoaderFor (modulePaths parameters) (basename absoluteFile) None = None ->
  outcome r = Returned None /\
  instance r = this /\
  requests (events r) = [FileExits fileName] /\
  messages (events r)
  = [mkMessage Trace "loadingFile" [absoluteFile];
     mkMessage Error "noLoaderFound" [absoluteFile]].
Proof.
  intros r absoluteFile Hresolve Hname Hexists Hc Hloader. subst r.
  rewrite syncLoad_run, Hresolve, Hexists.
  apply String.eqb_neq in Hname. rewrite Hname.
  pose proof (loadResolved_run fileName fs this) as Hrun. cbv zeta in Hrun.
  rewrite (loadConfigFile_no_loader _ None _ _ Hc Hloader) in Hrun. cbn in Hrun.
  rewrite Hrun. now cbn.
Qed.

(** ** The start of a search *)

(** A search from a path which is not a folder is the search from the
    folder of the path: same outcome, same instance, same messages and
    requests after the first request. *)
Theorem search_from_file (fs : Gateway) (start : string) (this : Confinode) :
  let fromFile := syncSearch fs (Some start) this in
  let fromFolder := syncSearch fs (Some (dirname start)) this in
  isFolder fs start = inr false ->
  isFolder fs (dirname start) = inr true ->
  outcome fromFile = outcome fromFolder /\
  instance fromFile = instance fromFolder /\
  exists later,
    events fromFile = Requested (IsFolder start) :: later /\
    events fromFolder = Requested (IsFolder (dirname start)) :: later.
Proof.
  intros fromFile fromFolder Hfile Hfolder. subst fromFile fromFolder.
  pose proof (syncSearch_run fs (Some start) this) as H1.
  pose proof (syncSearch_run fs (Some (dirname start)) this) as H2.
  cbv zeta in H1, H2.
  change (default cwd (Some ?x)) with x in H1, H2.
  rewrite Hfile in H1. rewrite Hfolder in H2. rewrite H1, H2.
  rewrite !outcome_after, !instance_after, !events_after.
  repeat split. eexists. split; reflexivity.
Qed.

(** When the first request of a search fails, the search logs the error,
    goes through no folder, returns [undefined] and caches nothing: the
    next search asks again. *)
Theorem search_of_unreadable_start (fs : Gateway) (searchStart : option string)
  (this : Confinode) (e : Exn) :
  let r := syncSearch fs searchStart this in
  isFolder fs (default cwd searchStart) = inl e ->
  outcome r = Returned None /\
  instance r = this /\
  visitedFolders (events r) = [] /\
  requests (events r) = [IsFolder (default cwd searchStart)] /\
  loggedError (events r) = true.
Proof.
  intros r He. subst r.
  pose proof (syncSearch_run fs searchStart this) as H. cbv zeta in H.
  rewrite He in H. rewrite H. destruct e; now cbn.
Qed.

(** A search which logged an error returns [undefined]. *)
Lemma syncSearch_error fs searchStart this :
  loggedError (events (syncSearch fs searchStart this)) = true ->
  outcome (syncSearch fs searchStart this) = Returned None.
Proof.
  pose proof (syncSearch_run fs searchStart this) as H. cbv zeta in H.
  destruct (isFolder fs (default cwd searchStart)) as [e|b]; rewrite H; [reflexivity|].
  rewrite outcome_after, events_after. apply searchConfigFrom_error.
Qed.


(** ** The folders a search looks into *)

(** A description which goes down from the folder it is tried in: names
    of entries, with one slash between them ([.apprc],
    [.app/app.config]). *)
Definition downwardDescription (d : FileDescription) : bool :=
  match d with
  | FileBasename description => downwardName description
  | FileAndLoader name _ => downwardName name
  end.

(** The folder a request looks into: the folder it lists, or the folder
    of the file it tests or loads.  The first request of a search asks
    what its start is, and looks into no folder. *)
Definition inspectedFolder (e : Event) : option string :=
  match e with
  | Requested (FolderContent path) => Some path
  | Requested (FileExits path) => Some (dirname path)
  | Requested (LoadConfigFile path _) => Some (dirname path)
  | _ => None
  end.

Definition inspectedFolders (ev : list Event) : list string := collect inspectedFolder ev.

Lemma inspectedFolders_app ev1 ev2 :
  inspectedFolders (ev1 ++ ev2) = (inspectedFolders ev1 ++ inspectedFolders ev2)%list.
Proof. apply collect_app. Qed.

(** The listings of the file system, and those of the folder cache, hold
    names of entries. *)
Definition plainListings (fs : Gateway) : Prop :=
  forall path fileNames,
    folderContent fs path = inr fileNames -> Forall (fun n => plainName n = true) fileNames.

Definition plainFolderCache (this : Confinode) : Prop :=
  forall folderName fileNames,
    folderCache this !! folderName = Some fileNames ->
    Forall (fun n => plainName n = true) fileNames.

(** [d] is the folder [folder], or a folder under it: [d] is a resolved
    path, and [folder] is [d] or one of the folders above [d]. *)
Definition under (folder d : string) : Prop :=
  resolve cwd d = d /\ (d = folder \/ folder ∈ ancestors d).

(** A run which looks into no other folder than [folder]. *)
Definition looksInto (folder : string) (ev : list Event) : Prop :=
  Forall (fun d => d = folder) (inspectedFolders ev).

(** A run which looks into [folder] and under it only. *)
Definition looksUnder (folder : string) (ev : list Event) : Prop :=
  Forall (under folder) (inspectedFolders ev).

Lemma looksInto_app folder ev1 ev2 :
  looksInto folder ev1 -> looksInto folder ev2 -> looksInto folder (ev1 ++ ev2).
Proof. unfold looksInto. rewrite inspectedFolders_app. apply Forall_app_2. Qed.

Lemma looksUnder_app folder ev1 ev2 :
  looksUnder folder ev1 -> looksUnder folder ev2 -> looksUnder folder (ev1 ++ ev2).
Proof. unfold looksUnder. rewrite inspectedFolders_app. apply Forall_app_2. Qed.

Lemma looksInto_under folder d ev : under folder d -> looksInto d ev -> looksUnder folder ev.
Proof.
  intros Hd Hev. unfold looksInto, looksUnder in *.
  eapply Forall_impl; [exact Hev|]. now intros x ->.
Qed.

(** The path made of the names of a path and of more names is the path,
    or a folder under it. *)
Lemma under_path (segs init : list string) :
  Forall (fun seg => plainName seg = true) (segs ++ init) ->
  under (String "/" (String.concat "/" segs)) (String "/" (String.concat "/" (segs ++ init))).
Proof.
  induction init as [|x init IH] using rev_ind; intros Hall.
  - rewrite app_nil_r in *. split; [now apply resolve_of_plain | now left].
  - rewrite app_assoc in *. pose proof Hall as Hboth.
    apply Forall_app in Hboth as [Hbefore Hx].
    inversion Hx as [|? ? Hname _]; subst.
    destruct (IH Hbefore) as [Hres Hrel].
    pose proof (resolve_of_plain cwd _ Hall) as Hd.
    pose proof (dirname_snoc _ _ Hbefore Hname) as Hdir.
    assert (String "/" (String.concat "/" (segs ++ init))
            <> String "/" (String.concat "/" ((segs ++ init) ++ [x]))) as Hne.
    { intros E. apply (f_equal String.length) in E. cbn [String.length] in E.
      apply plainName_spec in Hname as (Hname & _).
      destruct x as [|c x]; [discriminate Hname|].
      assert (weight [String c x] = S (S (String.length x))) as Hw
        by (unfold weight; cbn; lia).
      rewrite !concat_length, !weight_app, Hw in E. lia. }
    split; [exact Hd|]. right.
    rewrite <- Hd, ancestors_unfold, Hd, Hdir.
    destruct (String.eqb_spec (String "/" (String.concat "/" (segs ++ init)))
                (String "/" (String.concat "/" ((segs ++ init) ++ [x])))) as [E|_];
      [contradiction|].
    rewrite Hres. destruct Hrel as [->|Hin]; [constructor|now constructor].
Qed.

Lemma under_resolved folder : under (resolve cwd folder) (resolve cwd folder).
Proof.
  destruct (resolve_plain cwd folder) as (segs & -> & Hsegs).
  split; [now apply resolve_of_plain | now left].
Qed.

(** A folder above a folder above [folder] is above [folder]. *)
Lemma ancestors_trans folder d v :
  d ∈ ancestors (resolve cwd folder) -> v ∈ ancestors d -> v ∈ ancestors (resolve cwd folder).
Proof.
  induction folder as [folder IH] using cascade_ind. rewrite ancestors_unfold.
  destruct (String.eqb_spec (dirname (resolve cwd folder)) (resolve cwd folder)) as [|Hne];
    [intros H; inversion H|].
  intros [->|Hd]%elem_of_cons Hv; apply list_elem_of_further; [exact Hv|].
  exact (IH Hne Hd Hv).
Qed.

(** A folder which is under a folder of the cascade, or this folder, is
    not above the stop folder when the folder of the cascade is not. *)
Lemma under_not_above stop folder d :
  under folder d ->
  folder ∉ ancestors (resolve cwd stop) -> d ∉ ancestors (resolve cwd stop).
Proof.
  intros [_ [->|Hin]] Hfolder Hd; [contradiction|].
  apply Hfolder. exact (ancestors_trans stop d folder Hd Hin).
Qed.

Lemma logError_inspects t e fs this : inspectedFolders (events (logError t e fs this)) = [].
Proof. destruct e as [[id p|msg]|text|], t; reflexivity. Qed.

Lemma caught_inspects fs above : inspectedFolders (caught fs above) = [].
Proof.
  unfold caught. destruct (outcome above); [reflexivity|apply logError_inspects|reflexivity].
Qed.

Lemma storeContent_folderCache path result this :
  folderCache (storeContent path result this) = folderCache this.
Proof. unfold storeContent. now destruct (cache parameters). Qed.

(** The files found by their names in the listing of a resolved folder
    are entries of the folder. *)
Lemma candidates_in_folder folder baseName fileNames found :
  Forall (fun n => plainName n = true) fileNames ->
  found ∈ collect (candidate (resolve cwd folder) baseName) fileNames ->
  dirname (foundFileName found) = resolve cwd folder /\
  resolve cwd (foundFileName found) = foundFileName found.
Proof.
  induction fileNames as [|n others IH]; [intros _ H; inversion H|].
  intros Hall. inversion Hall as [|? ? Hn Hothers]; subst. cbn [collect].
  unfold candidate at 1.
  destruct (getLoaderFor _ _ _) as [l|]; [|now apply IH].
  intros [->|Hin]%elem_of_cons; [|now apply IH].
  cbn [foundFileName]. now apply dirname_join.
Qed.

(** The folder a description which goes down is looked for in. *)
Lemma description_folder folder name :
  downwardName name = true ->
  exists x,
    dirname (join (resolve cwd folder) name) = resolve cwd x /\
    under (resolve cwd folder) (resolve cwd x) /\
    resolve cwd (join (resolve cwd folder) name) = join (resolve cwd folder) name.
Proof.
  intros Hname.
  destruct (dirname_join_downward cwd folder name Hname)
    as (segs & init & Hall & Hres & Hdir & Hjoin).
  pose proof (under_path segs init Hall) as Hunder. rewrite <- Hres in Hunder.
  exists (String "/" (String.concat "/" (segs ++ init))).
  rewrite (proj1 Hunder). auto.
Qed.

Lemma searchFileAndLoader_looks folder d fs this :
  let r := searchFileAndLoader (resolve cwd folder) d fs this in
  downwardDescription d = true ->
  plainListings fs ->
  plainFolderCache this ->
  looksUnder (resolve cwd folder) (events r) /\
  plainFolderCache (instance r) /\
  forall found,
    outcome r = Returned (Some found) ->
    under (resolve cwd folder) (dirname (foundFileName found)) /\
    resolve cwd (foundFileName found) = foundFileName found.
Proof.
  cbv zeta. intros Hd Hfs Hthis.
  destruct d as [description|fileName l]; unfold searchFileAndLoader; cbn in Hd.
  - destruct (description_folder folder description Hd) as (x & -> & Hunder & _).
    set (baseName := (basename description ++ ".")%string).
    assert (forall names : list string,
              Forall (fun n => plainName n = true) names ->
              forall first others,
                collect (candidate (resolve cwd x) baseName)
                  (List.filter (fun n => String.prefix baseName n) names) = first :: others ->
                under (resolve cwd folder) (dirname (foundFileName first)) /\
                resolve cwd (foundFileName first) = foundFileName first) as Hfirst.
    { intros names Hnames first others E.
      destruct (candidates_in_folder x baseName
                  (List.filter (fun n => String.prefix baseName n) names) first)
        as [Hdir Hres].
      - apply Forall_forall. intros n Hn. apply list_elem_of_In, filter_In in Hn as [Hn _].
        rewrite Forall_forall in Hnames. apply Hnames, list_elem_of_In, Hn.
      - rewrite E. constructor.
      - rewrite Hdir. now split. }
    unfold folderFileNames, bind, getThis, requestFolderContent, yieldRequest. cbn.
    destruct (folderCache this !! resolve cwd x) as [names|] eqn:Hl.
    + specialize (Hfirst names (Hthis _ _ Hl)). cbn.
      destruct (collect _ _) as [|first [|second others]]; cbn;
        (split; [constructor|]); (split; [exact Hthis|]); intros found [= <-]; eauto.
    + destruct (folderContent fs (resolve cwd x)) as [e|names] eqn:Hc; cbn.
      { split; [constructor; [exact Hunder|constructor]|]. split; [exact Hthis|]. discriminate. }
      specialize (Hfirst names (Hfs _ _ Hc)).
      assert (plainFolderCache
                (mkConfinode (<[resolve cwd x := names]> (folderCache this))
                   (contentCache this) (created this))) as Hthis'.
      { intros k v. cbn. rewrite lookup_insert. case_decide.
        - intros [= <-]. exact (Hfs _ _ Hc).
        - apply Hthis. }
      destruct (cache parameters); cbn;
        destruct (collect _ _) as [|first [|second others]]; cbn;
        (split; [constructor; [exact Hunder|constructor]|]); (split; [assumption|]);
        intros found [= <-]; eauto.
  - unfold bind, requestFileExits, yieldRequest.
    destruct (description_folder folder fileName Hd) as (x & Hdir & Hunder & Hres).
    destruct (fileExits fs (join (resolve cwd folder) fileName)) as [e|[|]]; cbn;
      (split; [constructor; [rewrite Hdir; exact Hunder|constructor]|]);
      (split; [exact Hthis|]); try discriminate.
    intros found [= <-]. cbn. rewrite Hdir. auto.
Qed.

Lemma loadingEvents_looks absoluteFile usedLoader :
  looksInto (dirname absoluteFile) (loadingEvents absoluteFile usedLoader).
Proof.
  unfold loadingEvents, looksInto.
  destruct (name usedLoader) as [n|]; [destruct (String.eqb n "")|]; repeat constructor.
Qed.

Lemma loadConfigFile_looks fileName hint fs this :
  let r := loadConfigFile fileName hint fs this in
  looksInto (dirname (resolve cwd fileName)) (events r) /\
  folderCache (instance r) = folderCache this.
Proof.
  cbv zeta.
  destruct (contentCache this !! resolve cwd fileName) as [cached|] eqn:Hc.
  { rewrite (loadConfigFile_hit _ _ _ _ _ Hc). split; [constructor|reflexivity]. }
  destruct (usedLoaderFor hint (resolve cwd fileName)) as [usedLoader|] eqn:Hl.
  - rewrite (loadConfigFile_miss _ _ _ _ _ Hc Hl).
    pose proof (loadingEvents_looks (resolve cwd fileName) usedLoader) as Hlooks.
    destruct (loadConfigFileContent fs _ _) as [e|[content|]]; cbn [instance events].
    + now split.
    + destruct (parse content _) as [e|[parsed|]]; cbn [instance events];
        rewrite ?storeContent_folderCache; now split.
    + rewrite storeContent_folderCache. split; [|reflexivity].
      apply looksInto_app; [exact Hlooks|constructor].
  - rewrite (loadConfigFile_no_loader _ _ _ _ Hc Hl). split; [constructor|reflexivity].
Qed.

Lemma searchConfigUsing_looks descriptions folder fs this :
  let r := searchConfigUsing descriptions (resolve cwd folder) fs this in
  forallb downwardDescription descriptions = true ->
  plainListings fs ->
  plainFolderCache this ->
  looksUnder (resolve cwd folder) (events r) /\ plainFolderCache (instance r).
Proof.
  cbv zeta. intros Hall Hfs. revert this.
  induction descriptions as [|d others IH]; intros this Hthis.
  - split; [constructor|exact Hthis].
  - cbn [forallb] in Hall. apply andb_true_iff in Hall as [Hd Hothers].
    specialize (IH Hothers). rewrite searchConfigUsing_cons.
    destruct (searchFileAndLoader_looks folder d fs this Hd Hfs Hthis)
      as (Hlooks & Hthis1 & Hfound).
    destruct (searchFileAndLoader (resolve cwd folder) d fs this)
      as [[[found|]|e|] this1 ev1]; cbn [outcome instance events] in *.
    + destruct (Hfound found eq_refl) as [Hdir Hres].
      pose proof (loadConfigFile_looks (foundFileName found)
                    (Some (mkLoaderDescription (foundLoaderName found) (foundLoader found)))
                    fs this1) as [Hload Hsame].
      cbv zeta in Hload, Hsame. rewrite Hres in Hload.
      apply (looksInto_under _ _ _ Hdir) in Hload.
      assert (plainFolderCache
                (instance (loadConfigFile (foundFileName found)
                   (Some (mkLoaderDescription (foundLoaderName found) (foundLoader found)))
                   fs this1))) as Hthis2
        by (unfold plainFolderCache; rewrite Hsame; exact Hthis1).
      destruct (loadConfigFile _ _ fs this1) as [[[r|]|e|] this2 ev2];
        cbn [outcome instance events] in *.
      * split; [|exact Hthis2].
        apply looksUnder_app; [exact Hlooks|]. apply looksUnder_app; [exact Hload|constructor].
      * destruct (IH this2 Hthis2) as [Hrest Hthis3].
        rewrite events_after, instance_after. split; [|exact Hthis3].
        apply looksUnder_app; [|exact Hrest]. now apply looksUnder_app.
      * split; [now apply looksUnder_app|exact Hthis2].
      * split; [now apply looksUnder_app|exact Hthis2].
    + destruct (IH this1 Hthis1) as [Hrest Hthis3].
      rewrite events_after, instance_after. split; [|exact Hthis3].
      now apply looksUnder_app.
    + now split.
    + now split.
Qed.

(** With descriptions which go down and listings of names of entries,
    the cascade looks into the folders it goes through and under them,
    and into no other folder. *)
Lemma searchConfigInFolder_looks folder :
  forallb downwardDescription (files parameters) = true ->
  forall fs this,
    let r := searchConfigInFolder folder fs this in
    plainListings fs ->
    plainFolderCache this ->
    (forall d, d ∈ inspectedFolders (events r) ->
               exists v, v ∈ visitedFolders (events r) /\ under v d) /\
    plainFolderCache (instance r).
Proof.
  intros Hplain. induction folder as [folder IH] using cascade_ind.
  intros fs this. cbv zeta. intros Hfs Hthis.
  destruct (contentCache this !! resolve cwd folder) as [cached|] eqn:Hc.
  { rewrite (searchConfigInFolder_cached _ _ _ _ Hc). split; [|exact Hthis].
    intros d Hd. inversion Hd. }
  pose proof (searchConfigUsing_Completes (files parameters) (resolve cwd folder) fs this)
    as Hcomp. fold (searchConfigUsingDescriptions (resolve cwd folder)) in Hcomp.
  destruct (searchConfigUsing_looks (files parameters) folder fs this Hplain Hfs Hthis)
    as [Hlooks Hthis1].
  fold (searchConfigUsingDescriptions (resolve cwd folder)) in Hlooks, Hthis1.
  unfold looksUnder in Hlooks. rewrite Forall_forall in Hlooks.
  assert (forall result,
            plainFolderCache
              (storeContent (resolve cwd folder) result
                 (instance (searchConfigUsingDescriptions (resolve cwd folder) fs this))))
    as Hstored by (intros result; unfold plainFolderCache;
                   rewrite storeContent_folderCache; exact Hthis1).
  assert (forall ev d,
            d ∈ inspectedFolders
                  (searchInFolderMessage (resolve cwd folder)
                     :: events (searchConfigUsingDescriptions (resolve cwd folder) fs this)
                     ++ ev) ->
            inspectedFolders ev = [] ->
            exists v, v ∈ [resolve cwd folder] /\ under v d) as Hhere.
  { intros ev d Hd Hev. change (inspectedFolders (searchInFolderMessage ?a :: ?l))
      with (inspectedFolders l) in Hd.
    rewrite inspectedFolders_app, Hev, app_nil_r in Hd.
    exists (resolve cwd folder). split; [constructor|exact (Hlooks d Hd)]. }
  destruct (outcome (searchConfigUsingDescriptions (resolve cwd folder) fs this))
    as [[r|]|e|] eqn:Ho; [| | |contradiction].
  - rewrite (searchConfigInFolder_found _ _ _ _ Hc Ho). cbn [events instance].
    split; [|apply Hstored]. intros d Hd.
    rewrite visitedFolders_searchInFolder, searchConfigUsingDescriptions_visits.
    rewrite <- (app_nil_r (events _)) in Hd. exact (Hhere [] d Hd eq_refl).
  - destruct (String.eqb_spec (resolve cwd folder) (searchStop parameters)) as [Hstop|Hstop];
      [|destruct (String.eqb_spec (dirname (resolve cwd folder)) (resolve cwd folder))
          as [Hroot|Hroot]].
    1, 2: rewrite (searchConfigInFolder_last _ _ _ Hc Ho) by auto; cbn [events instance];
      (split; [|apply Hstored]); intros d Hd;
      rewrite visitedFolders_searchInFolder, searchConfigUsingDescriptions_visits;
      rewrite <- (app_nil_r (events _)) in Hd; exact (Hhere [] d Hd eq_refl).
    destruct (searchConfigInFolder_parent _ _ _ Hc Ho Hstop Hroot) as (result & Hres & ->).
    destruct (IH Hroot fs _ Hfs Hthis1) as [Habove Hthis2].
    cbn [events instance]. split.
    + intros d Hd.
      rewrite visitedFolders_searchInFolder, !visitedFolders_app,
        searchConfigUsingDescriptions_visits, caught_visits, app_nil_r. cbn [app].
      change (inspectedFolders (searchInFolderMessage ?a :: ?l))
        with (inspectedFolders l) in Hd.
      rewrite !inspectedFolders_app, caught_inspects, app_nil_r in Hd.
      apply elem_of_app in Hd as [Hd|Hd].
      * exists (resolve cwd folder). split; [constructor|exact (Hlooks d Hd)].
      * destruct (Habove d Hd) as (v & Hv & Hunder).
        exists v. split; [now apply list_elem_of_further|exact Hunder].
    + unfold plainFolderCache. rewrite storeContent_folderCache. exact Hthis2.
  - rewrite (searchConfigInFolder_thrown _ _ _ _ Hc Ho). cbn [events instance]. split.
    + intros d Hd.
      rewrite visitedFolders_searchInFolder, visitedFolders_app,
        searchConfigUsingDescriptions_visits, logError_visits.
      exact (Hhere _ d Hd (logError_inspects _ _ _ _)).
    + destruct e as [e|text|]; [apply Hstored..|exact Hthis1].
Qed.

(** C3, as the code has it. When the stop folder is the folder the
    cascade starts in or a folder above it, no folder of the cascade is
    strictly above the stop folder; and when the file descriptions go
    down from the folder they are tried in (names of entries, with one
    slash between them), the listings giving names of entries, every
    folder the search looks into (a folder it lists, or the folder of a
    file it tests or loads) is a folder of the cascade or a folder under
    one: none is strictly above the stop folder.  In a folder where the
    descriptions give a result, which is the stop folder, or which is its
    own parent, the cascade ends: no other folder is gone through. *)
Theorem cascade_stays_below_stop (fs : Gateway) (searchStart : option string)
  (this : Confinode) (root : string) :
  let r := syncSearch fs searchStart this in
  searchRoot fs searchStart = Some root ->
  searchStop parameters = root \/ searchStop parameters ∈ ancestors root ->
  forallb downwardDescription (files parameters) = true ->
  plainListings fs ->
  plainFolderCache this ->
  (forall d, d ∈ visitedFolders (events r) -> d ∉ ancestors (searchStop parameters)) /\
  (forall d, d ∈ inspectedFolders (events r) ->
             exists v, v ∈ visitedFolders (events r) /\ (d = v \/ v ∈ ancestors d)) /\
  (forall d, d ∈ inspectedFolders (events r) -> d ∉ ancestors (searchStop parameters)) /\
  (forall folder this',
     let absoluteFolder := resolve cwd folder in
     (exists result, outcome (searchConfigUsingDescriptions absoluteFolder fs this')
                     = Returned (Some result))
     \/ absoluteFolder = searchStop parameters
     \/ dirname absoluteFolder = absoluteFolder ->
     visitedFolders (events (searchConfigInFolder folder fs this')) = [absoluteFolder]).
Proof.
  intros r Hroot Hstop Hplain Hfs Hthis. subst r.
  pose proof (syncSearch_run fs searchStart this) as H. cbv zeta in H.
  unfold searchRoot in Hroot.
  destruct (isFolder fs (default cwd searchStart)) as [e|b]; [discriminate|].
  injection Hroot as <-. rewrite H, events_after.
  change (visitedFolders ([Requested ?r] ++ ?ev)) with (visitedFolders ev).
  change (inspectedFolders ([Requested (IsFolder ?p)] ++ ?ev)) with (inspectedFolders ev).
  set (folder := if b then default cwd searchStart else dirname (default cwd searchStart))
    in *.
  rewrite searchConfigFrom_visits.
  assert (forall d, d ∈ visitedFolders (events (searchConfigInFolder folder fs this)) ->
                    d ∉ ancestors (searchStop parameters)) as Hvisited
    by (intros d; now apply visited_below_stop).
  assert (forall d, d ∈ inspectedFolders (events (searchConfigFrom folder fs this)) ->
                    exists v, v ∈ visitedFolders (events (searchConfigInFolder folder fs this))
                              /\ under v d)
    as Hinspected.
  { destruct (searchConfigInFolder_looks folder Hplain fs this Hfs Hthis) as [Hlooks _].
    rewrite searchConfigFrom_run.
    destruct (outcome (searchConfigInFolder folder fs this)); try exact Hlooks.
    cbn [events]. intros d Hd.
    rewrite inspectedFolders_app, logError_inspects, app_nil_r in Hd. now apply Hlooks. }
  assert (exists stop, searchStop parameters = resolve cwd stop) as [stop Hresolved].
  { destruct Hstop as [->|Hin]; [now exists folder|].
    apply ancestors_shorter in Hin as [_ Hx]. exact Hx. }
  split; [exact Hvisited|]. split; [|split].
  - intros d Hd. destruct (Hinspected d Hd) as (v & Hv & _ & Hunder). now exists v.
  - intros d Hd. destruct (Hinspected d Hd) as (v & Hv & Hunder).
    specialize (Hvisited v Hv). rewrite Hresolved in *.
    exact (under_not_above stop v d Hunder Hvisited).
  - intros folder' this' a Hend.
    destruct (contentCache this' !! a) as [cached|] eqn:Hc.
    { now rewrite (searchConfigInFolder_cached _ _ _ _ Hc). }
    pose proof (searchConfigUsing_Completes (files parameters) a fs this') as Hcomp.
    fold (searchConfigUsingDescriptions a) in Hcomp.
    destruct (outcome (searchConfigUsingDescriptions a fs this'))
      as [[result|]|e'|] eqn:Ho; [| | |contradiction].
    + rewrite (searchConfigInFolder_found _ _ _ _ Hc Ho). cbn [events].
      now rewrite visitedFolders_searchInFolder, searchConfigUsingDescriptions_visits.
    + destruct Hend as [[result Hr]|Hlast]; [discriminate|].
      rewrite (searchConfigInFolder_last _ _ _ Hc Ho Hlast). cbn [events].
      now rewrite visitedFolders_searchInFolder, searchConfigUsingDescriptions_visits.
    + rewrite (searchConfigInFolder_thrown _ _ _ _ Hc Ho). cbn [events].
      now rewrite visitedFolders_searchInFolder, visitedFolders_app,
        searchConfigUsingDescriptions_visits, logError_visits.
Qed.

(** C10. The stop folder is recognised by the equality of strings between
    the resolved folder and [searchStop] as it was given: the cascade of
    any search follows the chain of the folders above its start and ends
    at the first one which is equal to [searchStop], at the latest.  When
    the search returns nothing, without an error and without an answer
    from the cache, the cascade went through all the folders of the chain
    up to this one; when none is equal to [searchStop], it went through
    all of them, up to the folder which is its own parent. *)
Theorem stop_test_is_string_equality (fs : Gateway) (searchStart : option string)
  (this : Confinode) (root : string) :
  let r := syncSearch fs searchStart this in
  let visited := visitedFolders (events r) in
  searchRoot fs searchStart = Some root ->
  visited `prefix_of` upTo (searchStop parameters) (root :: ancestors root) /\
  (outcome r = Returned None ->
   loggedError (events r) = false ->
   answeredFromCache (events r) = false ->
   visited = upTo (searchStop parameters) (root :: ancestors root) /\
   ((forall folder, folder ∈ visited -> folder <> searchStop parameters) ->
    visited = root :: ancestors root /\
    exists top, last visited = Some top /\ dirname top = top)).
Proof.
  intros r visited Hroot. subst r visited.
  pose proof (syncSearch_run fs searchStart this) as H. cbv zeta in H.
  unfold searchRoot in Hroot.
  destruct (isFolder fs (default cwd searchStart)) as [e|b]; [discriminate|].
  injection Hroot as <-. rewrite H, events_after, outcome_after.
  change (visitedFolders ([Requested ?r] ++ ?ev)) with (visitedFolders ev).
  change (loggedError ([Requested ?r] ++ ?ev)) with (loggedError ev).
  change (answeredFromCache ([Requested ?r] ++ ?ev)) with (answeredFromCache ev).
  set (folder := if b then default cwd searchStart else dirname (default cwd searchStart)).
  rewrite searchConfigFrom_visits. split; [apply visited_prefix|].
  rewrite searchConfigFrom_run.
  pose proof (cascade_reaches_stop folder fs this) as Hreach.
  destruct (outcome (searchConfigInFolder folder fs this)) as [result|e|] eqn:Ho.
  - cbv iota. rewrite Ho. intros [= ->] Hquiet Hmiss.
    specialize (Hreach eq_refl Hquiet Hmiss). split; [exact Hreach|].
    intros Hnone.
    assert (searchStop parameters
            ∉ resolve cwd folder :: ancestors (resolve cwd folder)) as Hnot.
    { intros Hin. apply upTo_present in Hin. rewrite <- Hreach in Hin.
      now apply (Hnone _ Hin). }
    rewrite upTo_absent in Hreach by exact Hnot. split; [exact Hreach|].
    rewrite Hreach. apply ancestors_last.
  - cbn [outcome events]. intros _ Hquiet. exfalso. revert Hquiet.
    rewrite loggedError_app.
    pose proof (searchConfigInFolder_terminates folder fs this) as Hterm.
    rewrite Ho in Hterm. destruct Hterm as [e' ->].
    destruct e'; cbn; rewrite orb_true_r; discriminate.
  - cbv iota. rewrite Ho. discriminate.
Qed.

End Engine.

(** ** Files given with their loader *)

Definition isFileAndLoader (d : FileDescription) : bool :=
  match d with
  | FileAndLoader _ _ => true
  | FileBasename _ => false
  end.

Section LoaderManagers.

Context {Content Parsed : Type}.
Variable cwd : string.
Variable parameters : ConfinodeParameters.
Variable parse : Content -> ParserContext -> Throwable + option Parsed.

(** Two loader managers. *)
Variables getLoaderFor getLoaderFor' :
  list string -> string -> option string -> option LoaderDescription.

Lemma loadConfigFile_with_loader fileName l fs this :
  loadConfigFile cwd parameters getLoaderFor parse fileName (Some l) fs this
  = loadConfigFile cwd parameters getLoaderFor' parse fileName (Some l) fs this.
Proof.
  destruct (contentCache this !! resolve cwd fileName) as [cached|] eqn:Hc.
  - now rewrite !(loadConfigFile_hit _ _ _ _ _ _ _ _ _ Hc).
  - now rewrite !(loadConfigFile_miss _ _ _ _ _ (Some l) _ _ l Hc eq_refl).
Qed.

Lemma searchConfigUsing_with_loaders descriptions folder fs this :
  forallb isFileAndLoader descriptions = true ->
  searchConfigUsing cwd parameters getLoaderFor parse descriptions folder fs this
  = searchConfigUsing cwd parameters getLoaderFor' parse descriptions folder fs this.
Proof.
  revert this. induction descriptions as [|d others IH]; intros this Hall; [reflexivity|].
  cbn [forallb] in Hall. apply andb_true_iff in Hall as [Hd Hothers].
  destruct d as [description|fileName l]; [discriminate|].
  rewrite !searchConfigUsing_cons.
  change (searchFileAndLoader parameters getLoaderFor' folder (FileAndLoader fileName l)
            fs this)
    with (searchFileAndLoader parameters getLoaderFor folder (FileAndLoader fileName l)
            fs this).
  destruct (searchFileAndLoader parameters getLoaderFor folder (FileAndLoader fileName l)
              fs this) as [[[found|]|e|] this1 ev1]; try reflexivity.
  - rewrite loadConfigFile_with_loader.
    destruct (loadConfigFile _ _ getLoaderFor' _ _ _ fs this1) as [[[r|]|e|] this2 ev2];
      try reflexivity.
    now rewrite IH.
  - now rewrite IH.
Qed.

Lemma searchConfigInFolderFuel_with_loaders fuel folder fs this :
  forallb isFileAndLoader (files parameters) = true ->
  searchConfigInFolderFuel cwd parameters getLoaderFor parse fuel folder fs this
  = searchConfigInFolderFuel cwd parameters getLoaderFor' parse fuel folder fs this.
Proof.
  intros Hall. revert folder fs this.
  induction fuel as [|fuel IH]; intros folder fs this; [reflexivity|].
  cbn [searchConfigInFolderFuel]. unfold searchConfigInFolderBody.
  generalize (resolve cwd folder) as a. intros a.
  unfold bind at 1 2 3. unfold bind at 4 5 6. cbn.
  destruct (contentCache this !! a); [reflexivity|].
  unfold bind, tryCatch, searchConfigUsingDescriptions.
  rewrite (searchConfigUsing_with_loaders _ a fs this Hall).
  destruct (searchConfigUsing cwd parameters getLoaderFor' parse (files parameters) a fs this)
    as [[[r|]|e|] this1 ev1]; try reflexivity.
  destruct (negb (a =? searchStop parameters)%string); [|reflexivity].
  destruct (dirname a =? a)%string; cbn; [reflexivity|].
  now rewrite IH.
Qed.

(** When every file description gives its loader, the loader manager has
    no part in a search: with another loader manager the search runs the
    same, to the same result. *)
Theorem files_with_loader_ignore_the_loader_manager (fs : Gateway)
  (searchStart : option string) (this : Confinode) :
  forallb isFileAndLoader (files parameters) = true ->
  syncSearch cwd parameters getLoaderFor parse fs searchStart this
  = syncSearch cwd parameters getLoaderFor' parse fs searchStart this.
Proof.
  intros Hall. unfold syncSearch, syncExecute, searchConfig, tryCatch, bind,
    requestIsFolder, yieldRequest, searchConfigInFolder, failing.
  destruct (isFolder fs (default cwd searchStart)) as [e|b]; [reflexivity|].
  cbv beta iota. now rewrite searchConfigInFolderFuel_with_loaders.
Qed.

End LoaderManagers.

(** ** The options and the constructor *)

Inductive Mode := Async | Sync.

(** The option [files]: file descriptions, or filters of the default
    file descriptions. *)
Inductive FilesOption :=
| Descriptions (descriptions : list FileDescription)
| Filters (filters : list (list FileDescription -> list FileDescription)).

(** The option [modulePaths]: [string | string[]]. *)
Inductive ModulePathsOption :=
| OnePath (path : string)
| Paths (paths : list string).

(** [ConfinodeOptions], without the logger and the custom loaders (see
    [ConfinodeParameters]).  An option which is absent, [undefined] or
    [null] is [None]: the constructor does not tell them apart. *)
Record ConfinodeOptions := mkOptions {
  optionCache : option bool;
  optionSearchStop : option string;
  optionModulePaths : option ModulePathsOption;
  optionFiles : option FilesOption;
  optionMode : option Mode }.

(** [filesAreFilters(files)]:
    [files.length === 0 || typeof files[0] === 'function']. *)
Definition filesAreFilters (files : FilesOption) : bool :=
  match files with
  | Descriptions [] => true
  | Descriptions (_ :: _) => false
  | Filters [] => true
  | Filters (_ :: _) => true
  end.

(** The array of the option, read as descriptions and read as filters. *)
Definition descriptionsOf (files : FilesOption) : list FileDescription :=
  match files with
  | Descriptions descriptions => descriptions
  | Filters _ => []
  end.

Definition filtersOf (files : FilesOption)
  : list (list FileDescription -> list FileDescription) :=
  match files with
  | Descriptions _ => []
  | Filters filters => filters
  end.

(** The console, for the default logger. *)
Inductive ConsoleCall :=
| ConsoleError (text : string)
| ConsoleLog (text : string).

Section Construction.

Context {Content Parsed : Type}.

(** [process.cwd()] and [os.homedir()]. *)
Variable cwd : string.
Variable homedir : string.

(** [defaultFiles(name)], of the module [FileDescription]. *)
Variable defaultFiles : string -> list FileDescription.

(** [message.toString()], of the module [messages]. *)
Variable toString : Message -> string.

(** The loader manager, the same for every instance:
    [new LoaderManager()]. *)
Variable getLoaderFor : list string -> string -> option string -> option LoaderDescription.

(** [defaultLogger(message)]: an error goes to [console.error], a warning
    to [console.log], and the other messages nowhere. *)
Definition defaultLogger (message : Message) : list ConsoleCall :=
  match level message with
  | Error => [ConsoleError (toString message)]
  | Warning => [ConsoleLog (toString message)]
  | _ => []
  end.

(** What the default logger writes for the messages of a run. *)
Definition consoleOf (ev : list Event) : list ConsoleCall :=
  flat_map defaultLogger (messages ev).

(** The parameters and the mode the constructor computes from the name
    and the options: the options which are given replace the defaults
    [cache: true] and [searchStop: homedir()]; the module paths are
    resolved and the working directory put first; the files are the given
    descriptions, or the default ones, through the given filters; the mode
    is [async] unless given.  [defaultConfig] has no module paths:
    without the option, or with a string, [modulePaths.map] is a
    [TypeError]. *)
Definition constructParameters (name : string) (options : option ConfinodeOptions)
  : Exn + ConfinodeParameters * Mode :=
  let cache := default true (options ≫= optionCache) in
  let searchStop := default homedir (options ≫= optionSearchStop) in
  match options ≫= optionModulePaths with
  | Some (Paths paths) =>
      let modulePaths := cwd :: map (resolve cwd) paths in
      let given := options ≫= optionFiles in
      let files :=
        match given with
        | Some files => if filesAreFilters files then defaultFiles name
                        else descriptionsOf files
        | None => defaultFiles name
        end in
      let files :=
        match given with
        | Some filters =>
            if filesAreFilters filters
            then fold_left (fun previous filter => filter previous) (filtersOf filters) files
            else files
        | None => files
        end in
      inr (mkParameters cache searchStop modulePaths files,
           default Async (options ≫= optionMode))
  | Some (OnePath _) => inl (JsError "TypeError: this.parameters.modulePaths.map is not a function")
  | None => inl (JsError "TypeError: Cannot read property 'map' of undefined")
  end.

(** Without a logger in the options, the logger is the default one: a
    search which returns a configuration writes nothing on
    [console.error], and what it writes on [console.log] are its
    warnings. *)
Theorem found_configuration_prints_no_error (parameters : ConfinodeParameters)
  (parse : Content -> ParserContext -> Throwable + option Parsed) (fs : Gateway)
  (searchStart : option string) (this : Confinode) (result : ConfinodeResult) :
  let r := syncSearch cwd parameters getLoaderFor parse fs searchStart this in
  outcome r = Returned (Some result) ->
  consoleOf (events r)
  = map (fun m => ConsoleLog (toString m))
      (List.filter (fun m => match level m with Warning => true | _ => false end)
         (messages (events r))).
Proof.
  intros r Hfound. subst r.
  assert (loggedError (events (syncSearch cwd parameters getLoaderFor parse fs
                                 searchStart this)) = false) as Hquiet.
  { destruct (loggedError _) eqn:E; [|reflexivity].
    apply syncSearch_error in E. congruence. }
  revert Hquiet. unfold consoleOf.
  generalize (events (syncSearch cwd parameters getLoaderFor parse fs searchStart this)).
  intros ev. induction ev as [|e ev IH]; [reflexivity|].
  destruct e as [[[] id ps]|request]; cbn; intros Hquiet; try discriminate;
    first [exact (IH Hquiet) | f_equal; exact (IH Hquiet)].
Qed.

(** An object of the class: its parameters, its mode, the parser of its
    description and its caches. *)
Record ConfinodeObject := mkObject {
  objectParameters : ConfinodeParameters;
  objectMode : Mode;
  objectParse : Content -> ParserContext -> Throwable + option Parsed;
  objectState : @Confinode Parsed }.

(** [asyncSearch], [syncSearch], [asyncLoad] and [syncLoad] are methods:
    four functions of the prototype, which the objects share.  The
    constructor sets the property [sync] of the first and of the third, or
    the property [async] of the second and of the fourth, to a closure
    over the object it builds; the property holds this object here (its
    place in the heap). *)
Record Prototype := mkPrototype {
  asyncSearch_sync : option nat;
  syncSearch_async : option nat;
  asyncLoad_sync : option nat;
  syncLoad_async : option nat }.

(** The objects built so far, in order, and the prototype. *)
Record Program := mkProgram {
  heap : list ConfinodeObject;
  prototype : Prototype }.

(** [new Confinode(name, description, options)]: the place of the new
    object, or the exception of the constructor. *)
Definition newConfinode (name : string)
  (description : Content -> ParserContext -> Throwable + option Parsed)
  (options : option ConfinodeOptions) (program : Program) : Program * (Exn + nat) :=
  match constructParameters name options with
  | inl e => (program, inl e)
  | inr (parameters, mode) =>
      let this := List.length (heap program) in
      let shared := prototype program in
      (mkProgram
         (heap program ++ [mkObject parameters mode description (mkConfinode ∅ ∅ 0)])
         (match mode with
          | Async => mkPrototype (Some this) (syncSearch_async shared)
                                 (Some this) (syncLoad_async shared)
          | Sync => mkPrototype (asyncSearch_sync shared) (Some this)
                                (asyncLoad_sync shared) (Some this)
          end),
       inr this)
  end.

(** The object on which [object.search.sync] (in async mode) or
    [object.search.async] (in sync mode) searches: [object.search] is the
    method of the mode of the object, and the property is the one the
    last constructor left on it. *)
Definition otherSearchOf (program : Program) (place : nat) : option nat :=
  match heap program !! place with
  | Some this =>
      match objectMode this with
      | Async => asyncSearch_sync (prototype program)
      | Sync => syncSearch_async (prototype program)
      end
  | None => None
  end.

(** The same for [object.load.sync] and [object.load.async]. *)
Definition otherLoadOf (program : Program) (place : nat) : option nat :=
  match heap program !! place with
  | Some this =>
      match objectMode this with
      | Async => asyncLoad_sync (prototype program)
      | Sync => syncLoad_async (prototype program)
      end
  | None => None
  end.

(** [object.search(searchStart)], the object being [this]: the run, and
    the program with the caches of the object after the run. *)
Definition searchOn (fs : Gateway) (place : nat) (searchStart : option string)
  (program : Program) : option (Program * Run (option ConfinodeResult)) :=
  match heap program !! place with
  | Some this =>
      let r := syncSearch cwd (objectParameters this) getLoaderFor (objectParse this)
                 fs searchStart (objectState this) in
      Some (mkProgram
              (<[place := mkObject (objectParameters this) (objectMode this)
                            (objectParse this) (instance r)]> (heap program))
              (prototype program),
            r)
  | None => None
  end.

(** [object.search.sync(searchStart)] or
    [object.search.async(searchStart)]. *)
Definition searchOtherOn (fs : Gateway) (place : nat) (searchStart : option string)
  (program : Program) : option (Program * Run (option ConfinodeResult)) :=
  match otherSearchOf program place with
  | Some target => searchOn fs target searchStart program
  | None => None
  end.

(** The constructor succeeds exactly when the options give the module
    paths as an array: there is no default for them, so that
    [new Confinode(name)] throws.  The module paths of the object are then
    the working directory followed by the given paths, resolved: absolute
    paths. *)
Theorem constructor_needs_module_paths (name : string) (options : option ConfinodeOptions) :
  match constructParameters name options with
  | inr (parameters, mode) =>
      exists paths,
        options ≫= optionModulePaths = Some (Paths paths) /\
        modulePaths parameters = cwd :: map (resolve cwd) paths /\
        Forall (fun path => isAbsolute path = true) (tail (modulePaths parameters))
  | inl e => forall paths, options ≫= optionModulePaths <> Some (Paths paths)
  end /\
  exists e, constructParameters name None = inl e.
Proof.
  split; [|eexists; reflexivity]. unfold constructParameters.
  destruct (options ≫= optionModulePaths) as [[path|paths]|] eqn:E.
  - discriminate.
  - exists paths. split; [reflexivity|]. split; [reflexivity|]. cbn.
    apply Forall_forall. intros path Hin. apply list_elem_of_fmap in Hin as (p & -> & _).
    apply resolve_absolute.
  - discriminate.
Qed.

(** What the options change in the defaults.  The cache is on unless the
    option is [false]; the stop folder is the home directory and the mode
    [async] unless given.  Descriptions are used as they are; with no
    option [files] and with an empty array the files are the default
    ones; filters are applied to the default files from the first to the
    last, each one to the result of the one before it. *)
Theorem options_replace_defaults (name : string) (options : ConfinodeOptions)
  (parameters : ConfinodeParameters) (mode : Mode) :
  constructParameters name (Some options) = inr (parameters, mode) ->
  cache parameters = default true (optionCache options) /\
  searchStop parameters = default homedir (optionSearchStop options) /\
  mode = default Async (optionMode options) /\
  match optionFiles options with
  | Some (Descriptions (d :: others)) => files parameters = d :: others
  | Some (Descriptions []) | None => files parameters = defaultFiles name
  | Some (Filters filters) =>
      files parameters
      = fold_left (fun previous filter => filter previous) filters (defaultFiles name) /\
      forall before last,
        filters = (before ++ [last])%list ->
        files parameters
        = last (fold_left (fun previous filter => filter previous) before (defaultFiles name))
  end.
Proof.
  unfold constructParameters. cbn [mbind option_bind].
  destruct (optionModulePaths options) as [[path|paths]|]; try discriminate.
  intros [= <- <-]. cbn [cache searchStop files].
  repeat split.
  destruct (optionFiles options) as [[[|d others]|[|f filters]]|]; cbn; try reflexivity.
  - split; [reflexivity|]. intros [|? ?] last; discriminate.
  - split; [reflexivity|]. intros before last Heq.
    change (fold_left (fun previous filter => filter previous) filters (f (defaultFiles name)))
      with (fold_left (fun previous filter => filter previous) (f :: filters)
              (defaultFiles name)).
    rewrite Heq, fold_left_app. reflexivity.
Qed.

Lemma newConfinode_place name description options program program' place :
  newConfinode name description options program = (program', inr place) ->
  exists parameters mode,
    constructParameters name options = inr (parameters, mode) /\
    place = List.length (heap program) /\
    heap program'
    = (heap program ++ [mkObject parameters mode description (mkConfinode ∅ ∅ 0)])%list /\
    prototype program'
    = match mode with
      | Async => mkPrototype (Some place) (syncSearch_async (prototype program))
                             (Some place) (syncLoad_async (prototype program))
      | Sync => mkPrototype (asyncSearch_sync (prototype program)) (Some place)
                            (asyncLoad_sync (prototype program)) (Some place)
      end.
Proof.
  unfold newConfinode.
  destruct (constructParameters name options) as [e|[parameters mode]]; [discriminate|].
  intros [= <- <-]. exists parameters, mode. auto.
Qed.

(** The methods [sync] and [async] of [search] and [load] belong to the
    shared methods, not to the object.  Just after an object is built they
    work on it; once a second object is built in the same mode, they work
    on the second object also when they are called through the first one:
    [first.search.sync(start)] searches with the parameters and the caches
    of the second object and leaves the first one as it is.  An object
    built in the other mode changes nothing to them. *)
Theorem later_object_takes_over_other_mode (program program1 program2 : Program)
  (nameA nameB : string)
  (descriptionA descriptionB : Content -> ParserContext -> Throwable + option Parsed)
  (optionsA optionsB : option ConfinodeOptions) (a b : nat) :
  newConfinode nameA descriptionA optionsA program = (program1, inr a) ->
  newConfinode nameB descriptionB optionsB program1 = (program2, inr b) ->
  a <> b /\
  otherSearchOf program1 a = Some a /\
  otherLoadOf program1 a = Some a /\
  (default Async (optionsA ≫= optionMode) = default Async (optionsB ≫= optionMode) ->
   otherSearchOf program2 a = Some b /\
   otherLoadOf program2 a = Some b /\
   forall fs searchStart,
     searchOtherOn fs a searchStart program2 = searchOn fs b searchStart program2 /\
     forall program3 r,
       searchOtherOn fs a searchStart program2 = Some (program3, r) ->
       heap program3 !! a = heap program2 !! a) /\
  (default Async (optionsA ≫= optionMode) <> default Async (optionsB ≫= optionMode) ->
   otherSearchOf program2 a = Some a /\
   otherLoadOf program2 a = Some a).
Proof.
  intros HA HB.
  destruct (newConfinode_place _ _ _ _ _ _ HA) as (pA & mA & HcA & -> & HheapA & HprotoA).
  destruct (newConfinode_place _ _ _ _ _ _ HB) as (pB & mB & HcB & -> & HheapB & HprotoB).
  assert (mA = default Async (optionsA ≫= optionMode)) as HmA.
  { unfold constructParameters in HcA.
    destruct (optionsA ≫= optionModulePaths) as [[|]|]; now inversion HcA. }
  assert (mB = default Async (optionsB ≫= optionMode)) as HmB.
  { unfold constructParameters in HcB.
    destruct (optionsB ≫= optionModulePaths) as [[|]|]; now inversion HcB. }
  rewrite <- HmA, <- HmB.
  assert (List.length (heap program) <> List.length (heap program1)) as Hne
    by (rewrite HheapA, length_app; cbn; lia).
  assert (heap program1 !! List.length (heap program)
          = Some (mkObject pA mA descriptionA (mkConfinode ∅ ∅ 0))) as Hcell1.
  { rewrite HheapA. apply list_lookup_middle. reflexivity. }
  assert (heap program2 !! List.length (heap program)
          = Some (mkObject pA mA descriptionA (mkConfinode ∅ ∅ 0))) as Hcell2.
  { rewrite HheapB. rewrite lookup_app_l; [exact Hcell1|].
    rewrite HheapA, length_app. cbn. lia. }
  assert (otherSearchOf program2 (List.length (heap program))
          = match mA with
            | Async => asyncSearch_sync (prototype program2)
            | Sync => syncSearch_async (prototype program2)
            end) as Hother by (unfold otherSearchOf; now rewrite Hcell2).
  split; [exact Hne|].
  split; [unfold otherSearchOf; rewrite Hcell1, HprotoA; now destruct mA|].
  split; [unfold otherLoadOf; rewrite Hcell1, HprotoA; now destruct mA|].
  split.
  - intros <-.
    assert (otherSearchOf program2 (List.length (heap program))
            = Some (List.length (heap program1))) as Htarget
      by (rewrite Hother, HprotoB; now destruct mA).
    split; [exact Htarget|].
    split; [unfold otherLoadOf; rewrite Hcell2, HprotoB; now destruct mA|].
    intros fs searchStart. unfold searchOtherOn. rewrite Htarget.
    split; [reflexivity|]. intros program3 r. unfold searchOn.
    destruct (heap program2 !! List.length (heap program1)) as [this|]; [|discriminate].
    intros [= <- _]. cbn [heap]. apply list_lookup_insert_ne. congruence.
  - intros Hmodes.
    split; [rewrite Hother|unfold otherLoadOf; rewrite Hcell2];
      rewrite HprotoB, HprotoA; destruct mA, mB; try reflexivity; contradiction.
Qed.

End Construction.

(** ** Single or array *)

(** The data given to a parser: an array of data, or any other value. *)
#[warnings="-register-all"]
Inductive Data :=
| DataArray (items : list Data)
| DataValue (value : string).

Section SingleOrArray.

Context {Result : Type}.

(** [ArrayDescription.parse], the parser of the class which
    [SingleOrArrayDescription] extends. *)
Variable superParse : Data -> ParserContext -> option Result.

(** [Array.isArray(data) ? data : [data]]. *)
Definition singleOrArray (data : Data) : Data :=
  match data with
  | DataArray _ => data
  | DataValue _ => DataArray [data]
  end.

(** [SingleOrArrayDescription.parse(data, context)]. *)
Definition singleOrArrayParse (data : Data) (context : ParserContext) : option Result :=
  superParse (singleOrArray data) context.

(** An array, whatever its length and its items, is given to the parser
    of arrays as it is, so that an item which is itself an array has to
    be given in an array; a value which is not an array is parsed as the
    array which holds it alone; so the parser of arrays is only given
    arrays, and wrapping twice is wrapping once. *)
Theorem single_is_parsed_as_array_of_one (data : Data) (context : ParserContext) :
  (forall items,
     singleOrArrayParse (DataArray items) context = superParse (DataArray items) context) /\
  (forall value,
     singleOrArrayParse (DataValue value) context
     = superParse (DataArray [DataValue value]) context /\
     singleOrArrayParse (DataValue value) context
     = singleOrArrayParse (DataArray [DataValue value]) context) /\
  (exists items, singleOrArray data = DataArray items) /\
  singleOrArray (singleOrArray data) = singleOrArray data /\
  singleOrArrayParse (singleOrArray data) context = singleOrArrayParse data context.
Proof.
  unfold singleOrArrayParse.
  split; [reflexivity|]. split; [intros value; split; reflexivity|].
  destruct data as [items|value]; cbn; eauto.
Qed.

End SingleOrArray.

(** ** A project tree

    The engine on a small tree: the project [/home/u/proj] with its
    [package.json] and its sources, the home [/home/u] of the user with two
    configuration files, and [/tmp/x] outside of the home. *)

Definition exampleCwd : string := "/home/u/proj".

Definition exampleFiles : list FileDescription :=
  [FileBasename ".apprc"; FileAndLoader "package.json" "packageJson"].

Definition exampleParameters : ConfinodeParameters :=
  mkParameters true "/home/u" [exampleCwd] exampleFiles.

(** The same, without cache. *)
Definition uncachedParameters : ConfinodeParameters :=
  mkParameters false "/home/u" [exampleCwd] exampleFiles.

(** [package.json] first, then [.apprc], then [.other]. *)
Definition orderedParameters : ConfinodeParameters :=
  mkParameters true "/home/u" [exampleCwd]
    [FileAndLoader "package.json" "packageJson"; FileBasename ".apprc";
     FileBasename ".other"].

(** One description which no file matches, the stop folder being written
    with a slash at its end. *)
Definition slashParameters : ConfinodeParameters :=
  mkParameters true "/home/u/" [exampleCwd] [FileBasename ".other"].

(** A description which names a file of a folder of the folder, before
    [.apprc]. *)
Definition nestedParameters : ConfinodeParameters :=
  mkParameters true "/home/u" [exampleCwd]
    [FileBasename ".app/app.config"; FileBasename ".apprc"].

(** One description, which names a file of the parent folder. *)
Definition parentParameters : ConfinodeParameters :=
  mkParameters true "/home/u" [exampleCwd] [FileBasename "../.apprc"].

(** Loaders for the extensions [yaml] and [json]. *)
Definition exampleLoaderFor (_ : list string) (_ : string) (extension : option string)
  : option LoaderDescription :=
  match extension with
  | Some extension =>
      if String.eqb extension "yaml" then Some (mkLoaderDescription (Some "yaml") "yamlLoader")
      else if String.eqb extension "json" then Some (mkLoaderDescription None "jsonLoader")
      else None
  | None => None
  end.

(** Any content is a configuration. *)
Definition exampleParse (content : string) (_ : ParserContext) : Throwable + option string :=
  inr (Some content).

(** A parser which throws [undefined]. *)
Definition throwingParse (_ : string) (_ : ParserContext) : Throwable + option string :=
  inl Nullish.

(** Only absolute names are resolved. *)
Definition exampleRequireResolve (name : string) (_ : list string) : option string :=
  if isAbsolute name then Some name else None.

Definition exampleFolders : list string :=
  ["/"; "/home"; "/home/u"; "/home/u/proj"; "/home/u/proj/src"; "/tmp"; "/tmp/x"].

Definition exampleContent (path : string) : list string :=
  if String.eqb path "/home/u" then [".apprc.yaml"; ".apprc.json"; "notes.txt"]
  else if String.eqb path "/home/u/proj" then ["src"; "package.json"]
  else if String.eqb path "/home/u/proj/src" then ["main.ts"]
  else if String.eqb path "/home" then ["u"]
  else if String.eqb path "/" then ["home"; "tmp"]
  else if String.eqb path "/tmp" then ["x"]
  else [].

Definition exampleFileNames : list string :=
  ["/home/u/proj/package.json"; "/home/u/.apprc.yaml"; "/home/u/.apprc.json";
   "/home/u/notes.txt"; "/home/u/proj/src/main.ts"].

(** The project has a [package.json] which says nothing of the
    application: its loader gives [undefined]. *)
Definition exampleLoad (path : string) (l : Loader) : Throwable + option string :=
  if String.eqb path "/home/u/proj/package.json" then inr None
  else if String.eqb path "/home/u/.apprc.yaml" then inr (Some "verbose: true")
  else inl (AnError (JsError "ENOENT")).

Definition exampleFs : @Gateway string :=
  mkGateway
    (fun path => inr (existsb (String.eqb path) exampleFolders))
    (fun path => inr (existsb (String.eqb path) exampleFileNames))
    (fun path => inr (exampleContent path))
    exampleLoad.


(** The same tree, the loader of the configuration of the home folder
    throwing [undefined]. *)
Definition throwingFs : @Gateway string :=
  mkGateway
    (isFolder exampleFs)
    (fileExits exampleFs)
    (folderContent exampleFs)
    (fun path l =>
       if String.eqb path "/home/u/.apprc.yaml" then inl Nullish else exampleLoad path l).

(** A new instance. *)
Definition initial : @Confinode string := mkConfinode ∅ ∅ 0.

Definition exampleSearch (parameters : ConfinodeParameters) (fs : Gateway)
  (searchStart : string) (this : Confinode) : Run (option ConfinodeResult) :=
  syncSearch exampleCwd parameters exampleLoaderFor exampleParse fs (Some searchStart) this.

(** The same search, with the parser which throws [undefined]. *)
Definition throwingSearch (fs : Gateway) (searchStart : string) (this : Confinode)
  : Run (option ConfinodeResult) :=
  syncSearch exampleCwd exampleParameters exampleLoaderFor throwingParse fs
    (Some searchStart) this.

(** The configuration of the home folder. *)
Definition homeResult (identity : nat) : @ConfinodeResult string :=
  mkConfinodeResult identity "verbose: true" (mkResultFile "/home/u/.apprc.yaml" []).

(** A loader manager which knows the files by their names. *)
Definition nameLoaderFor (_ : list string) (fileName : string) (_ : option string)
  : option LoaderDescription :=
  if String.eqb fileName "package.json"
  then Some (mkLoaderDescription (Some "package") "packageJson")
  else if String.eqb fileName ".apprc.yaml"
  then Some (mkLoaderDescription (Some "yaml") "yamlLoader")
  else None.

(** A loader manager which knows nothing. *)
Definition noLoaderFor (_ : list string) (_ : string) (_ : option string)
  : option LoaderDescription := None.

(** The parameters with [package.json] as only file. *)
Definition packageParameters : ConfinodeParameters :=
  mkParameters true "/home/u" [exampleCwd] [FileAndLoader "package.json" "packageJson"].

(** A file system which answers nothing. *)
Definition offlineFs : @Gateway string :=
  mkGateway (fun _ => inl (JsError "EIO")) (fun _ => inl (JsError "EIO"))
            (fun _ => inl (JsError "EIO")) (fun _ _ => inl (AnError (JsError "EIO"))).


(** A file system which only tells what file exists. *)
Definition filesOnlyFs : @Gateway string :=
  mkGateway (isFolder offlineFs) (fileExits exampleFs) (folderContent offlineFs)
            (loadConfigFileContent offlineFs).


(** The listings of the example hold names of entries. *)
Lemma example_listings_plain : plainListings exampleFs.
Proof.
  intros path names. cbn. unfold exampleContent. intros [= <-].
  repeat destruct (String.eqb _ _); repeat constructor.
Qed.

Lemma initial_folderCache_plain : plainFolderCache initial.
Proof.
  intros folderName fileNames H.
  assert (folderCache initial !! folderName = None) as E by apply lookup_empty.
  rewrite E in H. discriminate H.
Qed.

(** From the sources of the project, the search finds nothing in the
    sources, an empty [package.json] in the project, and two matching
    files in the home folder: it warns and loads the first one. *)
Example search_from_sources :
  let r := exampleSearch exampleParameters exampleFs "/home/u/proj/src" initial in
  outcome r = Returned (Some (homeResult 0)) /\
  visitedFolders (events r) = ["/home/u/proj/src"; "/home/u/proj"; "/home/u"] /\
  requests (events r)
  = [IsFolder "/home/u/proj/src";
     FolderContent "/home/u/proj/src"; FileExits "/home/u/proj/src/package.json";
     FolderContent "/home/u/proj"; FileExits "/home/u/proj/package.json";
     LoadConfigFile "/home/u/proj/package.json" "packageJson";
     FolderContent "/home/u"; LoadConfigFile "/home/u/.apprc.yaml" "yamlLoader"] /\
  List.filter (fun m => match level m with Warning => true | _ => false end)
    (messages (events r))
  = [mkMessage Warning "multipleFiles" ["/home/u/.apprc"]].
Proof. vm_compute. repeat split. Qed.

(** *** The error of [log]

    A file of the home folder is loaded and the parser of the description
    throws [undefined]: [log] cannot log it and throws a [TypeError]. *)

(** C1. The load by name throws the [TypeError] to its caller, and logs
    no error; the same happens when it is the loader which throws
    [undefined]. *)
Lemma load_throws_when_parser_throws_undefined :
  let r := syncLoad exampleCwd exampleParameters nameLoaderFor throwingParse
             exampleRequireResolve exampleFs "/home/u/.apprc.yaml" initial in
  let r' := syncLoad exampleCwd exampleParameters nameLoaderFor exampleParse
              exampleRequireResolve throwingFs "/home/u/.apprc.yaml" initial in
  outcome r = Thrown toStringOfNullish /\
  requests (events r)
  = [FileExits "/home/u/.apprc.yaml"; LoadConfigFile "/home/u/.apprc.yaml" "yamlLoader"] /\
  List.filter (fun m => match level m with Error => true | _ => false end)
    (messages (events r)) = [] /\
  outcome r' = Thrown toStringOfNullish /\
  List.filter (fun m => match level m with Error => true | _ => false end)
    (messages (events r')) = [].
Proof. vm_compute. repeat split. Qed.

(** C5. With the cache on, the search from the home folder returns
    [undefined] after the error of [log] was logged as an internal error,
    and leaves nothing in the content cache: the search which follows it
    reads the file again. *)
Lemma second_search_reads_again_after_thrown_undefined :
  let first := throwingSearch exampleFs "/home/u" initial in
  let second := throwingSearch exampleFs "/home/u" (instance first) in
  cache exampleParameters = true /\
  outcome first = Returned None /\
  requests (events first)
  = [IsFolder "/home/u"; FolderContent "/home/u";
     LoadConfigFile "/home/u/.apprc.yaml" "yamlLoader"] /\
  outcome second = Returned None /\
  requests (events second)
  = [IsFolder "/home/u"; LoadConfigFile "/home/u/.apprc.yaml" "yamlLoader"].
Proof. vm_compute. repeat split. Qed.

(** C9. With the cache on, the home folder, which the search went
    through, has no entry in the content cache when the search is over. *)
Lemma visited_folder_not_cached_after_thrown_undefined :
  let r := throwingSearch exampleFs "/home/u" initial in
  cache exampleParameters = true /\
  outcome r = Returned None /\
  visitedFolders (events r) = ["/home/u"] /\
  contentCache (instance r) !! "/home/u" = None /\
  List.filter (fun m => match level m with Error => true | _ => false end)
    (messages (events r))
  = [mkMessage Error "internalError"
       ["Cannot read property 'toString' of undefined"]].
Proof. vm_compute. repeat split. Qed.

(** *** The cascade on the tree *)



(** The start is outside of the stop folder: the cascade goes up to the
    root, and lists it: the root is above the stop folder.  And from the
    stop folder itself, a description which names a file of the parent
    folder makes the search list the parent folder. *)
Lemma search_outside_home_reaches_root :
  let r := exampleSearch exampleParameters exampleFs "/tmp/x" initial in
  let r' := exampleSearch parentParameters exampleFs "/home/u" initial in
  ancestors exampleCwd (searchStop exampleParameters) = ["/home"; "/"] /\
  visitedFolders (events r) = ["/tmp/x"; "/tmp"; "/"] /\
  requests (events r)
  = [IsFolder "/tmp/x";
     FolderContent "/tmp/x"; FileExits "/tmp/x/package.json";
     FolderContent "/tmp"; FileExits "/tmp/package.json";
     FolderContent "/"; FileExits "/package.json"] /\
  inspectedFolders (events r) = ["/tmp/x"; "/tmp/x"; "/tmp"; "/tmp"; "/"; "/"] /\
  visitedFolders (events r') = ["/home/u"] /\
  requests (events r') = [IsFolder "/home/u"; FolderContent "/home"] /\
  inspectedFolders (events r') = ["/home"].
Proof. vm_compute. repeat split. Qed.

Lemma search_from_project_stays_in_home :
  let r := exampleSearch nestedParameters exampleFs "/home/u/proj" initial in
  visitedFolders (events r) = ["/home/u/proj"; "/home/u"] /\
  inspectedFolders (events r)
  = ["/home/u/proj/.app"; "/home/u/proj"; "/home/u/.app"; "/home/u"; "/home/u"] /\
  Forall (fun d => d ∉ ancestors exampleCwd (searchStop nestedParameters))
    (visitedFolders (events r)) /\
  Forall (fun d => d ∉ ancestors exampleCwd (searchStop nestedParameters))
    (inspectedFolders (events r)).
Proof.
  assert (searchStop nestedParameters = "/home/u/proj"
          \/ searchStop nestedParameters ∈ ancestors exampleCwd "/home/u/proj")
    as Hstop by (right; vm_compute; apply list_elem_of_here).
  destruct (cascade_stays_below_stop exampleCwd nestedParameters exampleLoaderFor
              exampleParse exampleFs (Some "/home/u/proj") initial "/home/u/proj"
              eq_refl Hstop eq_refl example_listings_plain initial_folderCache_plain)
    as (Hvisited & _ & Hbelow & _).
  cbv zeta. split; [reflexivity|]. split; [reflexivity|].
  split; apply Forall_forall; assumption.
Defined.

(** In the home folder, [package.json] is missing, [.apprc] matches, and
    the description after it is not tried. *)
Lemma first_match_wins_in_home :
  let r := searchConfigInFolder exampleCwd orderedParameters exampleLoaderFor exampleParse
             "/home/u" exampleFs initial in
  outcome r = Returned (Some (homeResult 0)) /\
  visitedFolders (events r) = ["/home/u"] /\
  requests (events r)
  = [FileExits "/home/u/package.json"; FolderContent "/home/u";
     LoadConfigFile "/home/u/.apprc.yaml" "yamlLoader"].
Proof.
  destruct (first_match_wins exampleCwd orderedParameters exampleLoaderFor exampleParse
              exampleFs initial "/home/u"
              [FileAndLoader "package.json" "packageJson"] [FileBasename ".other"]
              (FileBasename ".apprc")
              (mkFoundFile "/home/u/.apprc.yaml" (Some "yaml") "yamlLoader")
              (homeResult 0) eq_refl eq_refl eq_refl eq_refl eq_refl)
    as (Hhere & Hsearch & Hvisited & _).
  cbv zeta. split; [now rewrite Hsearch|]. split; [exact Hvisited|].
  rewrite Hsearch. cbn [events]. rewrite Hhere. reflexivity.
Defined.

(** In the project, [package.json] is empty: [.apprc] and [.other] are
    tried after it, and then the home folder. *)
Lemma empty_package_json :
  let r := searchConfigInFolder exampleCwd orderedParameters exampleLoaderFor exampleParse
             "/home/u/proj" exampleFs initial in
  let load := loadConfigFile exampleCwd orderedParameters exampleLoaderFor exampleParse
                "/home/u/proj/package.json"
                (Some (mkLoaderDescription None "packageJson")) exampleFs initial in
  outcome load = Returned None /\
  contentCache (instance load) !! "/home/u/proj/package.json" = Some None /\
  requests (events (searchConfigUsingDescriptions exampleCwd orderedParameters
                      exampleLoaderFor exampleParse "/home/u/proj" exampleFs initial))
  = [FileExits "/home/u/proj/package.json";
     LoadConfigFile "/home/u/proj/package.json" "packageJson";
     FolderContent "/home/u/proj"] /\
  visitedFolders (events r) = ["/home/u/proj"; "/home/u"] /\
  outcome r = Returned (Some (homeResult 0)).
Proof.
  destruct (empty_result_keeps_searching exampleCwd orderedParameters exampleLoaderFor
              exampleParse exampleFs initial "/home/u/proj" []
              [FileBasename ".apprc"; FileBasename ".other"]
              (FileAndLoader "package.json" "packageJson")
              (mkFoundFile "/home/u/proj/package.json" None "packageJson")
              eq_refl eq_refl eq_refl eq_refl eq_refl eq_refl)
    as (Ho & Hi & Hhere & _ & Habove).
  destruct (Habove eq_refl ltac:(discriminate) ltac:(discriminate))
    as (Hvisited & _ & Hresult).
  cbv zeta. split; [exact Ho|].
  split; [etransitivity; [exact (f_equal (fun i => contentCache i !! _) Hi)|reflexivity]|].
  split; [etransitivity; [exact (f_equal (fun run => requests (events run)) Hhere)
                         |reflexivity]|].
  split; [etransitivity; [exact Hvisited|reflexivity]|].
  apply Hresult. reflexivity.
Defined.

(** The two configuration files of the home folder. *)
Lemma first_match_in_home :
  let r := searchFileAndLoader exampleParameters exampleLoaderFor
             "/home/u" (FileBasename ".apprc") exampleFs initial in
  outcome r = Returned (Some (mkFoundFile "/home/u/.apprc.yaml" (Some "yaml") "yamlLoader")) /\
  messages (events r) = [mkMessage Warning "multipleFiles" ["/home/u/.apprc"]].
Proof.
  destruct (basename_picks_first_match exampleParameters exampleLoaderFor
              "/home/u" ".apprc" exampleFs initial
              [".apprc.yaml"; ".apprc.json"; "notes.txt"] eq_refl)
    as (Ho & Hm & _).
  split; [exact Ho | exact Hm].
Defined.

(** The configuration file of the home folder. *)
Lemma load_of_home_configuration :
  outcome (loadConfigFile exampleCwd exampleParameters exampleLoaderFor exampleParse
             "/home/u/.apprc.yaml" (Some (mkLoaderDescription (Some "yaml") "yamlLoader"))
             exampleFs initial)
  = Returned (Some (homeResult 0)).
Proof.
  exact (proj1 (loaded_content_is_parsed_and_wrapped exampleCwd exampleParameters
                  exampleLoaderFor exampleParse
                  "/home/u/.apprc.yaml" (Some (mkLoaderDescription (Some "yaml") "yamlLoader"))
                  exampleFs initial (mkLoaderDescription (Some "yaml") "yamlLoader")
                  "verbose: true" eq_refl eq_refl eq_refl)).
Defined.

(** [searchStop] is [/home/u/], with a slash at its end: no resolved
    folder is equal to it, and the cascade goes up to the root. *)
Lemma search_misses_slashed_stop :
  let visited := visitedFolders
                   (events (exampleSearch slashParameters exampleFs "/home/u/proj" initial)) in
  visited = ["/home/u/proj"; "/home/u"; "/home"; "/"] /\
  exists top, last visited = Some top /\ dirname top = top.
Proof.
  destruct (stop_test_is_string_equality exampleCwd slashParameters exampleLoaderFor
              exampleParse exampleFs (Some "/home/u/proj") initial "/home/u/proj" eq_refl)
    as (_ & Hreach).
  destruct (Hreach eq_refl eq_refl eq_refl) as (_ & Hall).
  apply Hall. intros folder Hin. vm_compute in Hin.
  repeat (apply elem_of_cons in Hin as [->|Hin]; [discriminate|]). inversion Hin.
Defined.

(** *** More of the tree *)



(** Without the cache, the second search loads the file again and makes a
    new result. *)
Example uncached_searches_differ :
  let first := exampleSearch uncachedParameters exampleFs "/home/u" initial in
  let second := exampleSearch uncachedParameters exampleFs "/home/u" (instance first) in
  outcome first = Returned (Some (homeResult 0)) /\
  outcome second = Returned (Some (homeResult 1)) /\
  requests (events second)
  = [IsFolder "/home/u"; FolderContent "/home/u";
     LoadConfigFile "/home/u/.apprc.yaml" "yamlLoader"].
Proof. vm_compute. repeat split. Qed.


Lemma uncached_search_writes_nothing :
  sameCaches initial (instance (exampleSearch uncachedParameters exampleFs "/home/u" initial)).
Proof.
  exact (proj1 (cache_off_never_writes exampleCwd uncachedParameters exampleLoaderFor
                  exampleParse exampleRequireResolve exampleFs initial eq_refl)
           (Some "/home/u")).
Defined.

Lemma chain_of_search_from_sources :
  let visited := visitedFolders
                   (events (exampleSearch exampleParameters exampleFs
                              "/home/u/proj/src" initial)) in
  visited `prefix_of` ["/home/u/proj/src"; "/home/u/proj"; "/home/u"] /\
  NoDup visited /\
  List.length visited <= 16.
Proof.
  exact (cascade_follows_the_chain exampleCwd exampleParameters exampleLoaderFor
           exampleParse exampleFs (Some "/home/u/proj/src") initial "/home/u/proj/src"
           eq_refl).
Defined.


(** A load of a name which does not resolve. *)
Lemma failed_load_of_missing_yaml :
  let r := syncLoad exampleCwd exampleParameters exampleLoaderFor exampleParse
             exampleRequireResolve exampleFs "./missing.yaml" initial in
  outcome r = Returned None /\ instance r = initial.
Proof.
  exact (failed_load_changes_nothing exampleCwd exampleParameters exampleLoaderFor
           exampleParse exampleRequireResolve exampleFs "./missing.yaml" initial eq_refl).
Defined.

(** The configuration of the home folder, loaded twice by its name: the
    second load does not need the file system for more than the
    existence of the file. *)
Lemma second_load_of_home_configuration :
  let first := syncLoad exampleCwd exampleParameters nameLoaderFor exampleParse
                 exampleRequireResolve exampleFs "/home/u/.apprc.yaml" initial in
  let second := syncLoad exampleCwd exampleParameters nameLoaderFor exampleParse
                  exampleRequireResolve filesOnlyFs "/home/u/.apprc.yaml"
                  (instance first) in
  outcome first = Returned (Some (homeResult 0)) /\
  outcome second = Returned (Some (homeResult 0)) /\
  instance second = instance first /\
  requests (events second) = [FileExits "/home/u/.apprc.yaml"].
Proof.
  split; [reflexivity|].
  exact (second_load_reads_nothing exampleCwd exampleParameters nameLoaderFor exampleParse
           exampleRequireResolve exampleFs filesOnlyFs
           "/home/u/.apprc.yaml" "/home/u/.apprc.yaml" initial (Some (homeResult 0))
           eq_refl eq_refl eq_refl eq_refl eq_refl).
Defined.

(** The loader manager of the example does not know [package.json] by
    its name. *)
Lemma load_of_package_json_without_loader :
  let r := syncLoad exampleCwd exampleParameters exampleLoaderFor exampleParse
             exampleRequireResolve exampleFs "/home/u/proj/package.json" initial in
  outcome r = Returned None /\
  instance r = initial /\
  requests (events r) = [FileExits "/home/u/proj/package.json"] /\
  messages (events r)
  = [mkMessage Trace "loadingFile" [resolve exampleCwd "/home/u/proj/package.json"];
     mkMessage Error "noLoaderFound" [resolve exampleCwd "/home/u/proj/package.json"]].
Proof.
  apply (load_without_loader exampleCwd exampleParameters exampleLoaderFor exampleParse
           exampleRequireResolve exampleFs "/home/u/proj/package.json"
           "/home/u/proj/package.json" initial eq_refl); [discriminate | reflexivity..].
Defined.

(** A search from the [package.json] of the project is a search from the
    project. *)
Lemma search_from_package_json :
  let fromFile := exampleSearch exampleParameters exampleFs
                    "/home/u/proj/package.json" initial in
  let fromFolder := syncSearch exampleCwd exampleParameters exampleLoaderFor exampleParse
                      exampleFs (Some (dirname "/home/u/proj/package.json")) initial in
  outcome fromFile = outcome fromFolder /\
  instance fromFile = instance fromFolder /\
  exists later,
    events fromFile = Requested (IsFolder "/home/u/proj/package.json") :: later /\
    events fromFolder
    = Requested (IsFolder (dirname "/home/u/proj/package.json")) :: later.
Proof.
  exact (search_from_file exampleCwd exampleParameters exampleLoaderFor exampleParse
           exampleFs "/home/u/proj/package.json" initial eq_refl eq_refl).
Defined.

(** A search when the file system answers nothing. *)
Lemma search_when_offline :
  let r := syncSearch exampleCwd exampleParameters exampleLoaderFor exampleParse
             offlineFs None initial in
  outcome r = Returned None /\
  instance r = initial /\
  visitedFolders (events r) = [] /\
  requests (events r) = [IsFolder exampleCwd] /\
  loggedError (events r) = true.
Proof.
  exact (search_of_unreadable_start exampleCwd exampleParameters exampleLoaderFor
           exampleParse offlineFs None initial (JsError "EIO") eq_refl).
Defined.

(** With [package.json] as only file, the loader manager is not used. *)
Lemma package_search_without_loader_manager :
  syncSearch exampleCwd packageParameters exampleLoaderFor exampleParse exampleFs
    (Some "/home/u/proj/src") initial
  = syncSearch exampleCwd packageParameters noLoaderFor exampleParse exampleFs
      (Some "/home/u/proj/src") initial.
Proof.
  exact (files_with_loader_ignore_the_loader_manager exampleCwd packageParameters
           exampleParse exampleLoaderFor noLoaderFor exampleFs (Some "/home/u/proj/src")
           initial eq_refl).
Defined.

(** The text of a message, for the console of the example. *)
Definition exampleToString (m : Message) : string := messageId m.

(** The search from the sources warns once on the console. *)
Lemma console_of_search_from_sources :
  let r := exampleSearch exampleParameters exampleFs "/home/u/proj/src" initial in
  consoleOf exampleToString (events r)
  = map (fun m => ConsoleLog (exampleToString m))
      (List.filter (fun m => match level m with Warning => true | _ => false end)
         (messages (events r))).
Proof.
  exact (found_configuration_prints_no_error exampleCwd exampleToString exampleLoaderFor
           exampleParameters exampleParse exampleFs (Some "/home/u/proj/src") initial
           (homeResult 0) eq_refl).
Defined.

(** Options which turn the cache off and keep the last default file. *)
Definition exampleOptions : ConfinodeOptions :=
  mkOptions (Some false) None (Some (Paths ["lib"]))
            (Some (Filters [@tail FileDescription])) (Some Sync).

(** Options with the module paths only. *)
Definition plainOptions : ConfinodeOptions :=
  mkOptions None None (Some (Paths [])) None None.

Definition exampleDefaultFiles (_ : string) : list FileDescription := exampleFiles.

Lemma parameters_of_example_options :
  let parameters :=
    mkParameters false "/home/u" [exampleCwd; "/home/u/proj/lib"]
                 [FileAndLoader "package.json" "packageJson"] in
  constructParameters exampleCwd "/home/u" exampleDefaultFiles "app" (Some exampleOptions)
  = inr (parameters, Sync) /\
  cache parameters = false /\
  searchStop parameters = "/home/u" /\
  files parameters = tail exampleFiles.
Proof.
  assert (constructParameters exampleCwd "/home/u" exampleDefaultFiles "app"
            (Some exampleOptions)
          = inr (mkParameters false "/home/u" [exampleCwd; "/home/u/proj/lib"]
                   [FileAndLoader "package.json" "packageJson"], Sync)) as H
    by reflexivity.
  destruct (options_replace_defaults exampleCwd "/home/u" exampleDefaultFiles "app"
              exampleOptions _ _ H) as (Hcache & Hstop & _ & Hfiles & _).
  cbv zeta. split; [exact H|]. split; [exact Hcache|]. split; [exact Hstop|exact Hfiles].
Defined.

(** Two objects in async mode: the second takes [search.sync] and
    [load.sync] over. *)
Lemma two_async_objects :
  let start := mkProgram [] (mkPrototype None None None None) in
  let program1 := fst (newConfinode (Parsed := string) exampleCwd "/home/u"
                         exampleDefaultFiles "app" exampleParse (Some plainOptions) start) in
  let program2 := fst (newConfinode exampleCwd "/home/u" exampleDefaultFiles "other"
                         exampleParse (Some plainOptions) program1) in
  otherSearchOf program1 0 = Some 0 /\
  otherSearchOf program2 0 = Some 1 /\
  otherLoadOf program2 0 = Some 1.
Proof.
  destruct (later_object_takes_over_other_mode exampleCwd "/home/u" exampleDefaultFiles
              exampleLoaderFor
              (mkProgram [] (mkPrototype None None None None)) _ _
              "app" "other" exampleParse exampleParse
              (Some plainOptions) (Some plainOptions) 0 1 eq_refl eq_refl)
    as (_ & H1 & _ & Hsame & _).
  destruct (Hsame eq_refl) as (H2 & H3 & _).
  cbv zeta. split; [exact H1|]. split; [exact H2|exact H3].
Defined.
